(** * Verification of the simulation core of mmorpg-henry

    A shallow embedding of the server-side simulation (entity/component
    store, movement and collision resolver, combat and projectile resolver,
    AI behaviour engine, state snapshot, equipment actions) and the
    properties its specification states about it.

    Conventions of the embedding:
    - Go's [float64] is Rocq's primitive binary64 float ([PrimFloat.float]);
      every arithmetic operation and comparison is the IEEE one the source
      executes.
    - Go's [int] is [Z]; entity identifiers ([uint64]) are [N].
    - The component store [map[reflect.Type]map[Entity]Component] is one
      finite map per component kind.
    - [ecs.GetComponent] hands out a copy of the stored struct, so systems
      read a value, change the copy and write it back with [AddComponent];
      the one place where a copy still shares memory with the store (the
      slice inside [InventoryComponent]) is modelled with an explicit heap.
    - [ecs.Query] ranges over a Go map, whose order is unspecified: the
      loops whose outcome depends on the order take it as an argument
      (the functions named [...Over]).
    - A nil dereference panics in Go; a function that can reach one returns
      an [option], [None] being the panic.
    - A float64 that int64 cannot hold (a NaN, an infinity, a number out of
      range) converts to the least int64, as it does on amd64
      ([F64.to_int], [F64.floor_int]).  The arithmetic on tile coordinates
      of the path planner and on item quantities wraps around at 64 bits
      ([int64]). *)

From Stdlib Require Import ZArith Floats Uint63 Bool Lia.
From stdpp Require Import gmap strings list.

Set Warnings "-inexact-float".

(** ** float64 and int conversions *)

Module F64.
Local Open Scope float_scope.

(** The least int64. *)
Definition MinInt64 : Z := (- 2 ^ 63)%Z.

(** The conversion of a float64 to [int] is exact when int64 can hold the
    integer.  When it cannot (a NaN, an infinity, a number beyond the
    range of int64) Go leaves the result to the implementation; the
    instruction the compiler emits on amd64 (CVTTSD2SQ) then yields the
    least int64, the "integer indefinite", and this is the result
    modelled here. *)
Definition fits (z : Z) : Z :=
  if (MinInt64 <=? z)%Z && (z <? 2 ^ 63)%Z then z else MinInt64.

(** Go's [int(x)] on a float64: truncation toward zero. *)
Definition to_int (f : float) : Z :=
  match Prim2SF f with
  | S754_zero _ => 0%Z
  | S754_finite s m e =>
      let v := if (0 <=? e)%Z then (Z.pos m * 2 ^ e)%Z
               else (Z.pos m / 2 ^ (- e))%Z in
      fits (if s then (- v)%Z else v)
  | S754_infinity _ | S754_nan => MinInt64
  end.

(** [int(math.Floor(x))]: the largest integer not above [x]
    ([math.Floor] returns a NaN or an infinity unchanged). *)
Definition floor_int (f : float) : Z :=
  match Prim2SF f with
  | S754_zero _ => 0%Z
  | S754_finite s m e =>
      fits
        (if (0 <=? e)%Z then
           (if s then - (Z.pos m * 2 ^ e) else Z.pos m * 2 ^ e)%Z
         else
           (if s then - ((Z.pos m + 2 ^ (- e) - 1) / 2 ^ (- e))
            else Z.pos m / 2 ^ (- e))%Z)
  | S754_infinity _ | S754_nan => MinInt64
  end.

(** [float64(i)] for an [int]: the nearest float64. *)
Definition of_int (z : Z) : float :=
  if (z =? MinInt64)%Z then -0x1p+63
  else if (z <? 0)%Z then - of_uint63 (Uint63.of_Z (- z))
  else of_uint63 (Uint63.of_Z z).

(** Go's [a > b], [a >= b], [a != b] on float64. *)
Definition gtb (a b : float) : bool := b <? a.
Definition geb (a b : float) : bool := b <=? a.
Definition neqb (a b : float) : bool := negb (a =? b).

End F64.

Infix ">?" := F64.gtb (at level 70, no associativity) : float_scope.
Infix ">=?" := F64.geb (at level 70, no associativity) : float_scope.

(** Go's [int] arithmetic wraps around at 64 bits. *)
Definition int64 (z : Z) : Z := ((z + 2 ^ 63) mod 2 ^ 64 - 2 ^ 63)%Z.

(** ** package config *)

Module config.
Definition TileSize : Z := 32%Z.
End config.

(** ** package world: tiles and maps *)

Module world.
Local Open Scope Z_scope.

(** [type TileType int], with the constants of the [iota] block. *)
Definition TileType := Z.
Definition TileGrass : TileType := 0.
Definition TileWater : TileType := 1.
Definition TileTree : TileType := 2.
Definition TileWaterEdgeTop : TileType := 3.
Definition TileWaterEdgeBottom : TileType := 4.
Definition TileWaterEdgeLeft : TileType := 5.
Definition TileWaterEdgeRight : TileType := 6.
Definition TileWaterCornerTL : TileType := 7.
Definition TileWaterCornerTR : TileType := 8.
Definition TileWaterCornerBL : TileType := 9.
Definition TileWaterCornerBR : TileType := 10.
Definition TileWaterDeep : TileType := 11.
Definition TileWaterShallow : TileType := 12.
Definition TileGrassFlowers : TileType := 13.
Definition TileSand : TileType := 14.
Definition TileDirtPath : TileType := 15.
Definition TileCobblePath : TileType := 16.
Definition TileSnow : TileType := 17.
Definition TileIce : TileType := 18.
Definition TileLava : TileType := 19.
Definition TileStoneFloor : TileType := 20.
Definition TileWoodFloor : TileType := 21.

Definition IsSolid (t : TileType) : bool :=
  existsb (Z.eqb t)
    [TileWater; TileWaterDeep; TileLava; TileTree; TileWaterCornerBL;
     TileWaterCornerBR; TileWaterCornerTL; TileWaterCornerTR;
     TileWaterEdgeBottom; TileWaterEdgeLeft; TileWaterEdgeRight;
     TileWaterEdgeTop].

Record Tile := mkTile { Type_ : TileType }.

Record Spawner := mkSpawner
  { SpX : float; SpY : float; CharacterID : string }.

Record Map := mkMap
  { Level : Z;
    Width : Z;
    Height : Z;
    Tiles : list (list Tile);
    Objects : list (list Z);
    Spawners : list Spawner }.

(** [NewMap]: [height] rows of [width] zero tiles and zero objects. *)
Definition NewMap (width height : Z) : Map :=
  {| Level := 0; Width := width; Height := height;
     Tiles := replicate (Z.to_nat height)
                (replicate (Z.to_nat width) (mkTile TileGrass));
     Objects := replicate (Z.to_nat height) (replicate (Z.to_nat width) 0%Z);
     Spawners := [] |}.

(** [m.Tiles[ty][tx]] and [m.Objects[ty][tx]].  Every access in the systems
    is guarded by [0 <= tx < Width] and [0 <= ty < Height], and the grids of
    a map built by [NewMap] have exactly these dimensions, so the default is
    never read on such a map (see [tileAt_in_bounds]). *)
Definition tileAt (m : Map) (tx ty : Z) : Tile :=
  default (mkTile TileGrass)
    (Tiles m !! Z.to_nat ty ≫= fun row => row !! Z.to_nat tx).

Definition objectAt (m : Map) (tx ty : Z) : Z :=
  default 0%Z (Objects m !! Z.to_nat ty ≫= fun row => row !! Z.to_nat tx).

Definition inBounds (m : Map) (tx ty : Z) : bool :=
  (0 <=? tx)%Z && (tx <? Width m)%Z && (0 <=? ty)%Z && (ty <? Height m)%Z.

(** The shape [NewMap] establishes and [LoadMap] keeps. *)
Definition wf (m : Map) : Prop :=
  length (Tiles m) = Z.to_nat (Height m) ∧
  length (Objects m) = Z.to_nat (Height m) ∧
  Forall (fun row => length row = Z.to_nat (Width m)) (Tiles m) ∧
  Forall (fun row => length row = Z.to_nat (Width m)) (Objects m).

(** [FlattenTiles]: the grid row by row, [flat[y*width+x]] holding the type
    of [tiles[y][x]]; the width is the length of the first row.  [None] is
    the panic of the index [tiles[y][x]] in a row shorter than the first. *)
Definition FlattenTiles (tiles : list (list Tile)) : option (list Z) :=
  match tiles with
  | [] => Some []
  | row0 :: _ =>
      let height := length tiles in
      let width := length row0 in
      foldl (fun acc y =>
               foldl (fun acc x =>
                        match acc with
                        | None => None
                        | Some flat =>
                            match tiles !! y ≫= fun row => row !! x with
                            | Some t =>
                                Some (<[(y * width + x)%nat := Type_ t]> flat)
                            | None => None
                            end
                        end) acc (seq 0 width))
        (Some (replicate (width * height) 0)) (seq 0 height)
  end.

(** [UnflattenTiles]: [height] rows of [width] tiles; a cell whose index
    lies beyond [flat] keeps the zero tile.  [None] is the panic of [make]
    with a negative length. *)
Definition UnflattenTiles (flat : list Z) (width height : Z)
  : option (list (list Tile)) :=
  if height <? 0 then None
  else if (0 <? height) && (width <? 0) then None
  else
    Some (map (fun y =>
                 map (fun x =>
                        match flat !! (y * Z.to_nat width + x)%nat with
                        | Some v => mkTile v
                        | None => mkTile 0
                        end) (seq 0 (Z.to_nat width)))
            (seq 0 (Z.to_nat height))).

(** [FlattenObjects] and [UnflattenObjects]: the same for the object
    layer. *)
Definition FlattenObjects (objects : list (list Z)) : option (list Z) :=
  match objects with
  | [] => Some []
  | row0 :: _ =>
      let height := length objects in
      let width := length row0 in
      foldl (fun acc y =>
               foldl (fun acc x =>
                        match acc with
                        | None => None
                        | Some flat =>
                            match objects !! y ≫= fun row => row !! x with
                            | Some o => Some (<[(y * width + x)%nat := o]> flat)
                            | None => None
                            end
                        end) acc (seq 0 width))
        (Some (replicate (width * height) 0)) (seq 0 height)
  end.

Definition UnflattenObjects (flat : list Z) (width height : Z)
  : option (list (list Z)) :=
  if height <? 0 then None
  else if (0 <? height) && (width <? 0) then None
  else
    Some (map (fun y =>
                 map (fun x =>
                        default 0 (flat !! (y * Z.to_nat width + x)%nat))
                   (seq 0 (Z.to_nat width)))
            (seq 0 (Z.to_nat height))).

End world.

(** ** package components *)

Module components.

Definition Entity := N.

(** [color.RGBA]: four bytes. *)
Record RGBA := mkRGBA { cR : Z; cG : Z; cB : Z; cA : Z }.

Record TransformComponent := mkTransform
  { tX : float; tY : float; tZ : Z; Rotation : float }.

Record PhysicsComponent := mkPhysics
  { VelX : float; VelY : float; AccX : float; AccY : float; Speed : float }.

Record SpriteComponent := mkSprite
  { Color : RGBA; sWidth : float; sHeight : float }.

(** [IsRunning] is read by the movement system and by the persistence
    system. *)
Record InputComponent := mkInput
  { Up : bool; Down : bool; Left : bool; Right : bool;
    Attack : bool;
    IsRunning : bool;
    HotbarTriggers : list bool;
    MouseX : float; MouseY : float;
    ActiveSpell : string }.

Record StatsComponent := mkStats
  { MaxHealth : float; CurrentHealth : float; sDamage : float }.

Inductive AttackType := AttackTypeMelee | AttackTypeRanged.

Record AttackComponent := mkAttack
  { aDamage : float; aRange : float; Cooldown : float;
    LastAttackTime : float; aType : AttackType }.

Record ProjectileComponent := mkProjectile
  { OwnerID : Entity; pDamage : float; Lifetime : float }.

Record AIComponent := mkAI
  { aiType : string;
    State : string;
    StateTimer : float;
    MoveDirection : Z;
    TargetID : Entity;
    IsAggressive : bool;
    Faction : Z;
    Path : list (float * float);
    PathTimer : float;
    SpawnX : float; SpawnY : float;
    LeashRange : float }.

Record RespawnComponent := mkRespawn
  { rSpawnX : float; rSpawnY : float; RespawnTimer : float; IsDead : bool }.

Record InventorySlot := mkSlot { ItemID : string; Quantity : Z }.

(** A Go slice value points into a backing array; [loc] names the array.
    The slices of this program always span their whole array. *)
Definition loc := N.

(** [InventoryComponent]: [Slots] is a slice, so a copy of the struct
    refers to the same slots as the original. *)
Record InventoryComponent := mkInventory { Slots : loc; Capacity : Z }.

(** [EquipmentComponent]: [Slots [9]EquipmentSlot] is an array, copied with
    the struct; an [EquipmentSlot] is its [ItemID]. *)
Record EquipmentComponent := mkEquipment { eSlots : list string }.

Definition SlotHead : Z := 0.
Definition SlotNeck : Z := 1.
Definition SlotBack : Z := 2.
Definition SlotBody : Z := 3.
Definition SlotLegs : Z := 4.
Definition SlotWeapon : Z := 5.
Definition SlotShield : Z := 6.
Definition SlotFeet : Z := 7.
Definition SlotHands : Z := 8.

(** The zero value of [EquipmentComponent]: nine empty slots. *)
Definition emptyEquipment : EquipmentComponent :=
  mkEquipment (replicate 9 EmptyString).

(** [equip.Slots[i].ItemID] for an index the caller has checked or that is
    a constant below 9. *)
Definition equipSlot (e : EquipmentComponent) (i : Z) : string :=
  default EmptyString (eSlots e !! Z.to_nat i).

Definition setEquipSlot (e : EquipmentComponent) (i : Z) (item : string)
  : EquipmentComponent :=
  mkEquipment (<[Z.to_nat i := item]> (eSlots e)).

(** [SpellbookComponent]: [Cooldowns] is a Go map from spell id to the time
    of the last cast; a missing key reads as 0. *)
Record SpellbookComponent := mkSpellbook
  { UnlockedSpells : list string; Cooldowns : gmap string float }.

(** The zero value [InputComponent{}]. *)
Definition zeroInput : InputComponent :=
  mkInput false false false false false false (replicate 10 false)
    0%float 0%float EmptyString.

(** ** Field updates (Go's [c.F = v] on a local copy) *)

Definition setXY (t : TransformComponent) (x y : float) :=
  mkTransform x y (tZ t) (Rotation t).
Definition setRotation (t : TransformComponent) (r : float) :=
  mkTransform (tX t) (tY t) (tZ t) r.

Definition setMoves (i : InputComponent) (u d l r : bool) :=
  mkInput u d l r (Attack i) (IsRunning i) (HotbarTriggers i)
    (MouseX i) (MouseY i) (ActiveSpell i).
Definition setAttack (i : InputComponent) (a : bool) :=
  mkInput (Up i) (Down i) (Left i) (Right i) a (IsRunning i)
    (HotbarTriggers i) (MouseX i) (MouseY i) (ActiveSpell i).
Definition setMouse (i : InputComponent) (mx my : float) :=
  mkInput (Up i) (Down i) (Left i) (Right i) (Attack i) (IsRunning i)
    (HotbarTriggers i) mx my (ActiveSpell i).
Definition setUp (i : InputComponent) :=
  setMoves i true (Down i) (Left i) (Right i).
Definition setDown (i : InputComponent) :=
  setMoves i (Up i) true (Left i) (Right i).
Definition setLeft (i : InputComponent) :=
  setMoves i (Up i) (Down i) true (Right i).
Definition setRight (i : InputComponent) :=
  setMoves i (Up i) (Down i) (Left i) true.

Definition setState (a : AIComponent) (s : string) :=
  mkAI (aiType a) s (StateTimer a) (MoveDirection a) (TargetID a)
    (IsAggressive a) (Faction a) (Path a) (PathTimer a)
    (SpawnX a) (SpawnY a) (LeashRange a).
Definition setStateTimer (a : AIComponent) (t : float) :=
  mkAI (aiType a) (State a) t (MoveDirection a) (TargetID a)
    (IsAggressive a) (Faction a) (Path a) (PathTimer a)
    (SpawnX a) (SpawnY a) (LeashRange a).
Definition setMoveDirection (a : AIComponent) (d : Z) :=
  mkAI (aiType a) (State a) (StateTimer a) d (TargetID a)
    (IsAggressive a) (Faction a) (Path a) (PathTimer a)
    (SpawnX a) (SpawnY a) (LeashRange a).
Definition setTargetID (a : AIComponent) (t : Entity) :=
  mkAI (aiType a) (State a) (StateTimer a) (MoveDirection a) t
    (IsAggressive a) (Faction a) (Path a) (PathTimer a)
    (SpawnX a) (SpawnY a) (LeashRange a).
Definition setPath (a : AIComponent) (p : list (float * float)) :=
  mkAI (aiType a) (State a) (StateTimer a) (MoveDirection a) (TargetID a)
    (IsAggressive a) (Faction a) p (PathTimer a)
    (SpawnX a) (SpawnY a) (LeashRange a).
Definition setPathTimer (a : AIComponent) (t : float) :=
  mkAI (aiType a) (State a) (StateTimer a) (MoveDirection a) (TargetID a)
    (IsAggressive a) (Faction a) (Path a) t
    (SpawnX a) (SpawnY a) (LeashRange a).

Definition setHealth (s : StatsComponent) (h : float) :=
  mkStats (MaxHealth s) h (sDamage s).

(** [components.Direction]: the unit vector from (x1,y1) to (x2,y2), or
    (0,0) when the points coincide. *)
Definition Direction (x1 y1 x2 y2 : float) : float * float :=
  let dx := (x2 - x1)%float in
  let dy := (y2 - y1)%float in
  let msg := PrimFloat.sqrt (dx * dx + dy * dy)%float in
  if (msg =? 0)%float then (0%float, 0%float)
  else ((dx / msg)%float, (dy / msg)%float).

(** [components.CheckCollision]: do two circles touch. *)
Definition CheckCollision (x1 y1 r1 x2 y2 r2 : float) : bool :=
  let dx := (x2 - x1)%float in
  let dy := (y2 - y1)%float in
  let distSq := (dx * dx + dy * dy)%float in
  let radiusSum := (r1 + r2)%float in
  (distSq <=? radiusSum * radiusSum)%float.

(** [components.SpellRegistry], as far as the server reads it: the cooldown
    and the kind of each spell. *)
Record Spell := mkSpell
  { spID : string; spColor : RGBA; spCooldown : float; spType : string }.

Definition SpellRegistry (id : string) : option Spell :=
  if String.eqb id "fireball" then
    Some (mkSpell "fireball" (mkRGBA 255 100 50 255) 2 "combat")
  else if String.eqb id "heal" then
    Some (mkSpell "heal" (mkRGBA 100 255 100 255) 5 "instant")
  else if String.eqb id "blink" then
    Some (mkSpell "blink" (mkRGBA 100 100 255 255) 8 "instant")
  else if String.eqb id "shield" then
    Some (mkSpell "shield" (mkRGBA 200 200 255 255) 15 "instant")
  else if String.eqb id "void" then
    Some (mkSpell "void" (mkRGBA 100 0 100 255) 20 "instant")
  else None.

End components.

(** ** package ecs: the entity/component store *)

Module ecs.
Import components.

(** [World.components], one table per component kind, and the entity
    counter.  ([World.systems] stays empty in this server: no system is ever
    registered with [AddSystem], so [World.Update] does nothing.) *)
Record World := mkWorld
  { nextEntityID : N;
    transforms : gmap Entity TransformComponent;
    physicses : gmap Entity PhysicsComponent;
    sprites : gmap Entity SpriteComponent;
    inputs : gmap Entity InputComponent;
    statses : gmap Entity StatsComponent;
    attacks : gmap Entity AttackComponent;
    projectiles : gmap Entity ProjectileComponent;
    ais : gmap Entity AIComponent;
    respawns : gmap Entity RespawnComponent;
    equipments : gmap Entity EquipmentComponent;
    inventories : gmap Entity InventoryComponent;
    spellbooks : gmap Entity SpellbookComponent }.

Definition NewWorld : World :=
  mkWorld 0 ∅ ∅ ∅ ∅ ∅ ∅ ∅ ∅ ∅ ∅ ∅ ∅.

(** The role [reflect.TypeOf] plays in the source: each component type
    selects its table. *)
Class Component (T : Type) := mkComponent
  { store : World -> gmap Entity T;
    setStore : gmap Entity T -> World -> World }.

#[export] Instance TransformKind : Component TransformComponent :=
  {| store := transforms;
     setStore := fun m w => mkWorld (nextEntityID w) m (physicses w)
       (sprites w) (inputs w) (statses w) (attacks w) (projectiles w)
       (ais w) (respawns w) (equipments w) (inventories w) (spellbooks w) |}.
#[export] Instance PhysicsKind : Component PhysicsComponent :=
  {| store := physicses;
     setStore := fun m w => mkWorld (nextEntityID w) (transforms w) m
       (sprites w) (inputs w) (statses w) (attacks w) (projectiles w)
       (ais w) (respawns w) (equipments w) (inventories w) (spellbooks w) |}.
#[export] Instance SpriteKind : Component SpriteComponent :=
  {| store := sprites;
     setStore := fun m w => mkWorld (nextEntityID w) (transforms w)
       (physicses w) m (inputs w) (statses w) (attacks w) (projectiles w)
       (ais w) (respawns w) (equipments w) (inventories w) (spellbooks w) |}.
#[export] Instance InputKind : Component InputComponent :=
  {| store := inputs;
     setStore := fun m w => mkWorld (nextEntityID w) (transforms w)
       (physicses w) (sprites w) m (statses w) (attacks w) (projectiles w)
       (ais w) (respawns w) (equipments w) (inventories w) (spellbooks w) |}.
#[export] Instance StatsKind : Component StatsComponent :=
  {| store := statses;
     setStore := fun m w => mkWorld (nextEntityID w) (transforms w)
       (physicses w) (sprites w) (inputs w) m (attacks w) (projectiles w)
       (ais w) (respawns w) (equipments w) (inventories w) (spellbooks w) |}.
#[export] Instance AttackKind : Component AttackComponent :=
  {| store := attacks;
     setStore := fun m w => mkWorld (nextEntityID w) (transforms w)
       (physicses w) (sprites w) (inputs w) (statses w) m (projectiles w)
       (ais w) (respawns w) (equipments w) (inventories w) (spellbooks w) |}.
#[export] Instance ProjectileKind : Component ProjectileComponent :=
  {| store := projectiles;
     setStore := fun m w => mkWorld (nextEntityID w) (transforms w)
       (physicses w) (sprites w) (inputs w) (statses w) (attacks w) m
       (ais w) (respawns w) (equipments w) (inventories w) (spellbooks w) |}.
#[export] Instance AIKind : Component AIComponent :=
  {| store := ais;
     setStore := fun m w => mkWorld (nextEntityID w) (transforms w)
       (physicses w) (sprites w) (inputs w) (statses w) (attacks w)
       (projectiles w) m (respawns w) (equipments w) (inventories w)
       (spellbooks w) |}.
#[export] Instance RespawnKind : Component RespawnComponent :=
  {| store := respawns;
     setStore := fun m w => mkWorld (nextEntityID w) (transforms w)
       (physicses w) (sprites w) (inputs w) (statses w) (attacks w)
       (projectiles w) (ais w) m (equipments w) (inventories w)
       (spellbooks w) |}.
#[export] Instance EquipmentKind : Component EquipmentComponent :=
  {| store := equipments;
     setStore := fun m w => mkWorld (nextEntityID w) (transforms w)
       (physicses w) (sprites w) (inputs w) (statses w) (attacks w)
       (projectiles w) (ais w) (respawns w) m (inventories w)
       (spellbooks w) |}.
#[export] Instance InventoryKind : Component InventoryComponent :=
  {| store := inventories;
     setStore := fun m w => mkWorld (nextEntityID w) (transforms w)
       (physicses w) (sprites w) (inputs w) (statses w) (attacks w)
       (projectiles w) (ais w) (respawns w) (equipments w) m
       (spellbooks w) |}.
#[export] Instance SpellbookKind : Component SpellbookComponent :=
  {| store := spellbooks;
     setStore := fun m w => mkWorld (nextEntityID w) (transforms w)
       (physicses w) (sprites w) (inputs w) (statses w) (attacks w)
       (projectiles w) (ais w) (respawns w) (equipments w) (inventories w)
       m |}.

(** [NewEntity]: [atomic.AddUint64(&w.nextEntityID, 1)], the new value. *)
Definition NewEntity (w : World) : Entity * World :=
  let id := ((nextEntityID w + 1) mod 2 ^ 64)%N in
  (id, mkWorld id (transforms w) (physicses w) (sprites w) (inputs w)
         (statses w) (attacks w) (projectiles w) (ais w) (respawns w)
         (equipments w) (inventories w) (spellbooks w)).

(** [RemoveEntity]: delete the entity from every table. *)
Definition RemoveEntity (e : Entity) (w : World) : World :=
  mkWorld (nextEntityID w) (delete e (transforms w)) (delete e (physicses w))
    (delete e (sprites w)) (delete e (inputs w)) (delete e (statses w))
    (delete e (attacks w)) (delete e (projectiles w)) (delete e (ais w))
    (delete e (respawns w)) (delete e (equipments w))
    (delete e (inventories w)) (delete e (spellbooks w)).

Definition AddComponent {T} `{Component T} (e : Entity) (c : T) (w : World)
  : World := setStore (<[e := c]> (store w)) w.

(** [RemoveComponent(e, T{})]: the argument only names the kind. *)
Definition RemoveComponent (T : Type) `{Component T} (e : Entity) (w : World)
  : World := setStore (delete e (store (T:=T) w)) w.

(** [GetComponent[T]]: a copy of the stored value, or nil. *)
Definition GetComponent (T : Type) `{Component T} (w : World) (e : Entity)
  : option T := store w !! e.

(** [Query[T]]: the entities of the table, in one of the orders a range
    over the Go map may produce. *)
Definition Query (T : Type) `{Component T} (w : World) : list Entity :=
  (map_to_list (store (T:=T) w)).*1.

(** What a caller may assume of the order of a query result. *)
Definition queryOrder (T : Type) `{Component T} (w : World)
  (ents : list Entity) : Prop :=
  NoDup ents ∧ ∀ e, e ∈ ents ↔ is_Some (store (T:=T) w !! e).

End ecs.

(** ** package items: the item registry *)

Module items.
Import components.

Inductive ItemType := ItemTypeWeapon | ItemTypeConsumable | ItemTypeMisc.

Record ItemDefinition := mkItem
  { iID : string;
    iName : string;
    iType : ItemType;
    WeaponStats : option AttackComponent;
    EquipmentSlot : Z }.

(** The registry after the [init] functions of the package have run.  The
    gold coin is registered without an [EquipmentSlot], which leaves the
    field at its zero value. *)
Definition Registry : list ItemDefinition :=
  [ mkItem "sword_starter" "Rusty Sword" ItemTypeWeapon
      (Some (mkAttack 20 60 0.8 0 AttackTypeMelee)) SlotWeapon;
    mkItem "bow_starter" "Old Bow" ItemTypeWeapon
      (Some (mkAttack 10 400 0.5 0 AttackTypeRanged)) SlotWeapon;
    mkItem "potion_health_small" "Small Health Potion" ItemTypeConsumable
      None (-1);
    mkItem "coin_gold" "Gold Coin" ItemTypeMisc None 0 ].

Definition Get (id : string) : option ItemDefinition :=
  List.find (fun it => String.eqb (iID it) id) Registry.

End items.

(** ** Control flow of Go loops *)

(** A [for] loop over [l] whose body may [return] a value: the first value
    returned ends the loop; [None] means the loop ran to its end. *)
Fixpoint forReturn {A R : Type} (l : list A) (body : A -> option R)
  : option R :=
  match l with
  | [] => None
  | a :: l' =>
      match body a with
      | Some r => Some r
      | None => forReturn l' body
      end
  end.

(** The indices of [for i := lo; i <= hi; i++]. *)
Definition upTo (lo hi : Z) : list Z := seqZ lo (hi - lo + 1).

(** ** package systems: movement and collision *)

Module movement.
Import components ecs.
Local Open Scope float_scope.

Definition tileSize : float := F64.of_int config.TileSize.

Definition rectOverlap (x1 y1 w1 h1 x2 y2 w2 h2 : float) : bool :=
  (x1 <? x2 + w2) && (x1 + w1 >? x2) && (y1 <? y2 + h2) && (y1 + h1 >? y2).

Definition isTileSolid (tile : world.Tile) (tx ty : Z) (x y w h : float)
  : bool :=
  let tileX := F64.of_int tx * tileSize in
  let tileY := F64.of_int ty * tileSize in
  let localX := x - tileX in
  let localY := y - tileY in
  let t := world.Type_ tile in
  if world.IsSolid t then
    let halfTile := tileSize / 2 in
    if (t =? world.TileWaterEdgeTop)%Z then localY + h >? halfTile
    else if (t =? world.TileWaterEdgeBottom)%Z then localY <? halfTile
    else if (t =? world.TileWaterEdgeLeft)%Z then localX + w >? halfTile
    else if (t =? world.TileWaterEdgeRight)%Z then localX <? halfTile
    else if (t =? world.TileWaterCornerTL)%Z then
      (localX + w >? halfTile) && (localY + h >? halfTile)
    else if (t =? world.TileWaterCornerTR)%Z then
      (localX <? halfTile) && (localY + h >? halfTile)
    else if (t =? world.TileWaterCornerBL)%Z then
      (localX + w >? halfTile) && (localY <? halfTile)
    else if (t =? world.TileWaterCornerBR)%Z then
      (localX <? halfTile) && (localY <? halfTile)
    else if (t =? world.TileTree)%Z then
      let treeSize := tileSize / 2 in
      let treeOffset := (tileSize - treeSize) / 2 in
      rectOverlap localX localY w h treeOffset treeOffset treeSize treeSize
    else true
  else false.

(** The tile columns and rows a probe box may overlap. *)
Definition startT (x : float) : Z := F64.floor_int (x / tileSize).
Definition endT (x w : float) : Z := F64.floor_int ((x + w) / tileSize).

(** The body of the inner loop of [collidesAt] at tile (tx,ty). *)
Definition collidesAtTile (gameMap : world.Map) (x y w h : float)
  (ty tx : Z) : option bool :=
  if negb (world.inBounds gameMap tx ty) then Some true
  else if isTileSolid (world.tileAt gameMap tx ty) tx ty x y w h
  then Some true
  else
    let objID := world.objectAt gameMap tx ty in
    if (objID >? 0)%Z then
      let treeSize := tileSize / 2 in
      let offset := (tileSize - treeSize) / 2 in
      let obsX := F64.of_int tx * tileSize + offset in
      let obsY := F64.of_int ty * tileSize + offset in
      if rectOverlap x y w h obsX obsY treeSize treeSize then Some true
      else None
    else None.

Definition collidesAt (maps : gmap Z world.Map) (z : Z) (x y w h : float)
  : bool :=
  match maps !! z with
  | None => true
  | Some gameMap =>
      default false
        (forReturn (upTo (startT y) (endT y h)) (fun ty =>
           forReturn (upTo (startT x) (endT x w))
             (collidesAtTile gameMap x y w h ty)))
  end.

Definition boxSize : float := 24.
Definition boxOffset : float := (tileSize - boxSize) / 2.

(** The body of the loop of [collidesWithEntities] for one other entity.
    The outer [option] is the loop control ([Some r] returns [r]); the inner
    one is [None] when the body dereferences the nil [otherTrans] of an
    entity that holds Physics but no Transform, which panics. *)
Definition collidesWithEntity (w : World) (selfID : Entity) (z : Z)
  (x y bw bh : float) (otherID : Entity) : option (option bool) :=
  if (otherID =? selfID)%N then None
  else
    match GetComponent ProjectileComponent w otherID with
    | Some _ => None
    | None =>
        match GetComponent TransformComponent w otherID with
        | None => Some None
        | Some otherTrans =>
            if negb (tZ otherTrans =? z)%Z then None
            else
              let otherX := tX otherTrans + boxOffset in
              let otherY := tY otherTrans + boxOffset in
              if rectOverlap x y bw bh otherX otherY boxSize boxSize
              then Some (Some true)
              else None
        end
    end.

Definition collidesWithEntitiesOver (others : list Entity) (w : World)
  (selfID : Entity) (z : Z) (x y bw bh : float) : option bool :=
  default (Some false)
    (forReturn others (collidesWithEntity w selfID z x y bw bh)).

Definition collidesWithEntities (w : World) (selfID : Entity) (z : Z)
  (x y bw bh : float) : option bool :=
  collidesWithEntitiesOver (Query PhysicsComponent w) w selfID z x y bw bh.

Section Movement.

(** [math.Atan2] of Go's standard library. *)
Variable Atan2 : float -> float -> float.

Record MovementSystem := mkMovement
  { mWorld : World;
    Maps : gmap Z world.Map;
    CombatTimers : gmap Entity float }.

(** The direction the four flags select, before normalisation. *)
Definition inputDir (input : InputComponent) : float * float :=
  let dy : float := if Up input then -1 else 0 in
  let dy : float := if Down input then 1 else dy in
  let dx : float := if Left input then -1 else 0 in
  let dx : float := if Right input then 1 else dx in
  (dx, dy).

Definition normalized (d : float * float) : float * float :=
  let '(dx, dy) := d in
  if F64.neqb dx 0 && F64.neqb dy 0
  then (dx * 0.7071, dy * 0.7071) else (dx, dy).

Definition moveSpeed (input : InputComponent) (phys : PhysicsComponent)
  : float :=
  if IsRunning input then Speed phys * 2 else Speed phys.

(** "Try move X": may the box at ([x]+[offset], [y]+[offset]) be entered?
    [None] is the panic of [collidesWithEntities]. *)
Definition blocked (s : MovementSystem) (id : Entity) (z : Z) (x y : float)
  : option bool :=
  if collidesAt (Maps s) z (x + boxOffset) (y + boxOffset) boxSize boxSize
  then Some true
  else collidesWithEntities (mWorld s) id z (x + boxOffset) (y + boxOffset)
         boxSize boxSize.

(** The "Update Rotation" block. *)
Definition updateRotation (s : MovementSystem) (id : Entity) (dt : float)
  (input : InputComponent) (dx dy : float) (transform : TransformComponent)
  : TransformComponent * gmap Entity float :=
  let combatTimer := default 0 (CombatTimers s !! id) in
  let aim := Atan2 (MouseY input - tY transform) (MouseX input - tX transform) in
  if Attack input then
    (setRotation transform aim, <[id := 0.3]> (CombatTimers s))
  else if combatTimer >? 0 then
    (setRotation transform aim, <[id := combatTimer - dt]> (CombatTimers s))
  else if F64.neqb dx 0 || F64.neqb dy 0 then
    (setRotation transform (Atan2 dy dx), CombatTimers s)
  else (setRotation transform aim, CombatTimers s).

(** [UpdateEntityMovement]; [None] when the tick panics. *)
Definition UpdateEntityMovement (id : Entity) (dt : float)
  (s : MovementSystem) : option MovementSystem :=
  match GetComponent InputComponent (mWorld s) id,
        GetComponent TransformComponent (mWorld s) id,
        GetComponent PhysicsComponent (mWorld s) id with
  | Some input, Some transform, Some phys =>
      let '(dx, dy) := normalized (inputDir input) in
      let speed := moveSpeed input phys in
      let moveX := dx * speed in
      let moveY := dy * speed in
      let z := tZ transform in
      match blocked s id z (tX transform + moveX) (tY transform) with
      | None => None
      | Some bx =>
          let transform :=
            if bx then transform
            else setXY transform (tX transform + moveX) (tY transform) in
          match blocked s id z (tX transform) (tY transform + moveY) with
          | None => None
          | Some by_ =>
              let transform :=
                if by_ then transform
                else setXY transform (tX transform) (tY transform + moveY) in
              let '(transform, timers) :=
                updateRotation s id dt input dx dy transform in
              Some (mkMovement (AddComponent id transform (mWorld s))
                      (Maps s) timers)
          end
      end
  | _, _, _ => Some s
  end.

(** [Update]: every entity with Input, in query order; a panic ends it. *)
Fixpoint UpdateOver (ents : list Entity) (dt : float) (s : MovementSystem)
  : option MovementSystem :=
  match ents with
  | [] => Some s
  | id :: rest =>
      match UpdateEntityMovement id dt s with
      | None => None
      | Some s' => UpdateOver rest dt s'
      end
  end.

Definition Update (dt : float) (s : MovementSystem) : option MovementSystem :=
  UpdateOver (Query InputComponent (mWorld s)) dt s.

End Movement.

End movement.

(** ** package systems: the state snapshot sent to clients *)

Module network.
Import components ecs.

(** [protocol.EntitySnapshot]: the pointers are [Some] of a copy or nil. *)
Record EntitySnapshot := mkSnapshot
  { ID : Entity;
    Transform : option TransformComponent;
    Physics : option PhysicsComponent;
    Sprite : option SpriteComponent;
    Stats : option StatsComponent }.

(** The body of the loop of [PrepareStateUpdate] for one entity: the entry
    it appends, if any. *)
Definition snapshotOf (w : World) (id : Entity) : option EntitySnapshot :=
  let trans := GetComponent TransformComponent w id in
  let sprite := GetComponent SpriteComponent w id in
  let stats := GetComponent StatsComponent w id in
  let physics := GetComponent PhysicsComponent w id in
  match sprite with
  | Some _ => Some (mkSnapshot id trans physics sprite stats)
  | None => None
  end.

Definition PrepareStateUpdateOver (entities : list Entity) (w : World)
  : list EntitySnapshot :=
  omap (snapshotOf w) entities.

(** [PrepareStateUpdate]: the loop runs over [Query[TransformComponent]]. *)
Definition PrepareStateUpdate (w : World) : list EntitySnapshot :=
  PrepareStateUpdateOver (Query TransformComponent w) w.

End network.

(** ** package systems: the AI behaviour engine *)

Module ai.
Import components ecs.
Local Open Scope float_scope.

(** [math/rand]: the generator is an oracle of draws and a position. *)
Record Rng := mkRng
  { floatAt : nat -> float; intAt : nat -> Z; drawn : nat }.

Definition Float64 (r : Rng) : float * Rng :=
  (floatAt r (drawn r), mkRng (floatAt r) (intAt r) (S (drawn r))).

Definition Intn (n : Z) (r : Rng) : Z * Rng :=
  ((intAt r (drawn r) mod n)%Z, mkRng (floatAt r) (intAt r) (S (drawn r))).

(** [getEntityCenter]: the visual centre of an entity. *)
Definition getEntityCenter (w : World) (id : Entity) : float * float :=
  match GetComponent TransformComponent w id with
  | None => (0, 0)
  | Some trans =>
      let '(sw, sh) :=
        match GetComponent SpriteComponent w id with
        | Some sprite => (sWidth sprite, sHeight sprite)
        | None => (32, 32)
        end in
      (tX trans + sw / 2, tY trans + sh / 2)
  end.

(** Is the cell a wall for rays and paths: a solid tile or an object. *)
Definition cellBlocked (m : world.Map) (tx ty : Z) : bool :=
  world.IsSolid (world.Type_ (world.tileAt m tx ty))
  || (world.objectAt m tx ty >? 0)%Z.

(** The loop of [castRay]: [n] more steps from ([cx],[cy]). *)
Fixpoint castRaySteps (m : world.Map) (n : nat) (cx cy dx dy : float)
  : bool :=
  match n with
  | O => true
  | S n' =>
      let cx := cx + dx in
      let cy := cy + dy in
      let tx := F64.to_int (cx / 32) in
      let ty := F64.to_int (cy / 32) in
      if world.inBounds m tx ty && cellBlocked m tx ty then false
      else castRaySteps m n' cx cy dx dy
  end.

Definition castRay (m : world.Map) (x1 y1 x2 y2 : float) : bool :=
  let dist := PrimFloat.sqrt ((x2 - x1) * (x2 - x1) + (y2 - y1) * (y2 - y1)) in
  let steps := F64.to_int (dist / 8) in
  if (steps =? 0)%Z then true
  else
    let dx := (x2 - x1) / F64.of_int steps in
    let dy := (y2 - y1) / F64.of_int steps in
    castRaySteps m (Z.to_nat steps) x1 y1 dx dy.

(** The centre ray and the four corners of a 24x24 box. *)
Definition losOffsets : list (float * float) :=
  [(0, 0); (-12, -12); (12, -12); (-12, 12); (12, 12)].

Definition HasLineOfSight (m : world.Map) (x1 y1 x2 y2 : float) : bool :=
  forallb (fun off : float * float =>
             castRay m (x1 + off.1) (y1 + off.2) (x2 + off.1) (y2 + off.2))
    losOffsets.

(** *** A* path planning *)

(** A [Node]; [Parent] is the cell index of the parent node.  A node is
    the parent of another only after it left the open list, and from then on
    no node with its index is created or changed, so the index identifies
    the node the pointer of the source refers to. *)
Record Node := mkNode
  { nX : Z; nY : Z; G : float; H : float; F : float; Parent : option Z }.

Definition dirs : list (Z * Z) :=
  [(0, -1); (0, 1); (-1, 0); (1, 0); (-1, -1); (1, -1); (-1, 1); (1, 1)]%Z.

Definition MaxFloat64 : float := 0x1.fffffffffffffp+1023.

(** The node of lowest [F] below [minF], the first such in the order the
    open list is ranged over (unspecified in Go; the order of the list
    here). *)
Fixpoint lowestF (l : list (Z * Node)) (minF : float)
  (curr : option (Z * Node)) : option (Z * Node) :=
  match l with
  | [] => curr
  | (idx, node) :: l' =>
      if F node <? minF then lowestF l' (F node) (Some (idx, node))
      else lowestF l' minF curr
  end.

(** The planner's working state: open list and the nodes already closed. *)
Record Search := mkSearch
  { openList : gmap Z Node; closedList : gmap Z Node }.

(** One neighbour of [curr] in direction number [i]. *)
Definition relax (m : world.Map) (endTX endTY : Z) (currIdx : Z)
  (curr : Node) (s : Search) (i : Z) (d : Z * Z) : Search :=
  let nx := int64 (nX curr + d.1) in
  let ny := int64 (nY curr + d.2) in
  if negb (world.inBounds m nx ny) then s
  else
    let idx := int64 (ny * world.Width m + nx) in
    if bool_decide (is_Some (closedList s !! idx)) then s
    else if cellBlocked m nx ny then s
    else
      let c1 := (int64 (nX curr + d.1), nY curr) in
      let c2 := (nX curr, int64 (nY curr + d.2)) in
      let cut :=
        (4 <=? i)%Z &&
        ((world.inBounds m c1.1 c1.2 && cellBlocked m c1.1 c1.2)
         || (world.inBounds m c2.1 c2.2 && cellBlocked m c2.1 c2.2)) in
      if cut then s
      else
        let moveCost : float := if (4 <=? i)%Z then 1.414 else 1 in
        let gScore := G curr + moveCost in
        let hScore :=
          PrimFloat.sqrt
            (F64.of_int
               (int64 ((nx - endTX) * (nx - endTX)
                       + (ny - endTY) * (ny - endTY)))) in
        let fScore := gScore + hScore in
        match openList s !! idx with
        | Some existing =>
            if gScore <? G existing then
              mkSearch
                (<[idx := mkNode (nX existing) (nY existing) gScore
                            (H existing) fScore (Some currIdx)]> (openList s))
                (closedList s)
            else s
        | None =>
            mkSearch
              (<[idx := mkNode nx ny gScore hScore fScore (Some currIdx)]>
                 (openList s))
              (closedList s)
        end.

Fixpoint relaxAll (m : world.Map) (endTX endTY : Z) (currIdx : Z)
  (curr : Node) (s : Search) (i : Z) (ds : list (Z * Z)) : Search :=
  match ds with
  | [] => s
  | d :: ds' =>
      relaxAll m endTX endTY currIdx curr
        (relax m endTX endTY currIdx curr s i d) (i + 1)%Z ds'
  end.

(** The outcome of the main loop. *)
Inductive Found :=
| Goal_ (finalIdx : Z) (s : Search)
| NoPath
| NilDeref.

(** The main loop, at most [fuel] rounds.  Every round moves one index
    from the open list to the closed list for good, and the indices are
    those of the cells and of the start, so [FindPath] gives it the number
    of cells plus two rounds.  When no open node has an [F] below
    [MaxFloat64] the source reads a field of the nil [curr]: [NilDeref]. *)
Fixpoint search (m : world.Map) (endTX endTY : Z) (fuel : nat) (s : Search)
  : Found :=
  match fuel with
  | O => NoPath
  | S fuel' =>
      if bool_decide (openList s = ∅) then NoPath
      else
        match lowestF (map_to_list (openList s)) MaxFloat64 None with
        | None => NilDeref
        | Some (currIdx, curr) =>
            let s := mkSearch (delete currIdx (openList s))
                       (<[currIdx := curr]> (closedList s)) in
            if (nX curr =? endTX)%Z && (nY curr =? endTY)%Z
            then Goal_ currIdx s
            else
              search m endTX endTY fuel'
                (relaxAll m endTX endTY currIdx curr s 0%Z dirs)
        end
  end.

Definition tileCenter (n : Node) : float * float :=
  (F64.of_int (nX n) * 32 + 16, F64.of_int (nY n) * 32 + 16).

(** "Reconstruct Path": follow the parents from the final node, prepending
    tile centres. *)
Fixpoint reconstruct (closed : gmap Z Node) (fuel : nat) (idx : option Z)
  (rawPath : list (float * float)) : list (float * float) :=
  match fuel, idx with
  | S fuel', Some i =>
      match closed !! i with
      | Some n => reconstruct closed fuel' (Parent n) (tileCenter n :: rawPath)
      | None => rawPath
      end
  | _, _ => rawPath
  end.

(** The inner loop of [stringPull]: the farthest index [i], from [i] down
    to [currIdx]+2, that [path[currIdx]] sees; [currIdx]+1 if none. *)
Fixpoint farthestVisible (m : world.Map) (path : list (float * float))
  (from : float * float) (currIdx : nat) (i : nat) : nat :=
  match i with
  | O => S currIdx
  | S i' =>
      if bool_decide (S currIdx < i)%nat then
        match path !! i with
        | Some p =>
            if HasLineOfSight m from.1 from.2 p.1 p.2 then i
            else farthestVisible m path from currIdx i'
        | None => farthestVisible m path from currIdx i'
        end
      else S currIdx
  end.

(** The outer loop of [stringPull], at most [fuel] rounds ([currIdx] grows
    every round, so the length of the path is enough). *)
Fixpoint pull (m : world.Map) (path : list (float * float)) (fuel : nat)
  (currIdx : nat) (smoothPath : list (float * float))
  : list (float * float) :=
  match fuel with
  | O => smoothPath
  | S fuel' =>
      if bool_decide (currIdx < length path - 1)%nat then
        match path !! currIdx with
        | Some from =>
            let nextIdx :=
              farthestVisible m path from currIdx (length path - 1) in
            match path !! nextIdx with
            | Some p => pull m path fuel' nextIdx (smoothPath ++ [p])
            | None => smoothPath
            end
        | None => smoothPath
        end
      else smoothPath
  end.

Definition stringPull (m : world.Map) (path : list (float * float))
  : list (float * float) :=
  if bool_decide (length path < 3)%nat then path
  else
    match path with
    | [] => path
    | p0 :: _ =>
        let smoothPath := pull m path (length path) 0 [p0] in
        if bool_decide (1 < length smoothPath)%nat then drop 1 smoothPath
        else smoothPath
    end.

(** [FindPath]: the waypoints to follow (nil when there is no path), or
    [None] when the search panics. *)
Definition FindPath (m : world.Map) (startX startY endX endY : float)
  : option (list (float * float)) :=
  let startTX := F64.to_int ((startX + 16) / 32) in
  let startTY := F64.to_int ((startY + 16) / 32) in
  let endTX := F64.to_int ((endX + 16) / 32) in
  let endTY := F64.to_int ((endY + 16) / 32) in
  if (startTX =? endTX)%Z && (startTY =? endTY)%Z then Some []
  else if negb (world.inBounds m endTX endTY) then Some []
  else if cellBlocked m endTX endTY then Some []
  else
    let startNode := mkNode startTX startTY 0 0 0 None in
    let s0 :=
      mkSearch {[ int64 (startTY * world.Width m + startTX) := startNode ]}
        ∅ in
    let fuel := (Z.to_nat (world.Width m * world.Height m) + 2)%nat in
    match search m endTX endTY fuel s0 with
    | NilDeref => None
    | NoPath => Some []
    | Goal_ finalIdx s =>
        let rawPath :=
          reconstruct (closedList s) (S (size (closedList s)))
            (Some finalIdx) [] in
        if bool_decide (2 < length rawPath)%nat
        then Some (stringPull m rawPath)
        else if bool_decide (1 < length rawPath)%nat
        then Some (drop 1 rawPath)
        else Some rawPath
    end.

(** *** The per-entity state machine *)

(** [pickNewState]: a coin flip between idling and moving. *)
Definition pickNewState (ai : AIComponent) (r : Rng) : AIComponent * Rng :=
  let '(coin, r) := Float64 r in
  if coin <? 0.5 then
    let '(d, r) := Float64 r in
    (setStateTimer (setState ai "idle") (1 + d * 2), r)
  else
    let '(d, r) := Float64 r in
    let '(dir, r) := Intn 4 r in
    (setMoveDirection (setStateTimer (setState ai "move") (1 + d * 2)) dir, r).

(** [applyWanderState]: walk in the chosen direction while in "move". *)
Definition applyWanderState (ai : AIComponent) (input : InputComponent)
  (transform : TransformComponent) : InputComponent :=
  if String.eqb (State ai) "move" then
    if (MoveDirection ai =? 0)%Z then
      setMouse (setUp input) (tX transform) (tY transform - 100)
    else if (MoveDirection ai =? 1)%Z then
      setMouse (setDown input) (tX transform) (tY transform + 100)
    else if (MoveDirection ai =? 2)%Z then
      setMouse (setLeft input) (tX transform - 100) (tY transform)
    else if (MoveDirection ai =? 3)%Z then
      setMouse (setRight input) (tX transform + 100) (tY transform)
    else input
  else input.

(** "Determine Attack Range from Equipment": the range the AI attacks
    from, and whether it treats the weapon as ranged. *)
Definition attackRangeOf (w : World) (id : Entity) : float * bool :=
  match GetComponent EquipmentComponent w id with
  | Some equip =>
      let weaponID := equipSlot equip SlotWeapon in
      if negb (String.eqb weaponID "") then
        match items.Get weaponID with
        | Some item =>
            match items.WeaponStats item with
            | Some stats =>
                let attackRange := aRange stats in
                (attackRange * 0.8, attackRange >? 60)
            | None => (50, false)
            end
        | None => (50, false)
        end
      else (50, false)
  | None => (50, false)
  end.

(** Has the entity strayed beyond its leash: the squared distance from
    its position to its spawn origin exceeds the squared leash range. *)
Definition beyondLeash (transform : TransformComponent) (ai : AIComponent)
  : bool :=
  let dxSpawn := tX transform - SpawnX ai in
  let dySpawn := tY transform - SpawnY ai in
  dxSpawn * dxSpawn + dySpawn * dySpawn >? LeashRange ai * LeashRange ai.

(** "Follow Path": the point to steer to and the path left, given the
    point to fall back on when there is no path. *)
Definition followPath (path : list (float * float))
  (transform : TransformComponent) (fallback : float * float)
  : (float * float) * list (float * float) :=
  match path with
  | p :: rest =>
      let dx := p.1 - tX transform in
      let dy := p.2 - tY transform in
      if dx * dx + dy * dy <? 100 then
        match rest with
        | q :: _ => (q, rest)
        | [] => (p, rest)
        end
      else (p, path)
  | [] => (fallback, path)
  end.

(** The unit vector from the entity to the point it steers to. *)
Definition unitTo (transform : TransformComponent) (target : float * float)
  : float * float :=
  let dx := target.1 - tX transform in
  let dy := target.2 - tY transform in
  let dist := PrimFloat.sqrt (dx * dx + dy * dy) in
  if dist >? 0 then (dx / dist, dy / dist) else (dx, dy).

(** "Apply Movement Inputs" of the chase: the dominant axis always, the
    other axis past 0.5. *)
Definition steerChase (input : InputComponent) (d : float * float)
  : InputComponent :=
  let '(dx, dy) := d in
  if abs dx >? abs dy then
    let input := if dx >? 0 then setRight input else setLeft input in
    if dy >? 0.5 then setDown input
    else if dy <? -0.5 then setUp input
    else input
  else
    let input := if dy >? 0 then setDown input else setUp input in
    if dx >? 0.5 then setRight input
    else if dx <? -0.5 then setLeft input
    else input.

(** "Move Logic" of the return: the dominant axis only. *)
Definition steerReturn (input : InputComponent) (d : float * float)
  : InputComponent :=
  let '(dx, dy) := d in
  if abs dx >? abs dy then
    if dx >? 0 then setRight input else setLeft input
  else
    if dy >? 0 then setDown input else setUp input.

(** How the body of the loop of [Update] ends for one entity. *)
Inductive Flow :=
| Continue   (* the loop goes on with the next entity *)
| Return.    (* [return]: [Update] ends *)

(** "Save components back". *)
Definition save (id : Entity) (ai : AIComponent) (input : InputComponent)
  (w : World) : World :=
  AddComponent id input (AddComponent id ai w).

(** The chase of a target that is out of reach. [None]: [FindPath]
    panicked. *)
Definition chase (currentMap : world.Map) (dt : float) (hasLOS : bool)
  (self target : float * float) (targetTrans transform : TransformComponent)
  (ai : AIComponent) (input : InputComponent)
  : option (AIComponent * InputComponent) :=
  let ai := setState ai "chase" in
  let ai := setPathTimer ai (PathTimer ai - dt) in
  let direct := (tX targetTrans, tY targetTrans) in
  let planned :=
    if hasLOS then Some (direct, setPath ai [])
    else
      let replanned :=
        if (PathTimer ai <=? 0) || bool_decide (length (Path ai) = 0%nat) then
          match FindPath currentMap self.1 self.2 target.1 target.2 with
          | Some p => Some (setPathTimer (setPath ai p) 0.5)
          | None => None
          end
        else Some ai in
      match replanned with
      | Some ai =>
          let '(moveTarget, rest) := followPath (Path ai) transform direct in
          Some (moveTarget, setPath ai rest)
      | None => None
      end in
  match planned with
  | Some (moveTarget, ai) =>
      Some (ai, steerChase input (unitTo transform moveTarget))
  | None => None
  end.

(** "RETURNING HOME". *)
Definition returning (currentMap : world.Map) (dt : float)
  (transform : TransformComponent) (ai : AIComponent)
  (input : InputComponent) : option (AIComponent * InputComponent) :=
  let dx := SpawnX ai - tX transform in
  let dy := SpawnY ai - tY transform in
  let distSq := dx * dx + dy * dy in
  if distSq <? 50 * 50 then
    Some (setStateTimer (setState ai "wander") 2, input)
  else
    let ai := setPathTimer ai (PathTimer ai - dt) in
    let replanned :=
      if (PathTimer ai <=? 0) || bool_decide (length (Path ai) = 0%nat) then
        match FindPath currentMap (tX transform) (tY transform)
                (SpawnX ai) (SpawnY ai) with
        | Some p => Some (setPathTimer (setPath ai p) 1)
        | None => None
        end
      else Some ai in
    match replanned with
    | Some ai =>
        let '(moveTarget, rest) :=
          followPath (Path ai) transform (SpawnX ai, SpawnY ai) in
        Some (setPath ai rest, steerReturn input (unitTo transform moveTarget))
    | None => None
    end.

(** The branch for an entity that holds a target. *)
Definition engaged (currentMap : world.Map) (dt : float) (id : Entity) (transform : TransformComponent)
  (ai : AIComponent) (input : InputComponent) (w : World)
  : option (World * Flow) :=
  match GetComponent TransformComponent w (TargetID ai) with
  | Some targetTrans =>
      if (tZ targetTrans =? tZ transform)%Z then
        let self := getEntityCenter w id in
        let target := getEntityCenter w (TargetID ai) in
        let dx := target.1 - self.1 in
        let dy := target.2 - self.2 in
        let dist := PrimFloat.sqrt (dx * dx + dy * dy) in
        let input := setMouse input target.1 target.2 in
        let hasLOS :=
          HasLineOfSight currentMap self.1 self.2 target.1 target.2 in
        let '(attackRange, ranged) := attackRangeOf w id in
        let canAttack := (dist <=? attackRange) && negb (ranged && negb hasLOS) in
        if beyondLeash transform ai then
          let ai := setPath (setTargetID (setState ai "return") 0%N) [] in
          Some (save id ai input w, Return)
        else if canAttack then
          Some (save id (setState ai "attack") (setAttack input true) w,
                Continue)
        else
          match chase currentMap dt hasLOS self target targetTrans transform
                  ai input with
          | Some (ai, input) => Some (save id ai input w, Continue)
          | None => None
          end
      else
        Some (save id (setState (setTargetID ai 0%N) "wander") input w,
              Continue)
  | None =>
      Some (save id (setState (setTargetID ai 0%N) "wander") input w, Continue)
  end.

(** "Wander Logic", with its leash check. *)
Definition wander (dt : float) (transform : TransformComponent)
  (ai : AIComponent) (input : InputComponent) (r : Rng)
  : AIComponent * InputComponent * Rng :=
  if beyondLeash transform ai then
    (setPath (setTargetID (setState ai "return") 0%N) [], input, r)
  else
    let ai := setStateTimer ai (StateTimer ai - dt) in
    let '(ai, r) :=
      if StateTimer ai <=? 0 then pickNewState ai r else (ai, r) in
    (ai, applyWanderState ai input transform, r).

Record AISystem := mkAISystem
  { aWorld : World; aMaps : gmap Z world.Map; rng : Rng }.

(** The body of the loop of [Update] for the entity [id]. [None]: the
    tick panicked. *)
Definition updateEntity (dt : float) (id : Entity) (s : AISystem)
  : option (AISystem * Flow) :=
  let w := aWorld s in
  match GetComponent AIComponent w id, GetComponent InputComponent w id,
        GetComponent TransformComponent w id with
  | Some ai, Some input, Some transform =>
      match aMaps s !! tZ transform with
      | None => Some (s, Continue)
      | Some currentMap =>
          let input := setAttack (setMoves input false false false false)
                         false in
          if negb (TargetID ai =? 0)%N then
            match engaged currentMap dt id transform ai input w with
            | Some (w', flow) => Some (mkAISystem w' (aMaps s) (rng s), flow)
            | None => None
            end
          else if String.eqb (State ai) "return" then
            match returning currentMap dt transform ai input with
            | Some (ai, input) =>
                Some (mkAISystem (save id ai input w) (aMaps s) (rng s),
                      Continue)
            | None => None
            end
          else
            let '(ai, input, r) := wander dt transform ai input (rng s) in
            Some (mkAISystem (save id ai input w) (aMaps s) r, Continue)
      end
  | _, _, _ => Some (s, Continue)
  end.

(** [Update]: the loop over the entities that hold an AI component, in
    query order. *)
Fixpoint UpdateOver (entities : list Entity) (dt : float) (s : AISystem)
  : option AISystem :=
  match entities with
  | [] => Some s
  | id :: rest =>
      match updateEntity dt id s with
      | None => None
      | Some (s', Return) => Some s'
      | Some (s', Continue) => UpdateOver rest dt s'
      end
  end.

Definition Update (dt : float) (s : AISystem) : option AISystem :=
  UpdateOver (Query AIComponent (aWorld s)) dt s.

End ai.

(** ** package items: inventories *)

Module inventory.
Import components.
Local Open Scope Z_scope.

(** The memory behind the inventories: the backing array of each slice. *)
Abbreviation Heap := (gmap loc (list InventorySlot)).

(** [inv.Slots], read through the slice. *)
Definition slotsOf (h : Heap) (inv : InventoryComponent)
  : list InventorySlot := default [] (h !! Slots inv).

(** [inv.Slots[i] = s], written through the slice: every copy of the
    component sees it. *)
Definition writeSlot (h : Heap) (inv : InventoryComponent) (i : nat)
  (s : InventorySlot) : Heap :=
  <[Slots inv := <[i := s]> (slotsOf h inv)]> h.

(** [NewInventory]: a fresh array of [capacity] empty slots at [l]. *)
Definition NewInventory (l : loc) (capacity : Z) (h : Heap)
  : InventoryComponent * Heap :=
  (mkInventory l capacity,
   <[l := replicate (Z.to_nat capacity) (mkSlot "" 0)]> h).

(** The index of the first slot that satisfies [p]. *)
Fixpoint findSlot (p : InventorySlot -> bool) (l : list InventorySlot)
  (i : nat) : option nat :=
  match l with
  | [] => None
  | s :: l' => if p s then Some i else findSlot p l' (S i)
  end.

(** [AddItem]: stack on the first slot that holds the item, else take the
    first empty slot.  The result is the memory and whether an error was
    returned. *)
Definition AddItem (inv : InventoryComponent) (itemID : string)
  (quantity : Z) (h : Heap) : Heap * bool :=
  match items.Get itemID with
  | None => (h, true)
  | Some _ =>
      let slots := slotsOf h inv in
      match findSlot (fun s => String.eqb (ItemID s) itemID) slots 0 with
      | Some i =>
          let s := default (mkSlot "" 0) (slots !! i) in
          (writeSlot h inv i (mkSlot (ItemID s) (int64 (Quantity s + quantity))),
           false)
      | None =>
          match findSlot (fun s => String.eqb (ItemID s) "" || (Quantity s =? 0))
                  slots 0 with
          | Some i => (writeSlot h inv i (mkSlot itemID quantity), false)
          | None => (h, true)
          end
      end
  end.

(** [RemoveItem]: take [quantity] out of a slot; a slot left with nothing
    is cleared. *)
Definition RemoveItem (inv : InventoryComponent) (slotIndex quantity : Z)
  (h : Heap) : Heap * bool :=
  let slots := slotsOf h inv in
  if (slotIndex <? 0) || (Z.of_nat (length slots) <=? slotIndex) then (h, true)
  else
    let i := Z.to_nat slotIndex in
    let slot := default (mkSlot "" 0) (slots !! i) in
    if Quantity slot <? quantity then (h, true)
    else
      let q := int64 (Quantity slot - quantity) in
      if q <=? 0 then (writeSlot h inv i (mkSlot "" 0), false)
      else (writeSlot h inv i (mkSlot (ItemID slot) q), false).

(** [SwapItems]: both right-hand sides are read before the two writes. *)
Definition SwapItems (inv : InventoryComponent) (slotA slotB : Z) (h : Heap)
  : Heap * bool :=
  let slots := slotsOf h inv in
  let n := Z.of_nat (length slots) in
  if (slotA <? 0) || (n <=? slotA) || (slotB <? 0) || (n <=? slotB)
  then (h, true)
  else
    let a := default (mkSlot "" 0) (slots !! Z.to_nat slotA) in
    let b := default (mkSlot "" 0) (slots !! Z.to_nat slotB) in
    (writeSlot (writeSlot h inv (Z.to_nat slotA) b) inv (Z.to_nat slotB) a,
     false).

(** [GetSlot]: the slot and whether an error was returned. *)
Definition GetSlot (inv : InventoryComponent) (slotIndex : Z) (h : Heap)
  : InventorySlot * bool :=
  let slots := slotsOf h inv in
  if (slotIndex <? 0) || (Z.of_nat (length slots) <=? slotIndex)
  then (mkSlot "" 0, true)
  else (default (mkSlot "" 0) (slots !! Z.to_nat slotIndex), false).

End inventory.

(** ** package characters: the blueprints of the NPCs *)

Module characters.
Import components.

Record CharacterDefinition := mkCharacter
  { cID : string;
    cName : string;
    SpriteWidth : float; SpriteHeight : float;
    cColor : RGBA;
    AIType : string;
    cFaction : Z;
    cIsAggressive : bool;
    cMaxHealth : float;
    cSpeed : float;
    WeaponID : string }.

(** The registry after the [init] function of the package has run. *)
Definition Registry : list CharacterDefinition :=
  [ mkCharacter "guard_melee" "City Guard" 32 32 (mkRGBA 255 255 0 255)
      "guard" 1 true 50 1 "sword_starter";
    mkCharacter "guard_ranged" "City Archer" 32 32 (mkRGBA 0 0 255 255)
      "guard" 1 true 40 1 "bow_starter" ].

Definition Get (id : string) : option CharacterDefinition :=
  List.find (fun c => String.eqb (cID c) id) Registry.

End characters.

(** ** package protocol: the requests of a client *)

Module protocol.

Record InventoryActionPacket := mkInventoryAction
  { ActionType : string; SlotA : Z; SlotB : Z }.

Record EquipmentActionPacket := mkEquipmentAction
  { Action : string; Slot : Z; InvSlot : Z }.

End protocol.

(** ** package storage: what is saved of a player *)

Module storage.

Record InventorySlotSave := mkSlotSave
  { Index : Z; ItemID : string; Quantity : Z }.

(** [PlayerSaveData], the fields the login builds the modelled components
    from; [Equipment] is the array [[9]EquipmentSlotSave], each slot its
    [ItemID]. *)
Record PlayerSaveData := mkSave
  { Username : string;
    Password : string;
    X : float;
    Y : float;
    Health : float;
    Inventory : list InventorySlotSave;
    Equipment : list string;
    UnlockedSpells : list string }.

End storage.

(** ** package server: the game server *)

Module server.
Import components ecs inventory.
Local Open Scope float_scope.

Record Player := mkPlayer { Username : string; PrevInput : InputComponent }.

(** [GameServer], with the memory its inventories live in. *)
Record GameServer := mkServer
  { World_ : World;
    Players : gmap Entity Player;
    Maps : gmap Z world.Map;
    heap : Heap }.

Definition withWorld (s : GameServer) (w : World) : GameServer :=
  mkServer w (Players s) (Maps s) (heap s).
Definition withHeap (s : GameServer) (h : Heap) : GameServer :=
  mkServer (World_ s) (Players s) (Maps s) h.

Definition rectOverlap (x1 y1 w1 h1 x2 y2 w2 h2 : float) : bool :=
  (x1 <? x2 + w2) && (x1 + w1 >? x2) && (y1 <? y2 + h2) && (y1 + h1 >? y2).

(** *** Spells *)

(** [handleSpellCast]; [now] is the clock reading of the call. *)
Definition handleSpellCast (id : Entity) (spellID : string)
  (targetX targetY : float) (now : float) (w : World) : World :=
  match GetComponent SpellbookComponent w id with
  | None => w
  | Some spellbook =>
      if negb (existsb (String.eqb spellID) (UnlockedSpells spellbook)) then w
      else
        let lastCast := default 0 (Cooldowns spellbook !! spellID) in
        match SpellRegistry spellID with
        | None => w
        | Some spellDef =>
            if now - lastCast <? spCooldown spellDef then w
            else
              let spellbook :=
                mkSpellbook (UnlockedSpells spellbook)
                  (<[spellID := now]> (Cooldowns spellbook)) in
              let w := AddComponent id spellbook w in
              match GetComponent TransformComponent w id with
              | None => w
              | Some transform =>
                  if String.eqb spellID "fireball" then
                    let '(proj, w) := NewEntity w in
                    let '(dirX, dirY) :=
                      Direction (tX transform) (tY transform) targetX targetY in
                    let speed := 12 in
                    let spawnX := tX transform + dirX * 20 in
                    let spawnY := tY transform + dirY * 20 in
                    let w := AddComponent proj (mkTransform spawnX spawnY 0 0) w in
                    let w := AddComponent proj
                               (mkPhysics (dirX * speed) (dirY * speed) 0 0 speed)
                               w in
                    let w := AddComponent proj
                               (mkSprite (spColor spellDef) 12 12) w in
                    AddComponent proj (mkProjectile id 25 60) w
                  else if String.eqb spellID "heal" then
                    match GetComponent StatsComponent w id with
                    | Some stats =>
                        let h := CurrentHealth stats + 20 in
                        let h := if h >? MaxHealth stats then MaxHealth stats
                                 else h in
                        AddComponent id (setHealth stats h) w
                    | None => w
                    end
                  else if String.eqb spellID "blink" then
                    let '(dirX, dirY) :=
                      Direction (tX transform) (tY transform) targetX targetY in
                    AddComponent id
                      (setXY transform (tX transform + dirX * 100)
                         (tY transform + dirY * 100)) w
                  else w
              end
        end
  end.

(** *** Attacks *)

(** "Fetch Dynamic Stats from Equipment": the stats of the weapon in the
    weapon slot, if any. *)
Definition weaponOf (w : World) (id : Entity) : option AttackComponent :=
  match GetComponent EquipmentComponent w id with
  | Some equip =>
      let weaponID := equipSlot equip SlotWeapon in
      if negb (String.eqb weaponID "") then
        match items.Get weaponID with
        | Some def => items.WeaponStats def
        | None => None
        end
      else None
  | None => None
  end.

(** "Spawn Projectile from Dynamic Center": the arrow of a ranged attack or
    the slash of a melee attack. *)
Definition spawnAttack (id : Entity) (input : InputComponent)
  (transform : TransformComponent) (weapon : AttackComponent) (w : World)
  : World :=
  let '(width, height) :=
    match GetComponent SpriteComponent w id with
    | Some sprite => (sWidth sprite, sHeight sprite)
    | None => (32, 32)
    end in
  let startX := tX transform + width / 2 in
  let startY := tY transform + height / 2 in
  match aType weapon with
  | AttackTypeRanged =>
      let '(proj, w) := NewEntity w in
      let '(dirX, dirY) :=
        Direction startX startY (MouseX input) (MouseY input) in
      let speed := 10 in
      let lifetime := aRange weapon / speed in
      let spawnX := startX + dirX * 16 in
      let spawnY := startY + dirY * 16 in
      let w := AddComponent proj (mkTransform spawnX spawnY 0 0) w in
      let w := AddComponent proj
                 (mkPhysics (dirX * speed) (dirY * speed) 0 0 speed) w in
      let w := AddComponent proj (mkSprite (mkRGBA 255 255 0 255) 8 8) w in
      AddComponent proj (mkProjectile id (aDamage weapon) lifetime) w
  | AttackTypeMelee =>
      let '(slash, w) := NewEntity w in
      let '(dirX, dirY) :=
        Direction (tX transform) (tY transform) (MouseX input) (MouseY input) in
      let offsetX := dirX * 30 in
      let offsetY := dirY * 30 in
      let w := AddComponent slash
                 (mkTransform (tX transform + offsetX) (tY transform + offsetY)
                    0 0) w in
      let w := AddComponent slash (mkSprite (mkRGBA 255 0 0 255) 40 40) w in
      AddComponent slash (mkProjectile id (aDamage weapon) 15) w
  end.

(** [HandleAttack]; [now] is [time.Now()] in seconds. *)
Definition HandleAttack (id : Entity) (now : float) (s : GameServer)
  : GameServer :=
  let w := World_ s in
  match GetComponent InputComponent w id with
  | None => s
  | Some input =>
      if negb (Attack input) then s
      else if match Players s !! id with
              | Some player => Attack (PrevInput player)
              | None => false
              end
      then s
      else if negb (String.eqb (ActiveSpell input) "") then
        withWorld s
          (handleSpellCast id (ActiveSpell input) (MouseX input)
             (MouseY input) now w)
      else
        match weaponOf w id with
        | None => s
        | Some weapon =>
            let attackComp :=
              default (mkAttack 0 0 0 0 AttackTypeMelee)
                (GetComponent AttackComponent w id) in
            if now - LastAttackTime attackComp <? Cooldown weapon then s
            else
              match GetComponent TransformComponent w id with
              | None => s
              | Some transform =>
                  let attackComp :=
                    mkAttack (aDamage attackComp) (aRange attackComp)
                      (Cooldown attackComp) now (aType attackComp) in
                  let w := AddComponent id attackComp w in
                  withWorld s (spawnAttack id input transform weapon w)
              end
        end
  end.

(** The loop of [Update] that records the input of every player as its
    previous input. *)
Definition recordPrevInputs (s : GameServer) : GameServer :=
  mkServer (World_ s)
    (map_imap (fun id player =>
                 match GetComponent InputComponent (World_ s) id with
                 | Some input => Some (mkPlayer (Username player) input)
                 | None => Some player
                 end) (Players s))
    (Maps s) (heap s).

(** "Handle Attacks for ALL entities with Input", in query order; the
    clock is read once per call. *)
Fixpoint handleAttacks (inputs : list Entity) (clock : Entity -> float)
  (s : GameServer) : GameServer :=
  match inputs with
  | [] => s
  | id :: rest => handleAttacks rest clock (HandleAttack id (clock id) s)
  end.

(** The attack part of one tick of [Update]. *)
Definition attackPhase (inputs : list Entity) (clock : Entity -> float)
  (s : GameServer) : GameServer :=
  recordPrevInputs (handleAttacks inputs clock s).

(** *** Projectiles, death and respawn *)

(** "Despawn (Remove components)". *)
Definition despawn (tid : Entity) (w : World) : World :=
  let w := RemoveComponent SpriteComponent tid w in
  let w := RemoveComponent PhysicsComponent tid w in
  let w := RemoveComponent AIComponent tid w in
  let w := RemoveComponent InputComponent tid w in
  let w := RemoveComponent StatsComponent tid w in
  RemoveComponent TransformComponent tid w.

(** "Check Death" and the aggro logic, after the health of [tid] was
    lowered to [health]. *)
Definition afterHit (owner tid : Entity) (health : float) (w : World)
  : World :=
  if health <=? 0 then
    match GetComponent RespawnComponent w tid with
    | Some respawn =>
        let respawn := mkRespawn (rSpawnX respawn) (rSpawnY respawn) 30 true in
        despawn tid (AddComponent tid respawn w)
    | None => w
    end
  else
    match GetComponent AIComponent w tid with
    | Some ai =>
        if (TargetID ai =? 0)%N then
          AddComponent tid (setState (setTargetID ai owner) "chase") w
        else w
    | None => w
    end.

(** "HIT!": damage, clamped at zero, then death or aggro. *)
Definition applyHit (proj : ProjectileComponent) (tid : Entity)
  (targetStats : StatsComponent) (w : World) : World :=
  let h := CurrentHealth targetStats - pDamage proj in
  let h := if h <? 0 then 0 else h in
  let w := AddComponent tid (setHealth targetStats h) w in
  afterHit (OwnerID proj) tid h w.

(** The body of the scan of [UpdateProjectile] for one target. [None]:
    the loop goes on; [Some None]: the body dereferences nil stats;
    [Some (Some w)]: the projectile hit [tid] and the function returned. *)
Definition hitTarget (pid : Entity) (proj : ProjectileComponent)
  (transform : TransformComponent) (w : World) (tid : Entity)
  : option (option World) :=
  if (tid =? OwnerID proj)%N then None
  else
    match GetComponent TransformComponent w tid,
          GetComponent SpriteComponent w tid with
    | Some targetTrans, Some targetSprite =>
        if rectOverlap (tX transform) (tY transform) 10 10
             (tX targetTrans) (tY targetTrans)
             (sWidth targetSprite) (sHeight targetSprite)
        then
          match GetComponent StatsComponent w tid with
          | Some targetStats =>
              Some (Some (RemoveEntity pid (applyHit proj tid targetStats w)))
          | None => Some None
          end
        else None
    | _, _ => None
    end.

(** Does the terrain under the centre of the projectile stop it. *)
Definition terrainBlocks (maps : gmap Z world.Map)
  (transform : TransformComponent) : bool :=
  let cx := tX transform + 4 in
  let cy := tY transform + 4 in
  let tx := F64.to_int (cx / 32) in
  let ty := F64.to_int (cy / 32) in
  match maps !! tZ transform with
  | Some m =>
      world.inBounds m tx ty
      && ((world.Type_ (world.tileAt m tx ty) =? world.TileTree)%Z
          || (world.objectAt m tx ty >? 0)%Z)
  | None => false
  end.

(** The projectile after "advance position" and "decrement lifetime". *)
Definition advance (transform : TransformComponent)
  (proj : ProjectileComponent) (phys : option PhysicsComponent)
  : TransformComponent * ProjectileComponent :=
  let transform :=
    match phys with
    | Some phys =>
        setXY transform (tX transform + VelX phys) (tY transform + VelY phys)
    | None => transform
    end in
  (transform, mkProjectile (OwnerID proj) (pDamage proj) (Lifetime proj - 1)).

(** [UpdateProjectile].  [targets] stands for the order in which
    [Query[StatsComponent]] lists the entities holding Stats once the
    projectile has moved. [None]: the tick panicked. *)
Definition UpdateProjectileOver (targets : list Entity) (pid : Entity)
  (s : GameServer) : option GameServer :=
  let w := World_ s in
  match GetComponent TransformComponent w pid,
        GetComponent ProjectileComponent w pid with
  | Some transform, Some proj =>
      let '(transform, proj) :=
        advance transform proj (GetComponent PhysicsComponent w pid) in
      if Lifetime proj <=? 0 then Some (withWorld s (RemoveEntity pid w))
      else
        let w := AddComponent pid proj (AddComponent pid transform w) in
        if terrainBlocks (Maps s) transform
        then Some (withWorld s (RemoveEntity pid w))
        else
          match forReturn targets (hitTarget pid proj transform w) with
          | Some (Some w') => Some (withWorld s w')
          | Some None => None
          | None => Some (withWorld s w)
          end
  | _, _ => Some s
  end.

(** [UpdateProjectile]: the scan runs over [Query[StatsComponent]] (the
    writes before it do not touch the Stats table). *)
Definition UpdateProjectile (pid : Entity) (s : GameServer)
  : option GameServer :=
  UpdateProjectileOver (Query StatsComponent (World_ s)) pid s.

(** The body of the loop of [UpdateRespawn] for one entity. *)
Definition respawnEntity (dt : float) (id : Entity) (w : World) : World :=
  match GetComponent RespawnComponent w id with
  | None => w
  | Some respawn =>
      if negb (IsDead respawn) then w
      else
        let timer := RespawnTimer respawn - dt in
        if timer <=? 0 then
          let respawn :=
            mkRespawn (rSpawnX respawn) (rSpawnY respawn) timer false in
          let w := AddComponent id respawn w in
          let w := AddComponent id
                     (mkTransform (rSpawnX respawn) (rSpawnY respawn) 0 0) w in
          let w := AddComponent id (mkPhysics 0 0 0 0 6) w in
          let w := AddComponent id (mkSprite (mkRGBA 255 255 0 255) 32 32) w in
          let w := AddComponent id (mkStats 50 50 0) w in
          let w := AddComponent id zeroInput w in
          AddComponent id
            (mkAI "wander" "wander" 1 0 0%N true 1 [] 0
               (rSpawnX respawn) (rSpawnY respawn) 600) w
        else
          AddComponent id
            (mkRespawn (rSpawnX respawn) (rSpawnY respawn) timer true) w
  end.

(** [UpdateRespawn], over the entities holding Respawn in query order. *)
Definition UpdateRespawnOver (respawners : list Entity) (dt : float)
  (w : World) : World :=
  foldl (fun w id => respawnEntity dt id w) w respawners.

Definition UpdateRespawn (dt : float) (w : World) : World :=
  UpdateRespawnOver (Query RespawnComponent w) dt w.

(** *** Equipping *)

(** [equipItemInternal].  The inventory is changed through its slice, so
    every write reaches the stored component at once; the equipment is
    changed on the local copy and stored by the final [AddComponent].
    ([equipSlot_] equals the slot of a registered item when the equipment
    array is indexed, so the index is below 9.) *)
Definition equipItemInternal (id : Entity) (invSlot equipSlot_ : Z)
  (s : GameServer) : GameServer :=
  match GetComponent EquipmentComponent (World_ s) id,
        GetComponent InventoryComponent (World_ s) id with
  | Some equip, Some inv =>
      let slots := slotsOf (heap s) inv in
      if (invSlot <? 0)%Z || (Z.of_nat (length slots) <=? invSlot)%Z then s
      else
        let i := Z.to_nat invSlot in
        let slot := default (mkSlot "" 0) (slots !! i) in
        let itemID := ItemID slot in
        if String.eqb itemID "" then s
        else
          match items.Get itemID with
          | None => s
          | Some def =>
              if (items.EquipmentSlot def =? -1)%Z then s
              else if negb (items.EquipmentSlot def =? equipSlot_)%Z then s
              else
                (* 1. Take from Inventory *)
                let q := int64 (Quantity slot - 1) in
                let taken :=
                  if (q <=? 0)%Z then mkSlot "" 0 else mkSlot itemID q in
                let h := writeSlot (heap s) inv i taken in
                (* 2. Swap the Equipment Slot *)
                let oldItem := equipSlot equip equipSlot_ in
                let equip' := setEquipSlot equip equipSlot_ itemID in
                let stored h :=
                  mkServer
                    (AddComponent id inv (AddComponent id equip' (World_ s)))
                    (Players s) (Maps s) h in
                (* 3. Return old item to inventory *)
                if negb (String.eqb oldItem "") then
                  if String.eqb (ItemID taken) "" then
                    stored (writeSlot h inv i (mkSlot oldItem 1))
                  else
                    let '(h1, err) := AddItem inv oldItem 1 h in
                    if err then
                      (* Revert *)
                      let '(h2, _) := AddItem inv itemID 1 h1 in
                      withHeap s h2
                    else stored h1
                else stored h
          end
  | _, _ => s
  end.

(** What a client can observe of the inventory and the equipment of an
    entity: the slots and capacity of the one, the worn items of the
    other. *)
Definition inventoryView (s : GameServer) (id : Entity)
  : option (list InventorySlot * Z) :=
  match GetComponent InventoryComponent (World_ s) id with
  | Some inv => Some (slotsOf (heap s) inv, Capacity inv)
  | None => None
  end.

Definition equipmentView (s : GameServer) (id : Entity)
  : option EquipmentComponent :=
  GetComponent EquipmentComponent (World_ s) id.

(** *** Inventory and equipment requests *)

(** The component writes that end a request: the equipment and the
    inventory header are stored again, the slots live in [h]. *)
Definition storeBoth (id : Entity) (equip : EquipmentComponent)
  (inv : InventoryComponent) (h : Heap) (s : GameServer) : GameServer :=
  mkServer (AddComponent id inv (AddComponent id equip (World_ s)))
    (Players s) (Maps s) h.

(** [HandleEquipmentAction]: "Equip" is [equipItemInternal]; "Unequip"
    moves the worn item into the inventory when [AddItem] finds room for
    it. *)
Definition HandleEquipmentAction (id : Entity)
  (action : protocol.EquipmentActionPacket) (s : GameServer) : GameServer :=
  if String.eqb (protocol.Action action) "Equip" then
    equipItemInternal id (protocol.InvSlot action) (protocol.Slot action) s
  else if String.eqb (protocol.Action action) "Unequip" then
    match GetComponent EquipmentComponent (World_ s) id,
          GetComponent InventoryComponent (World_ s) id with
    | Some equip, Some inv =>
        if (protocol.Slot action <? 0)%Z || (9 <=? protocol.Slot action)%Z
        then s
        else
          let itemID := equipSlot equip (protocol.Slot action) in
          if String.eqb itemID "" then s
          else
            let '(h, err) := AddItem inv itemID 1 (heap s) in
            let equip :=
              if err then equip
              else setEquipSlot equip (protocol.Slot action) "" in
            storeBoth id equip inv h s
    | _, _ => s
    end
  else s.

(** [toggleEquipItem]: an item that is worn goes back to the inventory, an
    item that is carried is equipped in the slot of its definition. *)
Definition toggleEquipItem (id : Entity) (itemID : string) (s : GameServer)
  : GameServer :=
  match GetComponent EquipmentComponent (World_ s) id,
        GetComponent InventoryComponent (World_ s) id with
  | Some equip, Some inv =>
      match list_find (fun worn => worn = itemID) (eSlots equip) with
      | Some (foundSlot, _) =>
          let '(h, err) := AddItem inv itemID 1 (heap s) in
          let equip :=
            if err then equip
            else setEquipSlot equip (Z.of_nat foundSlot) "" in
          storeBoth id equip inv h s
      | None =>
          match findSlot (fun slot => String.eqb (ItemID slot) itemID)
                  (slotsOf (heap s) inv) 0 with
          | Some invSlot =>
              match items.Get itemID with
              | Some def =>
                  if (items.EquipmentSlot def =? -1)%Z then s
                  else equipItemInternal id (Z.of_nat invSlot)
                         (items.EquipmentSlot def) s
              | None => s
              end
          | None => s
          end
      end
  | _, _ => s
  end.

(** [HandleInventoryAction]: "Swap", "Drop" and "Primary"; every branch
    but a "Primary" that equips ends by storing the inventory header
    again. *)
Definition HandleInventoryAction (id : Entity)
  (action : protocol.InventoryActionPacket) (s : GameServer) : GameServer :=
  match GetComponent InventoryComponent (World_ s) id with
  | None => s
  | Some inv =>
      let slots := slotsOf (heap s) inv in
      let slotA := protocol.SlotA action in
      let inRange :=
        (0 <=? slotA)%Z && (slotA <? Z.of_nat (length slots))%Z in
      let stored h :=
        mkServer (AddComponent id inv (World_ s)) (Players s) (Maps s) h in
      if String.eqb (protocol.ActionType action) "Swap" then
        stored (SwapItems inv slotA (protocol.SlotB action) (heap s)).1
      else if String.eqb (protocol.ActionType action) "Drop" then
        if inRange
        then stored (writeSlot (heap s) inv (Z.to_nat slotA) (mkSlot "" 0))
        else stored (heap s)
      else if String.eqb (protocol.ActionType action) "Primary" then
        if inRange then
          let itemID :=
            ItemID (default (mkSlot "" 0) (slots !! Z.to_nat slotA)) in
          if negb (String.eqb itemID "") then
            match items.Get itemID with
            | Some def =>
                if negb (items.EquipmentSlot def =? -1)%Z
                then equipItemInternal id slotA (items.EquipmentSlot def) s
                else stored (heap s)
            | None => stored (heap s)
            end
          else stored (heap s)
        else stored (heap s)
      else stored (heap s)
  end.

(** *** Entities coming and going *)

(** [SpawnCharacter]: an NPC built from its blueprint; an unknown
    blueprint spawns nothing. *)
Definition SpawnCharacter (x y : float) (charID : string) (s : GameServer)
  : GameServer :=
  match characters.Get charID with
  | None => s
  | Some def =>
      let '(npc, w) := NewEntity (World_ s) in
      let w := AddComponent npc (mkTransform x y 0 0) w in
      let w := AddComponent npc (mkPhysics 0 0 0 0 (characters.cSpeed def)) w in
      let w := AddComponent npc
                 (mkSprite (characters.cColor def)
                    (characters.SpriteWidth def)
                    (characters.SpriteHeight def)) w in
      let w := AddComponent npc
                 (mkStats (characters.cMaxHealth def)
                    (characters.cMaxHealth def) 0) w in
      let w := AddComponent npc zeroInput w in
      let w := AddComponent npc
                 (mkAI "" "wander" 0 0 0%N (characters.cIsAggressive def)
                    (characters.cFaction def) [] 0 x y 600) w in
      let w :=
        if negb (String.eqb (characters.WeaponID def) "") then
          AddComponent npc
            (setEquipSlot emptyEquipment SlotWeapon (characters.WeaponID def))
            w
        else w in
      withWorld s (AddComponent npc (mkRespawn x y 0 false) w)
  end.

(** The loop of the login over [saved.Inventory]: a slot with an index
    below 25 is written into the new inventory. *)
Definition loadSlot (inv : InventoryComponent) (h : Heap)
  (slot : storage.InventorySlotSave) : Heap :=
  if (0 <=? storage.Index slot)%Z && (storage.Index slot <? 25)%Z then
    writeSlot h inv (Z.to_nat (storage.Index slot))
      (mkSlot (storage.ItemID slot) (storage.Quantity slot))
  else h.

(** The loop of the login over [saved.Equipment], from index [i] on. *)
Fixpoint loadEquipment (i : Z) (saved : list string)
  (equip : EquipmentComponent) : EquipmentComponent :=
  match saved with
  | [] => equip
  | item :: rest =>
      loadEquipment (i + 1) rest
        (if (i <? 9)%Z then setEquipSlot equip i item else equip)
  end.

(** The login branch of [HandleConnection], from the password check to the
    entry in [Players]: [saved] is what [storage.LoadPlayer] found, [l] the
    address of the array that [NewInventory] allocates.  (The Hotbar and
    UIState components and the key bindings are outside the modelled
    tables.) *)
Definition login (username password : string)
  (saved : option storage.PlayerSaveData) (l : loc) (s : GameServer)
  : GameServer :=
  match saved with
  | None => s
  | Some saved =>
      if negb (String.eqb (storage.Password saved) password) then s
      else
        let '(playerEntity, w) := NewEntity (World_ s) in
        let w := AddComponent playerEntity
                   (mkTransform (storage.X saved) (storage.Y saved) 0 0) w in
        let w := AddComponent playerEntity (mkPhysics 0 0 0 0 6) w in
        let w := AddComponent playerEntity
                   (mkSprite (mkRGBA 0 255 0 255) 32 32) w in
        let w := AddComponent playerEntity
                   (mkStats 100 (storage.Health saved) 0) w in
        let w := AddComponent playerEntity zeroInput w in
        let '(inv, h) := NewInventory l 25 (heap s) in
        let h :=
          if bool_decide (0 < length (storage.Inventory saved))%nat then
            foldl (loadSlot inv) h (storage.Inventory saved)
          else
            let h := (AddItem inv "sword_starter" 1 h).1 in
            let h := (AddItem inv "bow_starter" 1 h).1 in
            (AddItem inv "potion_red" 5 h).1 in
        let w := AddComponent playerEntity inv w in
        let w := AddComponent playerEntity
                   (loadEquipment 0 (storage.Equipment saved) emptyEquipment)
                   w in
        let w := AddComponent playerEntity
                   (mkSpellbook (storage.UnlockedSpells saved) ∅) w in
        mkServer w (<[playerEntity := mkPlayer username zeroInput]> (Players s))
          (Maps s) h
  end.

(** [RemovePlayer]: the player leaves the table of players and the
    world. *)
Definition RemovePlayer (id : Entity) (s : GameServer) : GameServer :=
  mkServer (RemoveEntity id (World_ s)) (delete id (Players s)) (Maps s)
    (heap s).

End server.

(** * Vocabulary of the properties, and example worlds *)

Section MapTerms.
Import world.

(** A grid of [h] rows of [w] cells. *)
Definition gridOf {A : Type} (w h : nat) (rows : list (list A)) : Prop :=
  length rows = h ∧ Forall (fun row => length row = w) rows.

(** The cells of a grid of [h] rows of [w] columns, row by row. *)
Definition cells (w h : nat) : list (nat * nat) :=
  y ← seq 0 h; (fun x => (y, x)) <$> seq 0 w.

End MapTerms.

Section SnapshotTerms.
Import components ecs network.

(** A world in which entity 1 holds a Sprite and nothing else. *)
Definition spriteOnly : World :=
  AddComponent 1%N (mkSprite (mkRGBA 0 255 0 255) 32 32) NewWorld.

(** A world with a player (1), a corpse that kept only its Sprite (2) and
    a bare Transform (3). *)
Definition snapshotWorld : World :=
  AddComponent 3%N (mkTransform 5 5 0 0)
    (AddComponent 2%N (mkSprite (mkRGBA 0 0 0 255) 32 32)
       (AddComponent 1%N (mkSprite (mkRGBA 0 255 0 255) 32 32)
          (AddComponent 1%N (mkTransform 100 100 0 0) NewWorld))).

End SnapshotTerms.

Section CollisionTerms.
Import components ecs movement.
Local Open Scope float_scope.

(** The tiles a probe box overlaps. *)
Definition probed (x y w h : float) (tx ty : Z) : Prop :=
  ty ∈ upTo (startT y) (endT y h) ∧ tx ∈ upTo (startT x) (endT x w).

(** What [collidesAtTile] tests at one tile of the map. *)
Definition tileFree (m : world.Map) (x y w h : float) (tx ty : Z) : Prop :=
  world.inBounds m tx ty = true ∧
  isTileSolid (world.tileAt m tx ty) tx ty x y w h = false ∧
  ((world.objectAt m tx ty >? 0)%Z = true ->
   rectOverlap x y w h
     (F64.of_int tx * tileSize + (tileSize - tileSize / 2) / 2)
     (F64.of_int ty * tileSize + (tileSize - tileSize / 2) / 2)
     (tileSize / 2) (tileSize / 2) = false).

(** No other solid entity stands in the box: every other entity that
    holds Physics and is no projectile has a Transform, and its collision
    box, if it is on level [z], does not overlap the box. *)
Definition entitiesClear (w : World) (selfID : Entity) (z : Z)
  (x y bw bh : float) : Prop :=
  ∀ other, is_Some (GetComponent PhysicsComponent w other) ->
    other ≠ selfID ->
    GetComponent ProjectileComponent w other = None ->
    ∃ ot, GetComponent TransformComponent w other = Some ot ∧
          (tZ ot = z ->
           rectOverlap x y bw bh (tX ot + boxOffset) (tY ot + boxOffset)
             boxSize boxSize = false).

(** The box of an entity placed at ([x],[y]) is free: the map and the
    other entities leave it room. *)
Definition boxFree (s : MovementSystem) (id : Entity) (z : Z) (x y : float)
  : Prop :=
  (∃ m, Maps s !! z = Some m ∧
        ∀ tx ty, probed (x + boxOffset) (y + boxOffset) boxSize boxSize tx ty ->
                 tileFree m (x + boxOffset) (y + boxOffset) boxSize boxSize
                   tx ty) ∧
  entitiesClear (mWorld s) id z (x + boxOffset) (y + boxOffset)
    boxSize boxSize.

(** No box of another entity is in the way: no other entity that is no
    projectile has, on level [z], a collision box that overlaps the
    box. *)
Definition othersClear (w : World) (selfID : Entity) (z : Z)
  (x y bw bh : float) : Prop :=
  ∀ other ot,
    other ≠ selfID ->
    GetComponent ProjectileComponent w other = None ->
    GetComponent TransformComponent w other = Some ot ->
    tZ ot = z ->
    rectOverlap x y bw bh (tX ot + boxOffset) (tY ot + boxOffset)
      boxSize boxSize = false.

(** The box of an entity placed at ([x],[y]) overlaps no solid tile, no
    object, nothing outside the grid, and no box of another non-projectile
    entity of the level. *)
Definition boxClear (s : MovementSystem) (id : Entity) (z : Z) (x y : float)
  : Prop :=
  (∃ m, Maps s !! z = Some m ∧
        ∀ tx ty, probed (x + boxOffset) (y + boxOffset) boxSize boxSize tx ty ->
                 tileFree m (x + boxOffset) (y + boxOffset) boxSize boxSize
                   tx ty) ∧
  othersClear (mWorld s) id z (x + boxOffset) (y + boxOffset)
    boxSize boxSize.

(** A tile kind that blocks the whole tile. *)
Definition fullTile (t : world.TileType) : bool :=
  world.IsSolid t &&
  negb (existsb (Z.eqb t)
          [world.TileWaterEdgeTop; world.TileWaterEdgeBottom;
           world.TileWaterEdgeLeft; world.TileWaterEdgeRight;
           world.TileWaterCornerTL; world.TileWaterCornerTR;
           world.TileWaterCornerBL; world.TileWaterCornerBR;
           world.TileTree]).

(** A float that is a number: finite, possibly zero. *)
Definition finite (s : float) : Prop :=
  match Prim2SF s with
  | S754_finite _ _ _ | S754_zero _ => True
  | _ => False
  end.

Definition notNegZero (y : float) : Prop := Prim2SF y ≠ S754_zero true.

End CollisionTerms.

Section MovementTerms.
Import components ecs movement.
Local Open Scope float_scope.

(** The displacement the input asks for this tick, per axis. *)
Definition moveOf (input : InputComponent) (phys : PhysicsComponent)
  : float * float :=
  let d := normalized (inputDir input) in
  (d.1 * moveSpeed input phys, d.2 * moveSpeed input phys).

(** The position an entity at [t] ends the tick at: first X, then Y from
    the X reached. *)
Definition resolveX (t : TransformComponent) (moveX : float) (bx : bool)
  : float :=
  if bx then tX t else tX t + moveX.
Definition resolveY (t : TransformComponent) (moveY : float) (by_ : bool)
  : float :=
  if by_ then tY t else tY t + moveY.

(** Every entity that holds Physics and is no projectile holds a
    Transform (the spawn, death and respawn code adds and removes the two
    together). *)
Definition bodiesPlaced (w : World) : Prop :=
  ∀ e, is_Some (GetComponent PhysicsComponent w e) ->
       GetComponent ProjectileComponent w e = None ->
       is_Some (GetComponent TransformComponent w e).

(** Every entity that holds a Transform and is no projectile holds
    Physics (the spawn, login, death and respawn code adds and removes the
    two together). *)
Definition bodiesSolid (w : World) : Prop :=
  ∀ e, is_Some (GetComponent TransformComponent w e) ->
       GetComponent ProjectileComponent w e = None ->
       is_Some (GetComponent PhysicsComponent w e).

End MovementTerms.

Section MovementWorlds.
Import components ecs movement.
Local Open Scope float_scope.

(** The world after [n] entities were created. *)
Definition afterEntities (n : nat) (w : World) : World :=
  Nat.iter n (fun w => (NewEntity w).2) w.

(** A stand-in for [math.Atan2]; the facing plays no part in what follows. *)
Definition noTurn (y x : float) : float := 0.

(** Four by three tiles of grass, with open water at column 2 of row 1. *)
Definition wallMap : world.Map :=
  let g := world.mkTile world.TileGrass in
  let o := world.mkTile world.TileWater in
  world.mkMap 0 4 3 [[g; g; g; g]; [g; g; o; g]; [g; g; g; g]]
    [[0; 0; 0; 0]; [0; 0; 0; 0]; [0; 0; 0; 0]]%Z [].

(** One entity, the first created, on tile (1,1), just left of the water,
    with the given input. *)
Definition wallSystem (input : InputComponent) : MovementSystem :=
  mkMovement
    (AddComponent 1%N input
       (AddComponent 1%N (mkPhysics 0 0 0 0 6)
          (AddComponent 1%N (mkTransform 32 32 0 0)
             (afterEntities 1 NewWorld))))
    {[ 0%Z := wallMap ]} ∅.

Definition pressRight : InputComponent := setRight zeroInput.
Definition pressRightDown : InputComponent := setDown (setRight zeroInput).

Definition afterTick (s : MovementSystem) : MovementSystem :=
  default s (UpdateEntityMovement noTurn 1%N 0.033 s).

End MovementWorlds.

Section ContainmentTerms.
Import components ecs movement.
Local Open Scope float_scope.

(** The collision box of an entity at [t] lies within the map grid: its
    level has a map and every tile the box overlaps is a tile of it. *)
Definition inGrid (maps : gmap Z world.Map) (t : TransformComponent) : Prop :=
  ∃ m, maps !! tZ t = Some m ∧
       ∀ tx ty,
         probed (tX t + boxOffset) (tY t + boxOffset) boxSize boxSize tx ty ->
         world.inBounds m tx ty = true.

(** A float that is no number of the line: a NaN or an infinity. *)
Definition notNumber (x : float) : Prop :=
  match Prim2SF x with
  | S754_nan | S754_infinity _ => True
  | _ => False
  end.

End ContainmentTerms.

Section ContainmentWorlds.
Import components ecs movement.
Local Open Scope float_scope.


(** An entity lost at a NaN abscissa, pressing down. *)
Definition lostSystem : MovementSystem :=
  mkMovement
    (AddComponent 1%N (setDown zeroInput)
       (AddComponent 1%N (mkPhysics 0 0 0 0 6)
          (AddComponent 1%N (mkTransform nan 32 0 0)
             (afterEntities 1 NewWorld))))
    {[ 0%Z := wallMap ]} ∅.

End ContainmentWorlds.

Section AITerms.
Import components ecs ai.
Local Open Scope float_scope.

(** The target of [a], if it has one, still stands on the level of the
    entity. *)
Definition targetStands (w : World) (transform : TransformComponent)
  (a : AIComponent) : Prop :=
  TargetID a = 0%N ∨
  ∃ tt, GetComponent TransformComponent w (TargetID a) = Some tt ∧
        tZ tt = tZ transform.

(** The AI component of [id] after the tick is in "return", without
    target and without path. *)
Definition sentHome (s : AISystem) (id : Entity) : Prop :=
  ∃ a, GetComponent AIComponent (aWorld s) id = Some a ∧
       State a = "return" ∧ TargetID a = 0%N ∧ Path a = [].

(** The entities handled before [id] in the order [l]. *)
Fixpoint handledBefore (id : Entity) (l : list Entity) : list Entity :=
  match l with
  | [] => []
  | e :: l' => if (e =? id)%N then [] else e :: handledBefore id l'
  end.

(** Does the evaluation of [e] end the tick: [e] is evaluated, holds a
    target that stands on its level, and is beyond its leash. *)
Definition endsTick (s : AISystem) (e : Entity) : bool :=
  match GetComponent AIComponent (aWorld s) e,
        GetComponent InputComponent (aWorld s) e,
        GetComponent TransformComponent (aWorld s) e with
  | Some a, Some _, Some t =>
      bool_decide (is_Some (aMaps s !! tZ t))
      && negb (TargetID a =? 0)%N
      && match GetComponent TransformComponent (aWorld s) (TargetID a) with
         | Some goal => (tZ goal =? tZ t)%Z && beyondLeash t a
         | None => false
         end
  | _, _, _ => false
  end.

(** The tick reaches [id]: the query lists it, and none of the entities
    listed before it ends the tick. *)
Definition reached (s : AISystem) (entities : list Entity) (id : Entity)
  : Prop :=
  id ∈ entities ∧
  ∀ e, e ∈ handledBefore id entities -> endsTick s e = false.

(** What an AI never decides about itself: its kind, its spawn origin and
    leash, its faction and temper. *)
Definition anchor (a : AIComponent) :=
  (aiType a, SpawnX a, SpawnY a, LeashRange a, Faction a, IsAggressive a).

(** The input presses no two opposite directions. *)
Definition coherent (input : InputComponent) : Prop :=
  (Up input && Down input) = false ∧ (Left input && Right input) = false.

(** The input presses no direction at all. *)
Definition still (input : InputComponent) : Prop :=
  Up input = false ∧ Down input = false ∧
  Left input = false ∧ Right input = false.

(** The straight-line distance between the centres of two entities. *)
Definition centerDistance (w : World) (id tid : Entity) : float :=
  let self := getEntityCenter w id in
  let target := getEntityCenter w tid in
  let dx := target.1 - self.1 in
  let dy := target.2 - self.2 in
  PrimFloat.sqrt (dx * dx + dy * dy).

Definition sees (w : World) (m : world.Map) (id tid : Entity) : bool :=
  let self := getEntityCenter w id in
  let target := getEntityCenter w tid in
  HasLineOfSight m self.1 self.2 target.1 target.2.

(** What the code requires for an attack with a weapon of stats [stats]:
    the target within 80% of the weapon range, and in sight when the range
    is above 60. *)
Definition inReach (w : World) (m : world.Map) (id tid : Entity)
  (stats : AttackComponent) : bool :=
  (centerDistance w id tid <=? aRange stats * 0.8)
  && negb ((aRange stats >? 60) && negb (sees w m id tid)).

End AITerms.

Section AIWorlds.
Import components ecs ai.
Local Open Scope float_scope.

(** Forty by forty tiles of grass. *)
Definition meadow : world.Map := world.NewMap 40 40.

(** A generator that always draws 0.25 and direction 0. *)
Definition calm : Rng := mkRng (fun _ => 0.25) (fun _ => 0%Z) 0.

(** A guard spawned at (100,100) with the leash of [SpawnCharacter]. *)
Definition guardAI (state : string) (target : Entity) : AIComponent :=
  mkAI "guard" state 5 0 target true 1 [] 0 100 100 600.

Definition sprite32 : SpriteComponent := mkSprite (mkRGBA 255 255 0 255) 32 32.

Definition swordsman : EquipmentComponent :=
  setEquipSlot emptyEquipment SlotWeapon "sword_starter".

(** Adds to [w] the guard [id] at ([x],100) in state [state] with target
    [target], a sword in hand. *)
Definition withGuard (id : Entity) (x : float) (state : string)
  (target : Entity) (w : World) : World :=
  AddComponent id swordsman
    (AddComponent id (guardAI state target)
       (AddComponent id zeroInput
          (AddComponent id sprite32
             (AddComponent id (mkTransform x 100 0 0) w)))).

(** Adds to [w] a player [id] standing at ([x],100). *)
Definition withPlayer (id : Entity) (x : float) (w : World) : World :=
  AddComponent id zeroInput
    (AddComponent id sprite32 (AddComponent id (mkTransform x 100 0 0) w)).

Definition onMeadow (w : World) : AISystem :=
  mkAISystem w {[ 0%Z := meadow ]} calm.

(** Guard 1 strayed to x = 800, 700 pixels from its spawn origin, chasing
    entity 9, which no longer exists. *)
Definition strayedAfterGhost : AISystem :=
  onMeadow (withGuard 1%N 800 "chase" 9%N NewWorld).

(** Guard 1 as above, and guard 2 idling at its spawn origin. *)
Definition twoGuards : AISystem :=
  onMeadow
    (withGuard 2%N 100 "idle" 0%N
       (withPlayer 3%N 850 (withGuard 1%N 800 "chase" 3%N NewWorld))).

(** Three entities were created: guard 1 strayed to x = 800 chasing the
    player 3, who stands at 850, and guard 2 idles at its spawn origin. *)
Definition patrol : AISystem :=
  onMeadow
    (withGuard 2%N 100 "idle" 0%N
       (withPlayer 3%N 850
          (withGuard 1%N 800 "chase" 3%N (afterEntities 3 NewWorld)))).

(** As [patrol], but guard 2 has strayed to x = 820 after the player as
    well. *)
Definition twoStrayed : AISystem :=
  onMeadow
    (withGuard 2%N 820 "chase" 3%N
       (withPlayer 3%N 850
          (withGuard 1%N 800 "chase" 3%N (afterEntities 3 NewWorld)))).

(** Guard 1 at its spawn origin with its sword (melee, range 60), and the
    player 2 at x = 155: the centres are 55 pixels apart. *)
Definition playerAt (x : float) : AISystem :=
  onMeadow (withPlayer 2%N x (withGuard 1%N 100 "chase" 2%N NewWorld)).

End AIWorlds.

Section ProjectileTerms.
Import components ecs server.
Local Open Scope float_scope.

(** The projectile [proj] at [transform] hits [tid]: [tid] is not its
    owner, holds a Transform and a Sprite, and its sprite rectangle overlaps
    the 10x10 rectangle of the projectile. *)
Definition hits (proj : ProjectileComponent) (transform : TransformComponent)
  (w : World) (tid : Entity) : Prop :=
  tid ≠ OwnerID proj ∧
  ∃ tt sp, GetComponent TransformComponent w tid = Some tt ∧
           GetComponent SpriteComponent w tid = Some sp ∧
           rectOverlap (tX transform) (tY transform) 10 10
             (tX tt) (tY tt) (sWidth sp) (sHeight sp) = true.

(** The health left by a hit: the damage subtracted, clamped at zero. *)
Definition healthAfter (st : StatsComponent) (proj : ProjectileComponent)
  : float :=
  let h := CurrentHealth st - pDamage proj in
  if h <? 0 then 0 else h.

(** The combat components of [tid] are gone. *)
Definition stripped (w : World) (tid : Entity) : Prop :=
  GetComponent TransformComponent w tid = None ∧
  GetComponent PhysicsComponent w tid = None ∧
  GetComponent SpriteComponent w tid = None ∧
  GetComponent AIComponent w tid = None ∧
  GetComponent InputComponent w tid = None ∧
  GetComponent StatsComponent w tid = None.

(** No table holds a component of [pid]. *)
Definition destroyed (w : World) (pid : Entity) : Prop :=
  GetComponent TransformComponent w pid = None ∧
  GetComponent PhysicsComponent w pid = None ∧
  GetComponent SpriteComponent w pid = None ∧
  GetComponent ProjectileComponent w pid = None ∧
  GetComponent StatsComponent w pid = None.

(** The projectile after its advance of this tick. *)
Definition movedOf (s : GameServer) (pid : Entity)
  (transform : TransformComponent) (proj : ProjectileComponent)
  : TransformComponent * ProjectileComponent :=
  advance transform proj (GetComponent PhysicsComponent (World_ s) pid).

(** The world the scan of [UpdateProjectile] runs on: the projectile moved
    and aged. *)
Definition scanned (s : GameServer) (pid : Entity)
  (transform : TransformComponent) (proj : ProjectileComponent) : World :=
  AddComponent pid (movedOf s pid transform proj).2
    (AddComponent pid (movedOf s pid transform proj).1 (World_ s)).

(** The projectile [pid] of [s] is in flight after its advance: it holds a
    Transform and a Projectile component, its lifetime has not run out and
    the terrain does not stop it. *)
Definition inFlight (s : GameServer) (pid : Entity)
  (transform : TransformComponent) (proj : ProjectileComponent) : Prop :=
  GetComponent TransformComponent (World_ s) pid = Some transform ∧
  GetComponent ProjectileComponent (World_ s) pid = Some proj ∧
  (Lifetime (movedOf s pid transform proj).2 <=? 0) = false ∧
  terrainBlocks (Maps s) (movedOf s pid transform proj).1 = false.

(** [tid] is the first entity of the scan order that the projectile
    hits. *)
Definition firstHit (targets : list Entity) (s : GameServer) (pid : Entity)
  (transform : TransformComponent) (proj : ProjectileComponent)
  (tid : Entity) : Prop :=
  ∃ l1 l2, targets = l1 ++ tid :: l2 ∧
           (∀ e, e ∈ l1 ->
              ¬ hits (movedOf s pid transform proj).2
                  (movedOf s pid transform proj).1
                  (scanned s pid transform proj) e) ∧
           hits (movedOf s pid transform proj).2
             (movedOf s pid transform proj).1
             (scanned s pid transform proj) tid.

(** The death transition of [tid]: its combat components are gone and its
    Respawn is armed at 30 seconds. *)
Definition deathOf (w w' : World) (tid : Entity) : Prop :=
  ∃ r, GetComponent RespawnComponent w tid = Some r ∧
       stripped w' tid ∧
       GetComponent RespawnComponent w' tid
       = Some (mkRespawn (rSpawnX r) (rSpawnY r) 30 true).

(** The reactive aggro of [tid]: it had no target, and now targets
    [owner] in state "chase". *)
Definition aggroOf (w w' : World) (tid owner : Entity) : Prop :=
  ∃ a, GetComponent AIComponent w tid = Some a ∧ TargetID a = 0%N ∧
       GetComponent AIComponent w' tid
       = Some (setState (setTargetID a owner) "chase").

(** Neither effect: apart from its Stats, [tid] is as it was. *)
Definition untouched (w w' : World) (tid : Entity) : Prop :=
  GetComponent AIComponent w' tid = GetComponent AIComponent w tid ∧
  GetComponent TransformComponent w' tid
  = GetComponent TransformComponent w tid ∧
  GetComponent RespawnComponent w' tid = GetComponent RespawnComponent w tid.

End ProjectileTerms.

Section ProjectileWorlds.
Import components ecs server.
Local Open Scope float_scope.

(** An arrow [pid] of [owner] at (104,110) flying right, with the given
    damage. *)
Definition withArrow (pid owner : Entity) (damage : float) (w : World)
  : World :=
  AddComponent pid (mkProjectile owner damage 20)
    (AddComponent pid (mkSprite (mkRGBA 255 255 0 255) 8 8)
       (AddComponent pid (mkPhysics 1 0 0 0 10)
          (AddComponent pid (mkTransform 104 110 0 0) w))).

(** The guard 2 at its spawn origin (100,100), alive, with the given
    health and target, and the player 1 at the given health, at (0,100). *)
Definition skirmish (guardHealth : float) (guardTarget : Entity)
  (playerHealth : float) : World :=
  AddComponent 2%N (mkRespawn 100 100 0 false)
    (AddComponent 2%N (mkPhysics 0 0 0 0 1)
       (AddComponent 2%N (mkStats 50 guardHealth 0)
          (withGuard 2%N 100 "attack" guardTarget
             (AddComponent 1%N (mkStats 100 playerHealth 0)
                (withPlayer 1%N 0 NewWorld))))).

Definition onField (w : World) : GameServer :=
  mkServer w {[ 1%N := mkPlayer "henry" zeroInput ]} {[ 0%Z := meadow ]} ∅.

(** The player's arrow (damage 10) is about to hit the guard, who has 50
    health and is already fighting entity 7. *)
Definition arrowAtBusyGuard : GameServer :=
  onField (withArrow 5%N 1%N 10 (skirmish 50 7%N 100)).

(** The same arrow at an idle guard. *)
Definition arrowAtIdleGuard : GameServer :=
  onField (withArrow 5%N 1%N 10 (skirmish 50 0%N 100)).

(** The guard's arrow (damage 10) is about to hit the player, who has 5
    health left and holds no Respawn component. *)
Definition arrowAtPlayer : GameServer :=
  onField
    (AddComponent 5%N (mkTransform 4 110 0 0)
       (withArrow 5%N 2%N 10 (skirmish 50 1%N 5))).

(** The player's arrow at a guard with 10 health left. *)
Definition arrowAtWeakGuard : GameServer :=
  onField (withArrow 5%N 1%N 10 (skirmish 10 0%N 100)).

(** The world after the guard died, and after [n] more ticks of
    [UpdateRespawn]. *)
Definition afterDeath : World :=
  match UpdateProjectileOver [1%N; 2%N] 5%N arrowAtWeakGuard with
  | Some s' => World_ s'
  | None => NewWorld
  end.

Definition ticksLater (n : nat) : World :=
  Nat.iter n (UpdateRespawn 0.033) afterDeath.

End ProjectileWorlds.

Section AttackTerms.
Import components ecs server.
Local Open Scope float_scope.

(** A weapon attack of [id] began between [s] and [s']: an entity was
    created, and it is a projectile owned by [id], the arrow or the
    slash. *)
Definition attackStarted (id : Entity) (s s' : GameServer) : bool :=
  let pid := nextEntityID (World_ s') in
  negb (pid =? nextEntityID (World_ s))%N &&
  match GetComponent ProjectileComponent (World_ s') pid with
  | Some proj => (OwnerID proj =? id)%N
  | None => false
  end.

(** One tick as the attack code sees it: the order in which
    [Query[InputComponent]] lists the entities, and the clock reading of the
    call of [HandleAttack] for each. *)
Record Tick := mkTick { order : list Entity; clock : Entity -> float }.

(** Does [id] begin an attack in tick [t], started in state [s]. *)
Definition firesIn (t : Tick) (id : Entity) (s : GameServer) : bool :=
  bool_decide (id ∈ order t) &&
  (let before := handleAttacks (handledBefore id (order t)) (clock t) s in
   attackStarted id before (HandleAttack id (clock t id) before)).

(** The ticks, of a run of attack phases, in which [id] begins an
    attack. *)
Fixpoint firings (ticks : list Tick) (id : Entity) (s : GameServer)
  : list bool :=
  match ticks with
  | [] => []
  | t :: rest =>
      firesIn t id s :: firings rest id (attackPhase (order t) (clock t) s)
  end.

(** The time of the last attack of [id]; 0 before its first. *)
Definition lastAttack (s : GameServer) (id : Entity) : float :=
  LastAttackTime
    (default (mkAttack 0 0 0 0 AttackTypeMelee)
       (GetComponent AttackComponent (World_ s) id)).

(** The cadence of a weapon of the given cooldown, in the words of the
    specification: an attack at every clock reading that is at least the
    cooldown after the attack before. *)
Fixpoint cadence (cooldown last : float) (nows : list float) : list bool :=
  match nows with
  | [] => []
  | now :: rest =>
      if now - last <? cooldown then false :: cadence cooldown last rest
      else true :: cadence cooldown now rest
  end.

(** The edge gate of [HandleAttack]: a player whose recorded previous
    input already had the attack flag. *)
Definition held (s : GameServer) (id : Entity) : bool :=
  match Players s !! id with
  | Some player => Attack (PrevInput player)
  | None => false
  end.

(** [id] can attack with [weapon]: its input has the attack flag and no
    active spell, the weapon is in its weapon slot, and it has a
    Transform. *)
Definition armed (s : GameServer) (id : Entity) (input : InputComponent)
  (weapon : AttackComponent) : Prop :=
  inputs (World_ s) !! id = Some input ∧ Attack input = true ∧
  ActiveSpell input = "" ∧
  weaponOf (World_ s) id = Some weapon ∧
  is_Some (transforms (World_ s) !! id).

(** In every tick of [ticks] the query lists [id], once. *)
Definition eachTick (ticks : list Tick) (id : Entity) : Prop :=
  Forall (fun t => NoDup (order t) ∧ id ∈ order t) ticks.

End AttackTerms.

Section AttackWorlds.
Import components ecs server.
Local Open Scope float_scope.

(** Ticks in which the query lists [id] alone and the clock reads
    [start], [start] + [step], ... *)
Fixpoint ticksFrom (id : Entity) (start step : float) (n : nat)
  : list Tick :=
  match n with
  | O => []
  | S n' => mkTick [id] (fun _ => start) :: ticksFrom id (start + step) step n'
  end.

(** The input of a press at (300,100), and the input of its release. *)
Definition pressed : InputComponent :=
  setMouse (setAttack zeroInput true) 300 100.
Definition released : InputComponent := setMouse zeroInput 300 100.

(** The player 1, the only entity so far, with a bow (cooldown 0.5); the
    button is pressed and was not at the tick before. *)
Definition bowman : GameServer :=
  mkServer
    (AddComponent 1%N (setEquipSlot emptyEquipment SlotWeapon "bow_starter")
       (AddComponent 1%N pressed
          (AddComponent 1%N sprite32
             (AddComponent 1%N (mkTransform 100 100 0 0)
                (afterEntities 1 NewWorld)))))
    {[ 1%N := mkPlayer "henry" zeroInput ]} {[ 0%Z := meadow ]} ∅.

(** The input of [id] becomes [input], as [ProcessInput] stores it. *)
Definition withInput (id : Entity) (input : InputComponent)
  (s : GameServer) : GameServer :=
  withWorld s (AddComponent id input (World_ s)).

(** The bowman shot at 999.8 (the arrow is entity 2), let go of the
    button, and presses again: the bow is cooling until 1000.3. *)
Definition bowmanCooling : GameServer :=
  withInput 1%N pressed
    (attackPhase [1%N] (fun _ => 999.9)
       (withInput 1%N released
          (attackPhase [1%N] (fun _ => 999.8) bowman))).

(** The guard 2 with a sword (cooldown 0.8), created after the player 1,
    its target; the attack flag is up. *)
Definition sentry : GameServer :=
  mkServer
    (AddComponent 2%N pressed
       (withGuard 2%N 100 "attack" 1%N
          (withPlayer 1%N 130 (afterEntities 2 NewWorld))))
    {[ 1%N := mkPlayer "henry" zeroInput ]} {[ 0%Z := meadow ]} ∅.

(** The player 1 with a bow (cooldown 0.5), the attack flag up, aiming at
    (300,100). *)
Definition archer : GameServer :=
  mkServer
    (AddComponent 1%N (setEquipSlot emptyEquipment SlotWeapon "bow_starter")
       (AddComponent 1%N (setMouse (setAttack zeroInput true) 300 100)
          (AddComponent 1%N sprite32
             (AddComponent 1%N (mkTransform 100 100 0 0) NewWorld))))
    {[ 1%N := mkPlayer "henry" zeroInput ]} {[ 0%Z := meadow ]} ∅.

End AttackWorlds.

Section EquipTerms.
Import components ecs inventory server.
Local Open Scope Z_scope.

(** The request is turned down by the checks at the head of
    [equipItemInternal]: a component is missing, the inventory slot is out
    of range or empty, the item is unknown or cannot be equipped, or the
    target slot is not the slot of the item. *)
Definition turnedDown (id : Entity) (invSlot equipSlot_ : Z)
  (s : GameServer) : Prop :=
  match GetComponent EquipmentComponent (World_ s) id,
        GetComponent InventoryComponent (World_ s) id with
  | Some equip, Some inv =>
      let slots := slotsOf (heap s) inv in
      invSlot < 0 ∨ Z.of_nat (length slots) <= invSlot ∨
      match slots !! Z.to_nat invSlot with
      | Some slot =>
          ItemID slot = "" ∨
          match items.Get (ItemID slot) with
          | Some def =>
              items.EquipmentSlot def = -1 ∨
              items.EquipmentSlot def ≠ equipSlot_
          | None => True
          end
      | None => True
      end
  | _, _ => True
  end.

End EquipTerms.

Section EquipWorlds.
Import components ecs inventory server.

(** The player 1 wears a bow and carries two stacks of swords, of one and
    of two, in an inventory of two slots; the slots live at address 7. *)
Definition twoStacks : GameServer :=
  mkServer
    (AddComponent 1%N (mkInventory 7%N 2)
       (AddComponent 1%N
          (setEquipSlot emptyEquipment SlotWeapon "bow_starter") NewWorld))
    {[ 1%N := mkPlayer "henry" zeroInput ]} ∅
    {[ 7%N := [mkSlot "sword_starter" 1; mkSlot "sword_starter" 2] ]}.

(** A bow cannot go into the body slot: nothing changes. *)
Definition bowInBag : GameServer :=
  mkServer
    (AddComponent 1%N (mkInventory 7%N 2)
       (AddComponent 1%N emptyEquipment NewWorld))
    {[ 1%N := mkPlayer "henry" zeroInput ]} ∅
    {[ 7%N := [mkSlot "bow_starter" 1; mkSlot "" 0] ]}.

(** The player 1 wears a bow and carries one stack of two swords in an
    inventory of a single slot. *)
Definition oneStack : GameServer :=
  mkServer
    (AddComponent 1%N (mkInventory 7%N 1)
       (AddComponent 1%N
          (setEquipSlot emptyEquipment SlotWeapon "bow_starter") NewWorld))
    {[ 1%N := mkPlayer "henry" zeroInput ]} ∅
    {[ 7%N := [mkSlot "sword_starter" 2] ]}.

End EquipWorlds.

Section InventoryTerms.
Import components inventory.
Local Open Scope Z_scope.

(** What one slot counts towards the stock of [item]. *)
Definition part (item : string) (slot : InventorySlot) : Z :=
  if String.eqb (ItemID slot) item then Quantity slot else 0.

(** How many of [item] the slots hold. *)
Definition stock (item : string) (slots : list InventorySlot) : Z :=
  foldr (fun slot n => part item slot + n) 0 slots.

End InventoryTerms.

Section OwnershipTerms.
Import components ecs inventory server.
Local Open Scope Z_scope.

(** How many slots of the equipment hold [item]. *)
Definition worn (item : string) (equip : EquipmentComponent) : Z :=
  foldr (fun it n => (if String.eqb it item then 1 else 0) + n) 0
    (eSlots equip).

(** What the entity owns of [item]: what it carries and what it wears. *)
Definition owned (item : string) (s : GameServer) (id : Entity) : Z :=
  match inventoryView s id, equipmentView s id with
  | Some (slots, _), Some equip => stock item slots + worn item equip
  | _, _ => 0
  end.

(** The shape of the data of a player: nine equipment slots, as the array
    type has it, and in the inventory no named slot without a unit and no
    quantity near the end of int64. *)
Definition tidy (s : GameServer) (id : Entity) : Prop :=
  match inventoryView s id, equipmentView s id with
  | Some (slots, _), Some equip =>
      length (eSlots equip) = 9%nat ∧
      Forall (fun slot => 0 <= Quantity slot < 2 ^ 62 ∧
                          (ItemID slot ≠ "" -> 1 <= Quantity slot)) slots
  | _, _ => True
  end.

(** What a "Drop" request throws away of [item]: the content of the slot
    it names. *)
Definition dropped (item : string) (action : protocol.InventoryActionPacket)
  (s : GameServer) (id : Entity) : Z :=
  if String.eqb (protocol.ActionType action) "Drop" then
    match inventoryView s id, equipmentView s id with
    | Some (slots, _), Some _ =>
        if 0 <=? protocol.SlotA action
        then from_option (part item) 0
               (slots !! Z.to_nat (protocol.SlotA action))
        else 0
    | _, _ => 0
    end
  else 0.

(** The inventory the entity shows has [n] slots and the capacity [c]. *)
Definition sized (s : GameServer) (id : Entity) (n : nat) (c : Z) : Prop :=
  ∃ slots, inventoryView s id = Some (slots, c) ∧ length slots = n.

End OwnershipTerms.

Section OwnershipWorlds.
Import components ecs inventory server.

(** The bag of the player below: a bow, three potions and a free slot. *)
Definition bag : InventoryComponent := mkInventory 7%N 3.

(** The player 1 wears a sword and carries a bow, three potions and a free
    slot; the slots live at address 7. *)
Definition armedPlayer : GameServer :=
  mkServer
    (AddComponent 1%N bag
       (AddComponent 1%N
          (setEquipSlot emptyEquipment SlotWeapon "sword_starter") NewWorld))
    {[ 1%N := mkPlayer "henry" zeroInput ]} ∅
    {[ 7%N := [mkSlot "bow_starter" 1; mkSlot "potion_health_small" 3;
               mkSlot "" 0] ]}.

End OwnershipWorlds.

Section StoreTerms.
Import components ecs.

(** Everything the world holds of an entity: its entry, if any, in each of
    the tables. *)
Definition componentsOf (w : World) (e : Entity) :=
  (GetComponent TransformComponent w e, GetComponent PhysicsComponent w e,
   GetComponent SpriteComponent w e, GetComponent InputComponent w e,
   GetComponent StatsComponent w e, GetComponent AttackComponent w e,
   GetComponent ProjectileComponent w e, GetComponent AIComponent w e,
   GetComponent RespawnComponent w e, GetComponent EquipmentComponent w e,
   GetComponent InventoryComponent w e, GetComponent SpellbookComponent w e).

(** The world holds nothing of the entity. *)
Definition absent (w : World) (e : Entity) : Prop :=
  componentsOf w e = componentsOf NewWorld e.

(** The tables the bodies are read from. *)
Definition frameOf (w : World) :=
  (transforms w, physicses w, projectiles w).

End StoreTerms.

Section CombatTerms.
Import components ecs server.
Local Open Scope float_scope.

(** No entity has a negative health. *)
Definition healthy (w : World) : Prop :=
  ∀ e st, GetComponent StatsComponent w e = Some st ->
          (CurrentHealth st <? 0) = false.

(** The number of ticks the projectile of a weapon lives: an arrow flies
    its range at 10 pixels a tick, a slash lasts 15 ticks. *)
Definition lifetimeOf (weapon : AttackComponent) : float :=
  match aType weapon with
  | AttackTypeRanged => aRange weapon / 10
  | AttackTypeMelee => 15
  end.

End CombatTerms.

Section RespawnTerms.
Import components ecs server.
Local Open Scope float_scope.

(** The respawn timer [n] ticks of [dt] after it stood at [t]. *)
Fixpoint timerAfter (t dt : float) (n : nat) : float :=
  match n with
  | O => t
  | S n' => timerAfter (t - dt) dt n'
  end.

(** The timer does not run out in any of the first [n] ticks. *)
Fixpoint waits (t dt : float) (n : nat) : bool :=
  match n with
  | O => true
  | S n' => negb (t - dt <=? 0) && waits (t - dt) dt n'
  end.

(** [ticks] ticks of [UpdateRespawn], the query listing the entities of
    each tick in the given order. *)
Definition respawnTicks (ticks : list (list Entity)) (dt : float)
  (w : World) : World :=
  foldl (fun w ents => UpdateRespawnOver ents dt w) w ticks.

End RespawnTerms.

Section CombatWorlds.
Import components ecs server.
Local Open Scope float_scope.

(** The player 1, hurt (95 of 100 health), who knows how to heal and to
    throw fire. *)
Definition mage : World :=
  AddComponent 1%N (mkSpellbook ["heal"; "fireball"] ∅)
    (AddComponent 1%N (mkStats 100 95 0)
       (AddComponent 1%N (mkTransform 100 100 0 0) NewWorld)).

(** The guard 2, dead, a tenth of a second before its respawn; its spawn
    point is (100,100). *)
Definition almostBack : World :=
  AddComponent 2%N (mkRespawn 100 100 0.1 true) NewWorld.

(** The server before anyone arrived. *)
Definition emptyServer : GameServer :=
  mkServer NewWorld ∅ {[ 0%Z := meadow ]} ∅.

(** The save that a signup writes: (100,100), full health, nothing
    else. *)
Definition newcomer : storage.PlayerSaveData :=
  storage.mkSave "henry" "secret" 100 100 100 [] (replicate 9 EmptyString) [].

End CombatWorlds.

(** * Properties *)

(** ** The component store *)

(** Unfold the store operations down to the tables of the world. *)
Ltac tables :=
  unfold ecs.GetComponent, ecs.AddComponent, ecs.RemoveComponent in *;
  cbn [ecs.store ecs.setStore ecs.TransformKind ecs.PhysicsKind
       ecs.SpriteKind ecs.InputKind ecs.StatsKind ecs.AttackKind
       ecs.ProjectileKind ecs.AIKind ecs.RespawnKind ecs.EquipmentKind
       ecs.InventoryKind ecs.SpellbookKind
       ecs.nextEntityID ecs.transforms ecs.physicses ecs.sprites ecs.inputs
       ecs.statses ecs.attacks ecs.projectiles ecs.ais ecs.respawns
       ecs.equipments ecs.inventories ecs.spellbooks] in *.

Section Store.
Import components ecs.
Context {T : Type} `{Component T}.

Lemma Query_order (w : World) : queryOrder T w (Query T w).
Proof.
  unfold queryOrder, Query. split.
  - apply NoDup_fst_map_to_list.
  - intros e. rewrite list_elem_of_fmap. split.
    + intros [[e' c] [-> Hin]]. apply elem_of_map_to_list in Hin. eauto.
    + intros [c Hc]. exists (e, c). split; [done|].
      by apply elem_of_map_to_list.
Qed.

End Store.

(** ** Maps *)

(** On a well-formed map, a guarded access reads a cell of the grid. *)
Lemma tileAt_in_bounds (m : world.Map) (tx ty : Z) :
  world.wf m -> world.inBounds m tx ty = true ->
  ∃ row tile, world.Tiles m !! Z.to_nat ty = Some row ∧
              row !! Z.to_nat tx = Some tile ∧
              world.tileAt m tx ty = tile.
Proof.
  intros (Hrows & _ & Hcols & _) Hin. unfold world.inBounds in Hin.
  repeat (apply andb_true_iff in Hin as [Hin ?]).
  destruct (lookup_lt_is_Some_2 (world.Tiles m) (Z.to_nat ty)) as [row Hrow];
    [lia|].
  assert (length row = Z.to_nat (world.Width m)) as Hlen.
  { rewrite Forall_forall in Hcols. apply Hcols.
    by apply list_elem_of_lookup_2 in Hrow. }
  destruct (lookup_lt_is_Some_2 row (Z.to_nat tx)) as [tile Htile]; [lia|].
  exists row, tile. split; [done|]. split; [done|].
  unfold world.tileAt. rewrite Hrow. cbn. by rewrite Htile.
Qed.

Lemma NewMap_wf (width height : Z) : world.wf (world.NewMap width height).
Proof.
  unfold world.wf, world.NewMap. cbn.
  rewrite !length_replicate. repeat split; try done.
  - apply Forall_replicate. by rewrite length_replicate.
  - apply Forall_replicate. by rewrite length_replicate.
Qed.

(** ** The state snapshot *)

Section Snapshot.
Import components ecs network.

Lemma snapshotOf_Some (w : World) (id : Entity) (snap : EntitySnapshot) :
  snapshotOf w id = Some snap ->
  ID snap = id ∧ is_Some (GetComponent SpriteComponent w id) ∧
  snap = mkSnapshot id (GetComponent TransformComponent w id)
           (GetComponent PhysicsComponent w id)
           (GetComponent SpriteComponent w id)
           (GetComponent StatsComponent w id).
Proof.
  unfold snapshotOf, GetComponent. simpl.
  destruct (sprites w !! id) eqn:Hs; [|discriminate].
  intros [= <-]. simpl. eauto.
Qed.

(** C9, as stated, fails: an entity that holds a Sprite but no Transform
    has no entry in the snapshot. *)
Lemma snapshot_misses_sprite_without_transform :
  is_Some (GetComponent SpriteComponent spriteOnly 1%N) ∧
  GetComponent TransformComponent spriteOnly 1%N = None ∧
  PrepareStateUpdate spriteOnly = [].
Proof. split; [by eexists|]. split; reflexivity. Qed.

(** C9, amended: the snapshot holds an entry for exactly the entities that
    hold both a Transform and a Sprite (the loop ranges over the Transform
    table); an entry carries the entity id and copies of its Transform,
    Physics, Sprite and Stats, nil for Physics or Stats when absent, and its
    Transform and Sprite are never nil. *)
Theorem snapshot_membership (w : World) (ents : list Entity) :
  queryOrder TransformComponent w ents ->
  (∀ e, (∃ snap, snap ∈ PrepareStateUpdateOver ents w ∧ ID snap = e) ↔
        (is_Some (GetComponent TransformComponent w e) ∧
         is_Some (GetComponent SpriteComponent w e))) ∧
  (∀ snap, snap ∈ PrepareStateUpdateOver ents w ->
     is_Some (Transform snap) ∧ is_Some (Sprite snap) ∧
     snap = mkSnapshot (ID snap)
              (GetComponent TransformComponent w (ID snap))
              (GetComponent PhysicsComponent w (ID snap))
              (GetComponent SpriteComponent w (ID snap))
              (GetComponent StatsComponent w (ID snap))).
Proof.
  intros [_ Hents]. unfold PrepareStateUpdateOver. split.
  - intros e. split.
    + intros (snap & Hin & <-).
      apply list_elem_of_omap in Hin as (id & Hid & Hsnap).
      apply snapshotOf_Some in Hsnap as (-> & Hs & _).
      split; [by apply Hents | done].
    + intros [Ht [sp Hs]].
      exists (mkSnapshot e (GetComponent TransformComponent w e)
                (GetComponent PhysicsComponent w e) (Some sp)
                (GetComponent StatsComponent w e)).
      split; [|done]. apply list_elem_of_omap. exists e.
      split; [by apply Hents|]. unfold snapshotOf.
      unfold GetComponent in *. simpl in *. by rewrite Hs.
  - intros snap Hin.
    apply list_elem_of_omap in Hin as (id & Hid & Hsnap).
    apply snapshotOf_Some in Hsnap as (Hi & Hs & ->). simpl.
    split; [by apply Hents|]. done.
Qed.

Lemma snapshot_membership_witness :
  queryOrder TransformComponent snapshotWorld
    (Query TransformComponent snapshotWorld) ∧
  (∃ snap, snap ∈ PrepareStateUpdate snapshotWorld ∧ ID snap = 1%N) ∧
  ¬ (∃ snap, snap ∈ PrepareStateUpdate snapshotWorld ∧ ID snap = 2%N).
Proof.
  pose proof (snapshot_membership snapshotWorld
                (Query TransformComponent snapshotWorld)
                (Query_order snapshotWorld)) as [Hmem _].
  split; [apply Query_order|]. split.
  - apply (Hmem 1%N). split; by eexists.
  - intros Hex. apply (Hmem 2%N) in Hex as [[t Ht] _]. discriminate Ht.
Defined.

End Snapshot.


(** ** Loops with an early return *)

Section ForReturn.
Context {A R : Type}.

Lemma forReturn_None (l : list A) (body : A -> option R) :
  forReturn l body = None ↔ ∀ a, a ∈ l -> body a = None.
Proof.
  induction l as [|a l IH]; simpl.
  - split; [|done]. intros _ a Ha. by apply not_elem_of_nil in Ha.
  - destruct (body a) eqn:Ha.
    + split; [done|]. intros Hall.
      rewrite Hall in Ha; [done|]. apply list_elem_of_here.
    + rewrite IH. split.
      * intros Hall b Hb. apply elem_of_cons in Hb as [->|Hb]; auto.
      * intros Hall b Hb. apply Hall. by apply list_elem_of_further.
Qed.

(** The value returned comes from the first element whose body returns. *)
Lemma forReturn_Some (l : list A) (body : A -> option R) (r : R) :
  forReturn l body = Some r ↔
  ∃ l1 a l2, l = l1 ++ a :: l2 ∧ (∀ b, b ∈ l1 -> body b = None) ∧
             body a = Some r.
Proof.
  induction l as [|a l IH]; simpl.
  - split; [done|]. intros (l1 & a & l2 & Hl & _). by destruct l1.
  - destruct (body a) eqn:Ha.
    + split.
      * intros [= ->]. exists [], a, l. split; [done|].
        split; [|done]. intros b Hb. by apply not_elem_of_nil in Hb.
      * intros (l1 & b & l2 & Hl & Hpre & Hb). destruct l1 as [|c l1].
        -- simplify_eq/=. congruence.
        -- simplify_eq/=. rewrite (Hpre c) in Ha; [done|].
           apply list_elem_of_here.
    + rewrite IH. split.
      * intros (l1 & b & l2 & -> & Hpre & Hb). exists (a :: l1), b, l2.
        split; [done|]. split; [|done].
        intros c Hc. apply elem_of_cons in Hc as [->|Hc]; auto.
      * intros (l1 & b & l2 & Hl & Hpre & Hb). destruct l1 as [|c l1].
        -- simplify_eq/=.
        -- simplify_eq/=. exists l1, b, l2.
           split; [done|]. split; [|done].
           intros d Hd. apply Hpre. by apply list_elem_of_further.
Qed.

End ForReturn.

(** ** Movement and collision *)

Section CollisionProps.
Import components ecs movement.
Local Open Scope float_scope.

Lemma collidesAtTile_None (m : world.Map) (x y w h : float) (ty tx : Z) :
  collidesAtTile m x y w h ty tx = None ↔ tileFree m x y w h tx ty.
Proof.
  unfold collidesAtTile, tileFree.
  destruct (world.inBounds m tx ty); simpl; [|intuition congruence].
  destruct (isTileSolid _ _ _ _ _ _ _); [intuition congruence|].
  destruct (world.objectAt m tx ty >? 0)%Z; [|intuition congruence].
  destruct (rectOverlap _ _ _ _ _ _ _ _); intuition congruence.
Qed.

Lemma collidesAtTile_true (m : world.Map) (x y w h : float) (ty tx : Z)
  (r : bool) :
  collidesAtTile m x y w h ty tx = Some r -> r = true.
Proof.
  unfold collidesAtTile. repeat case_match; congruence.
Qed.

(** [collidesAt] reports no collision exactly when the level has a map and
    every tile the probe box overlaps is inside the grid, not solid where the
    box is, and free of an object the box touches. *)
Lemma collidesAt_false (maps : gmap Z world.Map) (z : Z) (x y w h : float) :
  collidesAt maps z x y w h = false ↔
  ∃ m, maps !! z = Some m ∧
       ∀ tx ty, probed x y w h tx ty -> tileFree m x y w h tx ty.
Proof.
  unfold collidesAt, probed. destruct (maps !! z) as [m|];
    [|split; [done|intros (? & ? & _); done]].
  split.
  - intros Hc. exists m. split; [done|]. intros tx ty [Hty Htx].
    destruct (forReturn (upTo (startT y) (endT y h)) _) as [r|] eqn:Hrows.
    + simpl in Hc. subst r.
      apply forReturn_Some in Hrows as (? & ty' & ? & _ & _ & Hrow).
      apply forReturn_Some in Hrow as (? & tx' & ? & _ & _ & Hcell).
      by apply collidesAtTile_true in Hcell.
    + rewrite forReturn_None in Hrows. specialize (Hrows ty Hty).
      rewrite forReturn_None in Hrows. specialize (Hrows tx Htx).
      by apply collidesAtTile_None.
  - intros (m' & [= <-] & Hfree).
    assert (forReturn (upTo (startT y) (endT y h))
              (fun ty => forReturn (upTo (startT x) (endT x w))
                           (collidesAtTile m x y w h ty)) = None) as ->; [|done].
    apply forReturn_None. intros ty Hty.
    apply forReturn_None. intros tx Htx.
    apply collidesAtTile_None. by apply Hfree.
Qed.

Lemma collidesWithEntity_None (w : World) (selfID : Entity) (z : Z)
  (x y bw bh : float) (other : Entity) :
  collidesWithEntity w selfID z x y bw bh other = None ↔
  (other ≠ selfID ->
   GetComponent ProjectileComponent w other = None ->
   ∃ ot, GetComponent TransformComponent w other = Some ot ∧
         (tZ ot = z ->
          rectOverlap x y bw bh (tX ot + boxOffset) (tY ot + boxOffset)
            boxSize boxSize = false)).
Proof.
  unfold collidesWithEntity. tables.
  destruct (N.eqb_spec other selfID) as [->|Hne]; [intuition congruence|].
  destruct (projectiles w !! other); [intuition congruence|].
  destruct (transforms w !! other) as [ot|]; cbv beta iota.
  - destruct (Z.eqb_spec (tZ ot) z) as [Hz|Hz]; cbn [negb].
    + destruct (rectOverlap _ _ _ _ _ _ _ _) eqn:Hov.
      * split; [done|]. intros Hcl.
        destruct (Hcl Hne eq_refl) as (ot' & [= <-] & Hno).
        rewrite Hno in Hov; done.
      * split; [|done]. intros _ _ _. eauto.
    + split; [|done]. intros _ _ _. exists ot. split; [done|]. done.
  - split; [done|]. intros Hcl. by destruct (Hcl Hne eq_refl) as (? & ? & _).
Qed.

Lemma collidesWithEntities_false (w : World) (selfID : Entity) (z : Z)
  (x y bw bh : float) :
  collidesWithEntities w selfID z x y bw bh = Some false ↔
  entitiesClear w selfID z x y bw bh.
Proof.
  unfold collidesWithEntities, collidesWithEntitiesOver, entitiesClear.
  pose proof (Query_order (T:=PhysicsComponent) w) as [_ Hq].
  destruct (forReturn _ _) as [r|] eqn:Hloop; simpl.
  - apply forReturn_Some in Hloop as (l1 & a & l2 & Hl & _ & Ha).
    split.
    + intros ->. unfold collidesWithEntity in Ha.
      repeat case_match; congruence.
    + intros Hcl. assert (a ∈ Query PhysicsComponent w) as Hin.
      { rewrite Hl. apply elem_of_app. right. apply list_elem_of_here. }
      apply Hq in Hin.
      assert (collidesWithEntity w selfID z x y bw bh a = None) as Hn.
      { apply collidesWithEntity_None. intros. by apply Hcl. }
      congruence.
  - split; [|done]. intros _ other Hp Hne Hproj.
    rewrite forReturn_None in Hloop.
    apply (collidesWithEntity_None w selfID z x y bw bh other); [|done..].
    apply Hloop. by apply Hq.
Qed.

Lemma blocked_false (s : MovementSystem) (id : Entity) (z : Z) (x y : float) :
  blocked s id z x y = Some false ↔ boxFree s id z x y.
Proof.
  unfold blocked, boxFree.
  destruct (collidesAt _ _ _ _ _ _) eqn:Hc.
  - split; [done|]. intros [Hfree _].
    apply collidesAt_false in Hfree. congruence.
  - rewrite collidesWithEntities_false. apply collidesAt_false in Hc. tauto.
Qed.

Lemma isTileSolid_full (tile : world.Tile) (tx ty : Z) (x y w h : float) :
  fullTile (world.Type_ tile) = true ->
  isTileSolid tile tx ty x y w h = true.
Proof.
  unfold fullTile, isTileSolid. intros [Hs Hk]%andb_true_iff.
  rewrite Hs. apply negb_true_iff in Hk. cbn [existsb] in Hk.
  repeat (apply orb_false_iff in Hk as [-> Hk]). done.
Qed.

(** A box that overlaps a tile outside the grid or a fully solid tile is
    not free. *)
Lemma boxFree_no_wall (s : MovementSystem) (id : Entity) (z : Z)
  (x y : float) (m : world.Map) (tx ty : Z) :
  Maps s !! z = Some m ->
  probed (x + boxOffset) (y + boxOffset) boxSize boxSize tx ty ->
  world.inBounds m tx ty = false ∨
  fullTile (world.Type_ (world.tileAt m tx ty)) = true ->
  ¬ boxFree s id z x y.
Proof.
  intros Hm Hpr Hwall [(m' & Hm' & Hfree) _].
  rewrite Hm in Hm'. injection Hm' as <-.
  destruct (Hfree tx ty Hpr) as (Hin & Hsolid & _).
  destruct Hwall as [Hout|Hfull]; [congruence|].
  rewrite isTileSolid_full in Hsolid; done.
Qed.

(** Adding the displacement of an idle axis changes nothing. *)
Lemma add_zero_move (y s : float) :
  finite s -> notNegZero y -> y + 0 * s = y.
Proof.
  unfold finite, notNegZero. intros Hs Hy.
  apply Prim2SF_inj. rewrite FloatAxioms.add_spec, FloatAxioms.mul_spec.
  replace (Prim2SF 0) with (S754_zero false) by reflexivity.
  destruct (Prim2SF s) as [sb| | |sb m e]; try contradiction; cbn;
    destruct (Prim2SF y) as [[]| | |]; cbn; try reflexivity;
    try congruence; destruct sb; reflexivity.
Qed.

End CollisionProps.

Section MovementProps.
Import components ecs movement.
Local Open Scope float_scope.

Variable Atan2 : float -> float -> float.

Lemma UpdateEntityMovement_result (id : Entity) (dt : float)
  (s s' : MovementSystem) (input : InputComponent)
  (t : TransformComponent) (phys : PhysicsComponent) :
  GetComponent InputComponent (mWorld s) id = Some input ->
  GetComponent TransformComponent (mWorld s) id = Some t ->
  GetComponent PhysicsComponent (mWorld s) id = Some phys ->
  UpdateEntityMovement Atan2 id dt s = Some s' ->
  ∃ bx by_ r timers,
    blocked s id (tZ t) (tX t + (moveOf input phys).1) (tY t) = Some bx ∧
    blocked s id (tZ t) (resolveX t (moveOf input phys).1 bx)
      (tY t + (moveOf input phys).2) = Some by_ ∧
    s' = mkMovement
           (AddComponent id
              (mkTransform (resolveX t (moveOf input phys).1 bx)
                 (resolveY t (moveOf input phys).2 by_) (tZ t) r)
              (mWorld s))
           (Maps s) timers.
Proof.
  intros Hi Ht Hp. unfold UpdateEntityMovement. rewrite Hi, Ht, Hp.
  unfold moveOf, resolveX, resolveY.
  destruct (normalized (inputDir input)) as [dx dy]. cbn [fst snd].
  destruct (blocked s id (tZ t) _ (tY t)) as [bx|] eqn:Hbx; [|done].
  destruct bx; cbn [setXY tX tY tZ];
    (match goal with
     | |- context [blocked ?a ?b ?c ?d ?e] =>
         destruct (blocked a b c d e) as [by_|] eqn:Hby; [|done]
     end);
    (match goal with
     | |- context [updateRotation ?a ?b ?c ?d ?e ?f ?g ?h] =>
         destruct (updateRotation a b c d e f g h) as [t2 timers] eqn:Hrot
     end);
    intros [= <-]; eexists _, by_, (Rotation t2), timers;
    (split; [done|]); (split; [done|]); f_equal; f_equal;
    unfold updateRotation in Hrot;
    destruct by_; repeat case_match; simplify_eq; by destruct t.
Qed.

Lemma blocked_total (s : MovementSystem) (id : Entity) (z : Z) (x y : float) :
  bodiesPlaced (mWorld s) -> is_Some (blocked s id z x y).
Proof.
  intros Hplaced. unfold blocked.
  destruct (collidesAt _ _ _ _ _ _); [by eexists|].
  unfold collidesWithEntities, collidesWithEntitiesOver.
  pose proof (Query_order (T:=PhysicsComponent) (mWorld s)) as [_ Hq].
  destruct (forReturn _ _) as [[r|]|] eqn:Hloop; cbn; [by eexists| |by eexists].
  apply forReturn_Some in Hloop as (l1 & other & l2 & Hl & _ & Hbody).
  assert (other ∈ Query PhysicsComponent (mWorld s)) as Hin.
  { rewrite Hl. apply elem_of_app. right. apply list_elem_of_here. }
  apply Hq in Hin. unfold collidesWithEntity in Hbody.
  destruct (other =? id)%N; [done|].
  destruct (GetComponent ProjectileComponent (mWorld s) other) eqn:Hproj;
    [done|].
  destruct (Hplaced other Hin Hproj) as [ot Hot]. rewrite Hot in Hbody.
  repeat case_match; done.
Qed.

(** The movement of an entity does not panic when the bodies are placed. *)
Lemma UpdateEntityMovement_total (id : Entity) (dt : float)
  (s : MovementSystem) :
  bodiesPlaced (mWorld s) -> is_Some (UpdateEntityMovement Atan2 id dt s).
Proof.
  intros Hplaced. unfold UpdateEntityMovement.
  destruct (GetComponent InputComponent (mWorld s) id) as [input|];
    [|by eexists].
  destruct (GetComponent TransformComponent (mWorld s) id) as [t|];
    [|by eexists].
  destruct (GetComponent PhysicsComponent (mWorld s) id) as [phys|];
    [|by eexists].
  destruct (normalized _) as [dx dy].
  destruct (blocked_total s id (tZ t) (tX t + dx * moveSpeed input phys)
              (tY t) Hplaced) as [bx ->].
  match goal with
  | |- context [blocked ?a ?b ?c ?d ?e] =>
      destruct (blocked_total a b c d e Hplaced) as [by_ ->]
  end.
  destruct (updateRotation _ _ _ _ _ _ _ _). by eexists.
Qed.

(** The two tries of the tick, in the terms of the tests the code makes:
    the X displacement is committed exactly when the candidate box is free,
    then the Y displacement from the X position reached. *)
Lemma axis_separated_free (id : Entity) (dt : float)
  (s s' : MovementSystem) (input : InputComponent)
  (t : TransformComponent) (phys : PhysicsComponent) :
  GetComponent InputComponent (mWorld s) id = Some input ->
  GetComponent TransformComponent (mWorld s) id = Some t ->
  GetComponent PhysicsComponent (mWorld s) id = Some phys ->
  UpdateEntityMovement Atan2 id dt s = Some s' ->
  ∃ t', GetComponent TransformComponent (mWorld s') id = Some t' ∧
    tZ t' = tZ t ∧
    (* X first *)
    (boxFree s id (tZ t) (tX t + (moveOf input phys).1) (tY t) ∧
       tX t' = tX t + (moveOf input phys).1
     ∨ ¬ boxFree s id (tZ t) (tX t + (moveOf input phys).1) (tY t) ∧
       tX t' = tX t) ∧
    (* then Y, from the X reached *)
    (boxFree s id (tZ t) (tX t') (tY t + (moveOf input phys).2) ∧
       tY t' = tY t + (moveOf input phys).2
     ∨ ¬ boxFree s id (tZ t) (tX t') (tY t + (moveOf input phys).2) ∧
       tY t' = tY t) ∧
    (* sliding along the free axis *)
    (¬ boxFree s id (tZ t) (tX t + (moveOf input phys).1) (tY t) ->
     boxFree s id (tZ t) (tX t) (tY t + (moveOf input phys).2) ->
     tX t' = tX t ∧ tY t' = tY t + (moveOf input phys).2) ∧
    (boxFree s id (tZ t) (tX t + (moveOf input phys).1) (tY t) ->
     ¬ boxFree s id (tZ t) (tX t + (moveOf input phys).1)
         (tY t + (moveOf input phys).2) ->
     tX t' = tX t + (moveOf input phys).1 ∧ tY t' = tY t) ∧
    (* straight into a wall, horizontally or vertically *)
    (∀ m tx ty,
       Up input = false -> Down input = false ->
       Maps s !! tZ t = Some m ->
       probed (tX t + (moveOf input phys).1 + boxOffset) (tY t + boxOffset)
         boxSize boxSize tx ty ->
       world.inBounds m tx ty = false ∨
       fullTile (world.Type_ (world.tileAt m tx ty)) = true ->
       finite (moveSpeed input phys) -> notNegZero (tY t) ->
       tX t' = tX t ∧ tY t' = tY t) ∧
    (∀ m tx ty,
       Left input = false -> Right input = false ->
       Maps s !! tZ t = Some m ->
       probed (tX t + boxOffset) (tY t + (moveOf input phys).2 + boxOffset)
         boxSize boxSize tx ty ->
       world.inBounds m tx ty = false ∨
       fullTile (world.Type_ (world.tileAt m tx ty)) = true ->
       finite (moveSpeed input phys) -> notNegZero (tX t) ->
       tX t' = tX t ∧ tY t' = tY t).
Proof.
  intros Hi Ht Hp Hstep.
  destruct (UpdateEntityMovement_result id dt s s' input t phys Hi Ht Hp Hstep)
    as (bx & by_ & r & timers & Hbx & Hby & ->).
  set (mx := (moveOf input phys).1) in *.
  set (my := (moveOf input phys).2) in *.
  eexists. split.
  { cbn [mWorld]. tables. apply lookup_insert_eq. }
  cbn [tX tY tZ]. split; [done|].
  assert (HX : bx = false ∧ boxFree s id (tZ t) (tX t + mx) (tY t) ∨
               bx = true ∧ ¬ boxFree s id (tZ t) (tX t + mx) (tY t)).
  { destruct bx; [right|left]; (split; [done|]).
    - rewrite <- blocked_false, Hbx. done.
    - by apply blocked_false. }
  assert (HY : by_ = false ∧
               boxFree s id (tZ t) (resolveX t mx bx) (tY t + my) ∨
               by_ = true ∧
               ¬ boxFree s id (tZ t) (resolveX t mx bx) (tY t + my)).
  { destruct by_; [right|left]; (split; [done|]).
    - rewrite <- blocked_false, Hby. done.
    - by apply blocked_false. }
  split; [unfold resolveX; destruct HX as [[-> ?]|[-> ?]]; tauto|].
  split; [unfold resolveY; destruct HY as [[-> ?]|[-> ?]]; tauto|].
  split.
  { intros Hnx Hfy. destruct HX as [[_ ?]|[-> _]]; [done|].
    unfold resolveX, resolveY in *.
    destruct HY as [[-> _]|[_ ?]]; done. }
  split.
  { intros Hfx Hny. destruct HX as [[-> _]|[_ ?]]; [|done].
    unfold resolveX, resolveY in *.
    destruct HY as [[_ ?]|[-> _]]; done. }
  split.
  - intros m tx ty Hup Hdown Hm Hpr Hwall Hfin Hnz.
    assert (my = 0 * moveSpeed input phys) as Hmy.
    { unfold my, moveOf, normalized, inputDir. rewrite Hup, Hdown.
      destruct (Left input), (Right input); reflexivity. }
    destruct HX as [[_ Hfree]|[-> _]].
    { exfalso. by apply (boxFree_no_wall s id (tZ t) _ _ m tx ty Hm Hpr). }
    unfold resolveX, resolveY. split; [done|].
    destruct by_; [done|]. rewrite Hmy. by apply add_zero_move.
  - intros m tx ty Hl Hr Hm Hpr Hwall Hfin Hnz.
    assert (mx = 0 * moveSpeed input phys) as Hmx.
    { unfold mx, moveOf, normalized, inputDir. rewrite Hl, Hr.
      destruct (Up input), (Down input); reflexivity. }
    assert (resolveX t mx bx = tX t) as HXeq.
    { unfold resolveX. destruct bx; [done|].
      rewrite Hmx. by apply add_zero_move. }
    rewrite HXeq in *. split; [done|].
    destruct HY as [[_ Hfree]|[-> _]]; [|done].
    exfalso. by apply (boxFree_no_wall s id (tZ t) _ _ m tx ty Hm Hpr).
Qed.

(** Where the entities with a box are the entities with Physics, the test
    over the holders of Physics is the test over the boxes. *)
Lemma entitiesClear_others (w : World) (selfID : Entity) (z : Z)
  (x y bw bh : float) :
  bodiesPlaced w -> bodiesSolid w ->
  entitiesClear w selfID z x y bw bh ↔ othersClear w selfID z x y bw bh.
Proof.
  intros Hplaced Hsolid. split.
  - intros Hclear other ot Hne Hproj Hot Hz.
    destruct (Hclear other) as (ot' & Hot' & Hfree); [|done..|].
    { apply Hsolid; [by eexists|done]. }
    rewrite Hot in Hot'. injection Hot' as <-. by apply Hfree.
  - intros Hclear other Hphys Hne Hproj.
    destruct (Hplaced other Hphys Hproj) as [ot Hot].
    exists ot. split; [done|]. intros Hz. by apply (Hclear other ot).
Qed.

Lemma boxFree_clear (s : MovementSystem) (id : Entity) (z : Z) (x y : float) :
  bodiesPlaced (mWorld s) -> bodiesSolid (mWorld s) ->
  boxFree s id z x y ↔ boxClear s id z x y.
Proof.
  intros Hplaced Hsolid. unfold boxFree, boxClear.
  by rewrite (entitiesClear_others _ _ _ _ _ _ _ Hplaced Hsolid).
Qed.

(** C7. Axis-separated movement.  In a world in which the entities with a
    box are the entities with Physics (every non-projectile entity that
    holds the one holds the other, as the server keeps it), the tick of an
    entity with Input, Transform and Physics returns; it first tries the X
    displacement, and commits it exactly when the collision box at the
    candidate position is clear (no solid tile, no object, nothing outside
    the grid, no box of another non-projectile entity of the level); then
    it tries the Y displacement from the X position reached, under the same
    test.  So an entity blocked on one axis slides along the other, and an
    entity that moves along one axis into a fully solid tile does not move
    at all. *)
Theorem axis_separated_movement (id : Entity) (dt : float)
  (s : MovementSystem) (input : InputComponent)
  (t : TransformComponent) (phys : PhysicsComponent) :
  bodiesPlaced (mWorld s) -> bodiesSolid (mWorld s) ->
  GetComponent InputComponent (mWorld s) id = Some input ->
  GetComponent TransformComponent (mWorld s) id = Some t ->
  GetComponent PhysicsComponent (mWorld s) id = Some phys ->
  ∃ s' t',
    UpdateEntityMovement Atan2 id dt s = Some s' ∧
    GetComponent TransformComponent (mWorld s') id = Some t' ∧
    tZ t' = tZ t ∧
    (* X first *)
    (boxClear s id (tZ t) (tX t + (moveOf input phys).1) (tY t) ∧
       tX t' = tX t + (moveOf input phys).1
     ∨ ¬ boxClear s id (tZ t) (tX t + (moveOf input phys).1) (tY t) ∧
       tX t' = tX t) ∧
    (* then Y, from the X reached *)
    (boxClear s id (tZ t) (tX t') (tY t + (moveOf input phys).2) ∧
       tY t' = tY t + (moveOf input phys).2
     ∨ ¬ boxClear s id (tZ t) (tX t') (tY t + (moveOf input phys).2) ∧
       tY t' = tY t) ∧
    (* sliding along the free axis *)
    (¬ boxClear s id (tZ t) (tX t + (moveOf input phys).1) (tY t) ->
     boxClear s id (tZ t) (tX t) (tY t + (moveOf input phys).2) ->
     tX t' = tX t ∧ tY t' = tY t + (moveOf input phys).2) ∧
    (boxClear s id (tZ t) (tX t + (moveOf input phys).1) (tY t) ->
     ¬ boxClear s id (tZ t) (tX t + (moveOf input phys).1)
         (tY t + (moveOf input phys).2) ->
     tX t' = tX t + (moveOf input phys).1 ∧ tY t' = tY t) ∧
    (* straight into a wall, horizontally or vertically *)
    (∀ m tx ty,
       Up input = false -> Down input = false ->
       Maps s !! tZ t = Some m ->
       probed (tX t + (moveOf input phys).1 + boxOffset) (tY t + boxOffset)
         boxSize boxSize tx ty ->
       world.inBounds m tx ty = false ∨
       fullTile (world.Type_ (world.tileAt m tx ty)) = true ->
       finite (moveSpeed input phys) -> notNegZero (tY t) ->
       tX t' = tX t ∧ tY t' = tY t) ∧
    (∀ m tx ty,
       Left input = false -> Right input = false ->
       Maps s !! tZ t = Some m ->
       probed (tX t + boxOffset) (tY t + (moveOf input phys).2 + boxOffset)
         boxSize boxSize tx ty ->
       world.inBounds m tx ty = false ∨
       fullTile (world.Type_ (world.tileAt m tx ty)) = true ->
       finite (moveSpeed input phys) -> notNegZero (tX t) ->
       tX t' = tX t ∧ tY t' = tY t).
Proof.
  intros Hplaced Hsolid Hi Ht Hp.
  destruct (UpdateEntityMovement_total id dt s Hplaced) as [s' Hstep].
  destruct (axis_separated_free id dt s s' input t phys
              Hi Ht Hp Hstep)
    as (t' & Ht' & Hz & HX & HY & Hslide1 & Hslide2 & Hwall1 & Hwall2).
  exists s', t'.
  rewrite <- !(boxFree_clear s id) by done.
  split_and!; done.
Qed.

End MovementProps.

(** *** A wall to walk into *)

Section MovementExamples.
Import components ecs movement.
Local Open Scope float_scope.

(** The one entity of [wallSystem] has a box and Physics. *)
Lemma wallSystem_bodies (input : InputComponent) :
  bodiesPlaced (mWorld (wallSystem input)) ∧
  bodiesSolid (mWorld (wallSystem input)).
Proof.
  split; intros e [? He] _; cbn [mWorld wallSystem] in *; tables;
    (destruct (decide (e = 1%N)) as [->|Hne]; [by eexists|]);
    rewrite lookup_insert_ne in He by done; discriminate He.
Defined.

(** The entity that walks right into the water stays where it is. *)
Lemma axis_separated_movement_witness :
  ∃ s' t',
    UpdateEntityMovement noTurn 1%N 0.033 (wallSystem pressRight) = Some s' ∧
    GetComponent TransformComponent (mWorld s') 1%N = Some t' ∧
    tX t' = 32 ∧ tY t' = 32.
Proof.
  destruct (axis_separated_movement noTurn 1%N 0.033 (wallSystem pressRight)
              pressRight (mkTransform 32 32 0 0) (mkPhysics 0 0 0 0 6)
              (proj1 (wallSystem_bodies pressRight))
              (proj2 (wallSystem_bodies pressRight))
              eq_refl eq_refl eq_refl)
    as (s' & t' & Hstep & Ht' & _ & _ & _ & _ & _ & Hwall & _).
  exists s', t'. split; [exact Hstep|]. split; [exact Ht'|].
  apply (Hwall wallMap 2%Z 1%Z); try reflexivity.
  - split; apply elem_of_seqZ; vm_compute; split; congruence.
  - right. reflexivity.
  - discriminate.
Defined.

(** The tick of that entity does not panic. *)
Lemma UpdateEntityMovement_total_witness :
  is_Some (UpdateEntityMovement noTurn 1%N 0.033 (wallSystem pressRight)).
Proof.
  apply UpdateEntityMovement_total. intros e [phys Hphys] _.
  cbn [mWorld wallSystem] in *. tables.
  destruct (decide (e = 1%N)) as [->|Hne]; [by eexists|].
  rewrite lookup_insert_ne in Hphys by done. discriminate Hphys.
Defined.

(** Pressing right and down there, the entity slides down along the
    water. *)
Example slides_along_the_wall :
  GetComponent TransformComponent
    (mWorld (afterTick (wallSystem pressRightDown))) 1%N
  = Some (mkTransform 32 (32 + 0.7071 * 6) 0 0).
Proof. vm_compute. reflexivity. Qed.

End MovementExamples.

(** *** Staying on the map *)

Section Containment.
Import components ecs movement.
Local Open Scope float_scope.

Variable Atan2 : float -> float -> float.



(** The box of an entity at a NaN or an infinity probes the tile index
    that no map has, the least int64. *)
Lemma notNumber_tiles (x : float) :
  notNumber x ->
  startT (x + boxOffset) = F64.MinInt64 ∧
  endT (x + boxOffset) boxSize = F64.MinInt64.
Proof.
  unfold notNumber, startT, endT, F64.floor_int. intros Hx.
  rewrite !FloatAxioms.div_spec, !FloatAxioms.add_spec.
  destruct (Prim2SF x) as [| | |]; try contradiction; split; reflexivity.
Qed.

(** A box that lies within the grid is nowhere near a NaN or an infinity:
    if it overlaps any tile at all, both its coordinates are numbers. *)
Lemma inGrid_numbers (maps : gmap Z world.Map) (t : TransformComponent)
  (tx ty : Z) :
  inGrid maps t ->
  probed (tX t + boxOffset) (tY t + boxOffset) boxSize boxSize tx ty ->
  ¬ notNumber (tX t) ∧ ¬ notNumber (tY t).
Proof.
  intros (m & _ & Hin) Hpr. specialize (Hin tx ty Hpr).
  unfold world.inBounds in Hin.
  apply andb_true_iff in Hin as [Hin _].
  apply andb_true_iff in Hin as [Hin Hy0].
  apply andb_true_iff in Hin as [Hx0 _].
  apply Z.leb_le in Hx0, Hy0.
  destruct Hpr as [Hty Htx]. unfold upTo in *.
  apply elem_of_seqZ in Hty, Htx.
  split; intros Hnan; apply notNumber_tiles in Hnan as [Hs He];
    rewrite Hs, He in *; unfold F64.MinInt64 in *; lia.
Qed.

(** Within the grid, the first and the last tile the box overlaps are
    tiles of the map. *)
Lemma inGrid_corners (maps : gmap Z world.Map) (t : TransformComponent) :
  inGrid maps t ->
  (startT (tX t + boxOffset) <= endT (tX t + boxOffset) boxSize)%Z ->
  (startT (tY t + boxOffset) <= endT (tY t + boxOffset) boxSize)%Z ->
  ∃ m, maps !! tZ t = Some m ∧
       world.inBounds m (startT (tX t + boxOffset)) (startT (tY t + boxOffset))
       = true ∧
       world.inBounds m (endT (tX t + boxOffset) boxSize)
         (endT (tY t + boxOffset) boxSize) = true.
Proof.
  intros (m & Hm & Hin) Hx Hy. exists m. split; [done|].
  split; apply Hin; split; apply elem_of_seqZ; lia.
Qed.


End Containment.

Section ContainmentExample.
Import components ecs movement.
Local Open Scope float_scope.



(** At a NaN or an infinity the tile test reports a collision, and the
    position is not within the grid. *)
Example nowhere_is_off_the_grid :
  collidesAt {[ 0%Z := wallMap ]} 0 (nan + boxOffset) (32 + boxOffset)
    boxSize boxSize = true ∧
  collidesAt {[ 0%Z := wallMap ]} 0 (infinity + boxOffset)
    (neg_infinity + boxOffset) boxSize boxSize = true ∧
  ¬ inGrid {[ 0%Z := wallMap ]} (mkTransform nan 32 0 0) ∧
  ¬ inGrid {[ 0%Z := wallMap ]} (mkTransform 32 infinity 0 0) ∧
  ¬ inGrid {[ 0%Z := wallMap ]} (mkTransform neg_infinity nan 0 0).
Proof.
  split; [vm_compute; reflexivity|]. split; [vm_compute; reflexivity|].
  split_and!; intros Hgrid.
  - apply (inGrid_numbers _ _ F64.MinInt64 1%Z) in Hgrid as [Hx _];
      [by apply Hx|].
    split; apply elem_of_seqZ; vm_compute; split; congruence.
  - apply (inGrid_numbers _ _ 1%Z F64.MinInt64) in Hgrid as [_ Hy];
      [by apply Hy|].
    split; apply elem_of_seqZ; vm_compute; split; congruence.
  - apply (inGrid_numbers _ _ F64.MinInt64 F64.MinInt64) in Hgrid as [Hx _];
      [by apply Hx|].
    split; apply elem_of_seqZ; vm_compute; split; congruence.
Qed.

(** An entity lost at a NaN abscissa that presses down stays where it
    is: the tile test blocks the Y move as well. *)
Example lost_entity_stays :
  tY <$> (UpdateEntityMovement noTurn 1%N 0.033 lostSystem
          ≫= fun s' => GetComponent TransformComponent (mWorld s') 1%N)
  = Some 32.
Proof. vm_compute. reflexivity. Qed.

End ContainmentExample.

(** ** The AI behaviour engine *)

Section AIProps.
Import components ecs ai.
Local Open Scope float_scope.

Lemma save_ai (id : Entity) (a : AIComponent) (input : InputComponent)
  (w : World) :
  GetComponent AIComponent (save id a input w) id = Some a.
Proof. unfold save. tables. apply lookup_insert_eq. Qed.

Lemma save_input (id : Entity) (a : AIComponent) (input : InputComponent)
  (w : World) :
  GetComponent InputComponent (save id a input w) id = Some input.
Proof. unfold save. tables. apply lookup_insert_eq. Qed.

(** [save] writes the AI and Input of [id] only. *)
Lemma save_other_ai (id e : Entity) (a : AIComponent)
  (input : InputComponent) (w : World) :
  e ≠ id ->
  GetComponent AIComponent (save id a input w) e = GetComponent AIComponent w e.
Proof. intros Hne. unfold save. tables. by rewrite lookup_insert_ne. Qed.

(** The leash checks of the loop body: an entity that is evaluated, is not
    in "return", is beyond its leash and whose target, if it has one, still
    holds a Transform on its level, is saved in "return", with target 0 and
    no path. *)
Lemma updateEntity_leash (dt : float) (id : Entity) (s : AISystem)
  (a : AIComponent) (input : InputComponent) (transform : TransformComponent)
  (m : world.Map) :
  GetComponent AIComponent (aWorld s) id = Some a ->
  GetComponent InputComponent (aWorld s) id = Some input ->
  GetComponent TransformComponent (aWorld s) id = Some transform ->
  aMaps s !! tZ transform = Some m ->
  State a ≠ "return" ->
  beyondLeash transform a = true ->
  targetStands (aWorld s) transform a ->
  ∃ s' flow, updateEntity dt id s = Some (s', flow) ∧ sentHome s' id.
Proof.
  intros Ha Hi Ht Hm Hstate Hleash Htarget.
  unfold updateEntity. rewrite Ha, Hi, Ht, Hm.
  destruct (N.eqb_spec (TargetID a) 0) as [Hz|Hnz]; cbn [negb].
  - (* wandering *)
    destruct (String.eqb_spec (State a) "return") as [?|_]; [done|].
    unfold wander. rewrite Hleash. eexists _, _. split; [done|].
    eexists. cbn [aWorld]. rewrite save_ai. done.
  - (* engaged *)
    destruct Htarget as [?|(tt & Htt & HZ)]; [done|].
    unfold engaged. rewrite Htt, HZ, Z.eqb_refl.
    destruct (attackRangeOf (aWorld s) id) as [attackRange ranged].
    rewrite Hleash. eexists _, _. split; [done|].
    eexists. cbn [aWorld]. rewrite save_ai. done.
Qed.

(** The [return] of the leash check ends the whole [Update]: the entities
    after [id] in the query order are not evaluated this tick. *)
Lemma return_ends_update (dt : float) (id : Entity) (rest : list Entity)
  (s s' : AISystem) :
  updateEntity dt id s = Some (s', Return) ->
  UpdateOver (id :: rest) dt s = Some s'.
Proof. intros Hstep. simpl. by rewrite Hstep. Qed.

(** Only the leash check of an engaged entity ends the loop early. *)
Lemma updateEntity_Return (dt : float) (id : Entity) (s s' : AISystem) :
  updateEntity dt id s = Some (s', Return) ->
  ∃ a transform,
    GetComponent AIComponent (aWorld s) id = Some a ∧
    GetComponent TransformComponent (aWorld s) id = Some transform ∧
    TargetID a ≠ 0%N ∧ beyondLeash transform a = true.
Proof.
  unfold updateEntity, engaged, wander. intros Hstep.
  destruct (GetComponent AIComponent (aWorld s) id) as [a|]; [|done].
  destruct (GetComponent InputComponent (aWorld s) id) as [i|]; [|done].
  destruct (GetComponent TransformComponent (aWorld s) id) as [t|]; [|done].
  exists a, t. split; [done|]. split; [done|].
  destruct (aMaps s !! tZ t); [|done].
  destruct (N.eqb_spec (TargetID a) 0) as [Hz|Hnz]; cbn [negb] in Hstep.
  - repeat case_match; simplify_eq.
  - split; [done|].
    destruct (beyondLeash t a); [done|]. repeat case_match; simplify_eq.
Qed.

(** *** The tick and the leash *)

Lemma handledBefore_notin (id : Entity) (l : list Entity) :
  id ∉ handledBefore id l.
Proof.
  induction l as [|e l IH]; simpl; [apply not_elem_of_nil|].
  destruct (N.eqb_spec e id) as [->|Hne]; [apply not_elem_of_nil|].
  apply not_elem_of_cons. split; [done|exact IH].
Qed.

(** The evaluation of an entity writes its AI and its Input, nothing
    else. *)
Lemma updateEntity_saves (dt : float) (id : Entity) (s s' : AISystem)
  (flow : Flow) :
  updateEntity dt id s = Some (s', flow) ->
  aMaps s' = aMaps s ∧
  (aWorld s' = aWorld s ∨
   ∃ a input, aWorld s' = save id a input (aWorld s)).
Proof.
  unfold updateEntity, engaged. intros Hstep.
  repeat case_match; simplify_eq; cbn [aMaps aWorld]; eauto.
Qed.

Lemma updateEntity_frame (dt : float) (id : Entity) (s s' : AISystem)
  (flow : Flow) :
  updateEntity dt id s = Some (s', flow) ->
  aMaps s' = aMaps s ∧
  transforms (aWorld s') = transforms (aWorld s) ∧
  (∀ e, e ≠ id ->
        ais (aWorld s') !! e = ais (aWorld s) !! e ∧
        inputs (aWorld s') !! e = inputs (aWorld s) !! e).
Proof.
  intros Hstep.
  destruct (updateEntity_saves dt id s s' flow Hstep)
    as [Hmaps [->|(a & input & ->)]]; [done|].
  unfold save. tables. split_and!; [done..|].
  intros e Hne. by rewrite !lookup_insert_ne.
Qed.

(** The evaluation of [id] ends the tick exactly when [endsTick] says
    so. *)
Lemma updateEntity_flow (dt : float) (id : Entity) (s s' : AISystem)
  (flow : Flow) :
  updateEntity dt id s = Some (s', flow) ->
  flow = if endsTick s id then Return else Continue.
Proof.
  unfold updateEntity, endsTick, engaged. intros Hstep.
  destruct (GetComponent AIComponent (aWorld s) id) as [a|];
    [|by simplify_eq].
  destruct (GetComponent InputComponent (aWorld s) id) as [i|];
    [|by simplify_eq].
  destruct (GetComponent TransformComponent (aWorld s) id) as [t|];
    [|by simplify_eq].
  destruct (aMaps s !! tZ t) as [m|] eqn:Hm.
  2:{ rewrite bool_decide_eq_false_2 by (intros [? ?]; done).
      by simplify_eq. }
  rewrite bool_decide_eq_true_2 by eauto. cbn [andb].
  destruct (TargetID a =? 0)%N; cbn [negb andb] in *.
  { repeat case_match; simplify_eq; done. }
  destruct (GetComponent TransformComponent (aWorld s) (TargetID a))
    as [tt|]; [|by simplify_eq].
  destruct (tZ tt =? tZ t)%Z; cbn [andb]; [|by simplify_eq].
  destruct (attackRangeOf (aWorld s) id) as [attackRange ranged].
  destruct (beyondLeash t a); [by simplify_eq|].
  repeat case_match; simplify_eq; done.
Qed.

Lemma endsTick_ext (s s' : AISystem) (e : Entity) :
  aMaps s' = aMaps s ->
  transforms (aWorld s') = transforms (aWorld s) ->
  ais (aWorld s') !! e = ais (aWorld s) !! e ->
  inputs (aWorld s') !! e = inputs (aWorld s) !! e ->
  endsTick s' e = endsTick s e.
Proof.
  intros Hm Ht Ha Hi. unfold endsTick. tables.
  by rewrite Hm, Ht, Ha, Hi.
Qed.

(** The entities that are not evaluated keep their AI. *)
Lemma UpdateOver_frame (dt : float) (entities : list Entity)
  (s s' : AISystem) :
  UpdateOver entities dt s = Some s' ->
  aMaps s' = aMaps s ∧
  transforms (aWorld s') = transforms (aWorld s) ∧
  (∀ e, e ∉ entities ->
        ais (aWorld s') !! e = ais (aWorld s) !! e ∧
        inputs (aWorld s') !! e = inputs (aWorld s) !! e).
Proof.
  revert s. induction entities as [|x rest IH]; intros s Hrun.
  { cbn in Hrun. by simplify_eq. }
  cbn [UpdateOver] in Hrun.
  destruct (updateEntity dt x s) as [[s1 flow]|] eqn:Hstep; [|done].
  destruct (updateEntity_frame dt x s s1 flow Hstep) as (Hm & Ht & Hrest).
  assert (∀ e, e ∉ x :: rest -> e ≠ x) as Hne.
  { intros e He ->. apply He, list_elem_of_here. }
  destruct flow.
  - destruct (IH s1 Hrun) as (Hm' & Ht' & Hrest').
    split_and!; [congruence..|].
    intros e He. destruct (Hrest e (Hne e He)) as [Ha Hi].
    destruct (Hrest' e) as [Ha' Hi'].
    { intros Hin. apply He. by apply elem_of_cons; right. }
    split; congruence.
  - simplify_eq. split_and!; [done..|].
    intros e He. by apply Hrest, Hne.
Qed.

(** A tick that reaches [id] evaluates it, in a world in which [id] and
    every Transform are as the tick found them, and what the evaluation
    saves for [id] is what the tick leaves. *)
Lemma UpdateOver_reaches (dt : float) (id : Entity) (entities : list Entity)
  (s s' : AISystem) :
  NoDup entities ->
  reached s entities id ->
  UpdateOver entities dt s = Some s' ->
  ∃ s1 s2 flow,
    UpdateOver (handledBefore id entities) dt s = Some s1 ∧
    aMaps s1 = aMaps s ∧
    transforms (aWorld s1) = transforms (aWorld s) ∧
    ais (aWorld s1) !! id = ais (aWorld s) !! id ∧
    inputs (aWorld s1) !! id = inputs (aWorld s) !! id ∧
    updateEntity dt id s1 = Some (s2, flow) ∧
    ais (aWorld s') !! id = ais (aWorld s2) !! id.
Proof.
  revert s. induction entities as [|x rest IH]; intros s Hnodup [Hin Hpre] Hrun.
  { by apply not_elem_of_nil in Hin. }
  apply NoDup_cons in Hnodup as [Hx Hnodup].
  cbn [UpdateOver handledBefore] in *.
  destruct (N.eqb_spec x id) as [->|Hne].
  - destruct (updateEntity dt id s) as [[s2 flow]|] eqn:Hstep; [|done].
    exists s, s2, flow. split_and!; try done.
    destruct flow; [|by simplify_eq].
    by destruct (UpdateOver_frame dt rest s2 s' Hrun) as (_ & _ & Hrest);
      apply Hrest.
  - destruct (updateEntity dt x s) as [[s1 flow]|] eqn:Hstep; [|done].
    pose proof (updateEntity_flow dt x s s1 flow Hstep) as Hflow.
    rewrite (Hpre x) in Hflow by apply list_elem_of_here. subst flow.
    destruct (updateEntity_frame dt x s s1 Continue Hstep)
      as (Hm & Ht & Hrest).
    apply elem_of_cons in Hin as [->|Hin]; [done|].
    destruct (IH s1 Hnodup) as (s1' & s2 & flow & Hrun1 & Hm' & Ht' & Ha' & Hi'
                                & Hstep' & Hend); [|done|].
    { split; [done|]. intros e He.
      rewrite <- (Hpre e) by (by apply elem_of_cons; right).
      assert (e ≠ x) as Hex.
      { intros ->. apply Hx.
        clear -He. induction rest as [|y rest IH]; cbn in He.
        - by apply not_elem_of_nil in He.
        - destruct (y =? id)%N; [by apply not_elem_of_nil in He|].
          apply elem_of_cons in He as [->|He];
            [apply list_elem_of_here|apply elem_of_cons; right; auto]. }
      destruct (Hrest e Hex) as [Ha Hi]. by apply endsTick_ext. }
    exists s1', s2, flow. cbn [UpdateOver]. rewrite Hstep, Hrun1.
    destruct (Hrest id (not_eq_sym Hne)) as [Ha Hi].
    split_and!; try done; congruence.
Qed.

(** C1, amended.  Leash invariant: an NPC that the tick reaches (the query
    lists it, and no entity listed before it ends the tick by the leash
    check of an engaged entity), that is evaluated (it holds AI, Input and
    Transform and its level has a map), is not in "return", is farther from
    its spawn origin than its leash range (squared distance above the
    squared range) and whose target, if it has one, still holds a Transform
    on its level, is in "return" after the tick's AI update, with target 0
    and no path; and its own evaluation does not fail. *)
Theorem leash_invariant (dt : float) (entities : list Entity)
  (id : Entity) (s : AISystem) (a : AIComponent) (input : InputComponent)
  (transform : TransformComponent) (m : world.Map) :
  NoDup entities ->
  reached s entities id ->
  GetComponent AIComponent (aWorld s) id = Some a ->
  GetComponent InputComponent (aWorld s) id = Some input ->
  GetComponent TransformComponent (aWorld s) id = Some transform ->
  aMaps s !! tZ transform = Some m ->
  State a ≠ "return" ->
  beyondLeash transform a = true ->
  targetStands (aWorld s) transform a ->
  (∀ s1, UpdateOver (handledBefore id entities) dt s = Some s1 ->
         ∃ s2 flow, updateEntity dt id s1 = Some (s2, flow) ∧ sentHome s2 id) ∧
  (∀ s', UpdateOver entities dt s = Some s' -> sentHome s' id).
Proof.
  intros Hnodup Hreached Ha Hi Ht Hm Hstate Hleash Htarget.
  assert (∀ s1, aMaps s1 = aMaps s ->
            transforms (aWorld s1) = transforms (aWorld s) ->
            ais (aWorld s1) !! id = ais (aWorld s) !! id ->
            inputs (aWorld s1) !! id = inputs (aWorld s) !! id ->
            ∃ s2 flow, updateEntity dt id s1 = Some (s2, flow) ∧ sentHome s2 id)
    as Hstep.
  { intros s1 Hm1 Ht1 Ha1 Hi1.
    apply (updateEntity_leash dt id s1 a input transform m);
      try done; unfold targetStands in *; tables;
      rewrite ?Hm1, ?Ht1, ?Ha1, ?Hi1; done. }
  split.
  - intros s1 Hrun.
    destruct (UpdateOver_frame dt _ s s1 Hrun) as (Hm1 & Ht1 & Hrest).
    destruct (Hrest id (handledBefore_notin id entities)) as [Ha1 Hi1].
    by apply Hstep.
  - intros s' Hrun.
    destruct (UpdateOver_reaches dt id entities s s' Hnodup Hreached Hrun)
      as (s1 & s2 & flow & _ & Hm1 & Ht1 & Ha1 & Hi1 & Hstep1 & Hend).
    destruct (Hstep s1 Hm1 Ht1 Ha1 Hi1) as (s2' & flow' & Hstep2 & Hhome).
    rewrite Hstep1 in Hstep2. simplify_eq.
    unfold sentHome in *. tables. by rewrite Hend.
Qed.

(** *** Reach of the weapon *)

Lemma followPath_rest (path : list (float * float))
  (transform : TransformComponent) (fallback : float * float) :
  ∃ p rest, followPath path transform fallback = (p, rest).
Proof. destruct (followPath path transform fallback); eauto. Qed.

Lemma chase_state (m : world.Map) (dt : float) (hasLOS : bool)
  (self target : float * float) (tt transform : TransformComponent)
  (a a' : AIComponent) (input input' : InputComponent) :
  chase m dt hasLOS self target tt transform a input = Some (a', input') ->
  State a' = "chase".
Proof.
  unfold chase. intros Hc.
  repeat (case_match; simplify_eq; cbn in *); try done.
Qed.

Lemma weapon_named (id : string) (item : items.ItemDefinition) :
  items.Get id = Some item -> String.eqb id "" = false.
Proof.
  destruct (String.eqb_spec id "") as [->|]; [|done]. discriminate.
Qed.

(** C3, amended.  For a targeted NPC (the target holds a Transform on the
    level of the NPC) with an equipped weapon that is within its leash, the
    AI enters "attack", with the attack flag set, exactly when the target is
    within 80% of the range of the weapon, whatever its kind, and in
    multi-ray line of sight if that range is above 60 (the test the AI uses
    for a ranged weapon); otherwise it enters "chase". *)
Theorem attack_iff_in_reach (dt : float) (id : Entity) (s : AISystem)
  (a : AIComponent) (input : InputComponent)
  (transform tt : TransformComponent) (m : world.Map)
  (equip : EquipmentComponent) (item : items.ItemDefinition)
  (stats : AttackComponent) :
  GetComponent AIComponent (aWorld s) id = Some a ->
  GetComponent InputComponent (aWorld s) id = Some input ->
  GetComponent TransformComponent (aWorld s) id = Some transform ->
  aMaps s !! tZ transform = Some m ->
  TargetID a ≠ 0%N ->
  GetComponent TransformComponent (aWorld s) (TargetID a) = Some tt ->
  tZ tt = tZ transform ->
  GetComponent EquipmentComponent (aWorld s) id = Some equip ->
  items.Get (equipSlot equip SlotWeapon) = Some item ->
  items.WeaponStats item = Some stats ->
  beyondLeash transform a = false ->
  (inReach (aWorld s) m id (TargetID a) stats = true ->
   ∃ s' a' input',
     updateEntity dt id s = Some (s', Continue) ∧
     GetComponent AIComponent (aWorld s') id = Some a' ∧
     State a' = "attack" ∧
     GetComponent InputComponent (aWorld s') id = Some input' ∧
     Attack input' = true) ∧
  (inReach (aWorld s) m id (TargetID a) stats = false ->
   ∀ s' flow, updateEntity dt id s = Some (s', flow) ->
     ∃ a', GetComponent AIComponent (aWorld s') id = Some a' ∧
           State a' = "chase").
Proof.
  intros Ha Hi Ht Hm Hnz Htt HZ He Hitem Hstats Hleash.
  unfold updateEntity. rewrite Ha, Hi, Ht, Hm.
  apply N.eqb_neq in Hnz. rewrite Hnz. cbn [negb].
  unfold engaged. rewrite Htt, HZ, Z.eqb_refl.
  unfold attackRangeOf. rewrite He, (weapon_named _ _ Hitem). cbn [negb].
  rewrite Hitem, Hstats, Hleash.
  unfold inReach, centerDistance, sees.
  destruct (getEntityCenter (aWorld s) id) as [sx sy].
  destruct (getEntityCenter (aWorld s) (TargetID a)) as [gx gy].
  cbn [fst snd].
  set (reach := (_ <=? _) && negb (_ && negb _)).
  destruct reach; split; intros Hreach; try done.
  - eexists _, _, _. split; [done|]. cbn [aWorld].
    rewrite save_ai, save_input. done.
  - intros s' flow Hstep.
    destruct (chase _ _ _ _ _ _ _ _ _) as [[a' input']|] eqn:Hchase; [|done].
    injection Hstep as <- <-. exists a'. cbn [aWorld].
    rewrite save_ai. split; [done|]. by eapply chase_state.
Qed.

End AIProps.

(** *** Guards on a meadow *)

Section AIExamples.
Import components ecs ai.
Local Open Scope float_scope.

(** C1, as stated, fails: a guard beyond its leash whose target is gone is
    put in "wander" by the tick, not in "return"; the tick after sends it
    home. *)
Lemma leash_skipped_when_target_gone :
  beyondLeash (mkTransform 800 100 0 0) (guardAI "chase" 9%N) = true ∧
  State (guardAI "chase" 9%N) ≠ "return" ∧
  ∃ s', updateEntity 0.033 1%N strayedAfterGhost = Some (s', Continue) ∧
        UpdateOver [1%N] 0.033 strayedAfterGhost = Some s' ∧
        State <$> GetComponent AIComponent (aWorld s') 1%N = Some "wander" ∧
        ∃ s'', UpdateOver [1%N] 0.033 s' = Some s'' ∧ sentHome s'' 1%N.
Proof.
  split; [reflexivity|]. split; [discriminate|].
  eexists. split; [vm_compute; reflexivity|].
  split; [vm_compute; reflexivity|]. split; [reflexivity|].
  eexists. split; [vm_compute; reflexivity|].
  eexists. split; [reflexivity|]. done.
Qed.

(** The tick evaluates guard 2, idle at its spawn origin, and then guard 1,
    which it sends home. *)
Lemma leash_invariant_witness :
  ∃ s', UpdateOver [2%N; 1%N] 0.033 patrol = Some s' ∧ sentHome s' 1%N.
Proof.
  eexists. split; [vm_compute; reflexivity|].
  refine (proj2 (leash_invariant 0.033 [2%N; 1%N] 1%N patrol
                   (guardAI "chase" 3%N) zeroInput (mkTransform 800 100 0 0)
                   meadow _ _ eq_refl eq_refl eq_refl eq_refl _ eq_refl _)
            _ _).
  - apply NoDup_cons. split; [|apply NoDup_singleton].
    intros Hin. by apply list_elem_of_singleton in Hin.
  - split; [apply elem_of_cons; right; apply list_elem_of_here|].
    intros e He. cbn in He. apply list_elem_of_singleton in He as ->.
    reflexivity.
  - discriminate.
  - right. eexists. split; reflexivity.
  - vm_compute. reflexivity.
Defined.

(** Of two strayed guards the tick sends home the one the query lists
    first; its leash check ends the tick, which does not reach the other
    guard. *)
Example second_strayed_guard_waits :
  endsTick twoStrayed 1%N = true ∧
  ∃ s', UpdateOver [1%N; 2%N] 0.033 twoStrayed = Some s' ∧
        sentHome s' 1%N ∧
        State <$> GetComponent AIComponent (aWorld s') 2%N = Some "chase".
Proof.
  split; [reflexivity|].
  eexists. split; [vm_compute; reflexivity|].
  split; [|reflexivity]. eexists. split; [reflexivity|]. done.
Qed.

(** C2 fails on the code: when the query lists guard 1 before guard 2, the
    leash check of guard 1 ends [Update], and guard 2 is not evaluated (its
    state timer is still 5); had guard 2 come first, its timer would have
    run down by the tick. *)
Lemma leash_return_skips_other_entities :
  (StateTimer <$> GetComponent AIComponent (aWorld twoGuards) 2%N = Some 5) ∧
  (∃ s', UpdateOver [1%N; 2%N] 0.033 twoGuards = Some s' ∧
         sentHome s' 1%N ∧
         GetComponent AIComponent (aWorld s') 2%N
         = GetComponent AIComponent (aWorld twoGuards) 2%N) ∧
  (∃ s', UpdateOver [2%N; 1%N] 0.033 twoGuards = Some s' ∧
         sentHome s' 1%N ∧
         StateTimer <$> GetComponent AIComponent (aWorld s') 2%N
         = Some (5 - 0.033)).
Proof.
  split; [reflexivity|]. split.
  - eexists. split; [vm_compute; reflexivity|].
    split; [|reflexivity]. eexists. split; [reflexivity|]. done.
  - eexists. split; [vm_compute; reflexivity|].
    split; [|reflexivity]. eexists. split; [reflexivity|]. done.
Qed.

(** C3, as stated, fails: the target is within the full range of the melee
    weapon, and the guard chases instead of attacking. *)
Lemma melee_within_full_range_chases :
  (aType <$> (items.Get "sword_starter" ≫= items.WeaponStats)
   = Some AttackTypeMelee) ∧
  (aRange <$> (items.Get "sword_starter" ≫= items.WeaponStats) = Some 60) ∧
  centerDistance (aWorld (playerAt 155)) 1%N 2%N = 55 ∧
  (55 <=? 60) = true ∧
  ∃ s', updateEntity 0.033 1%N (playerAt 155) = Some (s', Continue) ∧
        State <$> GetComponent AIComponent (aWorld s') 1%N = Some "chase".
Proof.
  split; [reflexivity|]. split; [reflexivity|]. split; [reflexivity|].
  split; [reflexivity|].
  eexists. split; [vm_compute; reflexivity|]. reflexivity.
Qed.

(** With the player at x = 140 (40 pixels away, below 48) the guard
    attacks. *)
Lemma attack_iff_in_reach_witness :
  ∃ s' a' input',
    updateEntity 0.033 1%N (playerAt 140) = Some (s', Continue) ∧
    GetComponent AIComponent (aWorld s') 1%N = Some a' ∧
    State a' = "attack" ∧
    GetComponent InputComponent (aWorld s') 1%N = Some input' ∧
    Attack input' = true.
Proof.
  apply (attack_iff_in_reach 0.033 1%N (playerAt 140) (guardAI "chase" 2%N)
           zeroInput (mkTransform 100 100 0 0) (mkTransform 140 100 0 0)
           meadow swordsman
           (items.mkItem "sword_starter" "Rusty Sword" items.ItemTypeWeapon
              (Some (mkAttack 20 60 0.8 0 AttackTypeMelee)) SlotWeapon)
           (mkAttack 20 60 0.8 0 AttackTypeMelee));
    try reflexivity.
  discriminate.
Defined.

End AIExamples.

(** ** Projectiles, death and respawn *)

Section ProjectileProps.
Import components ecs server.
Local Open Scope float_scope.

Lemma hitTarget_None (pid : Entity) (proj : ProjectileComponent)
  (transform : TransformComponent) (w : World) (tid : Entity) :
  hitTarget pid proj transform w tid = None ↔ ¬ hits proj transform w tid.
Proof.
  unfold hitTarget, hits.
  destruct (N.eqb_spec tid (OwnerID proj)) as [->|Hne].
  - split; [|done]. intros _ [Hno _]. done.
  - destruct (GetComponent TransformComponent w tid) as [tt|].
    + destruct (GetComponent SpriteComponent w tid) as [sp|].
      * destruct (rectOverlap _ _ _ _ _ _ _ _) eqn:Hov.
        -- split; [by case_match|]. intros Hno. exfalso. apply Hno.
           split; [done|]. eauto.
        -- split; [|done]. intros _ (_ & tt' & sp' & [= <-] & [= <-] & Hov').
           congruence.
      * split; [|done]. by intros _ (_ & ? & ? & _ & ? & _).
    + split; [|done]. by intros _ (_ & ? & ? & ? & _).
Qed.

Lemma hitTarget_hit (pid : Entity) (proj : ProjectileComponent)
  (transform : TransformComponent) (w : World) (tid : Entity)
  (st : StatsComponent) :
  hits proj transform w tid ->
  GetComponent StatsComponent w tid = Some st ->
  hitTarget pid proj transform w tid
  = Some (Some (RemoveEntity pid (applyHit proj tid st w))).
Proof.
  intros (Hne & tt & sp & Htt & Hsp & Hov) Hst. unfold hitTarget.
  apply N.eqb_neq in Hne. rewrite Hne, Htt, Hsp, Hov, Hst. done.
Qed.

Lemma RemoveEntity_destroyed (pid : Entity) (w : World) :
  destroyed (RemoveEntity pid w) pid.
Proof.
  unfold destroyed, RemoveEntity. tables.
  repeat split; apply lookup_delete_eq.
Qed.

(** What [UpdateProjectile] returns when the projectile in flight hits
    [tid] first. *)
Lemma UpdateProjectileOver_hit (targets : list Entity) (pid tid : Entity)
  (s : GameServer) (transform : TransformComponent)
  (proj : ProjectileComponent) (st : StatsComponent) :
  inFlight s pid transform proj ->
  firstHit targets s pid transform proj tid ->
  GetComponent StatsComponent (scanned s pid transform proj) tid = Some st ->
  UpdateProjectileOver targets pid s
  = Some (withWorld s
            (RemoveEntity pid
               (applyHit (movedOf s pid transform proj).2 tid st
                  (scanned s pid transform proj)))).
Proof.
  unfold inFlight, firstHit, scanned, movedOf.
  intros (Ht & Hp & Hlife & Hterrain) (l1 & l2 & Hl & Hpre & Hhit) Hst.
  unfold UpdateProjectileOver. rewrite Ht, Hp.
  destruct (advance transform proj _) as [transform' proj'].
  cbn [fst snd] in *. rewrite Hlife, Hterrain.
  assert (forReturn targets
            (hitTarget pid proj' transform'
               (AddComponent pid proj' (AddComponent pid transform' (World_ s))))
          = Some (Some (RemoveEntity pid
                          (applyHit proj' tid st
                             (AddComponent pid proj'
                                (AddComponent pid transform' (World_ s)))))))
    as ->; [|done].
  apply forReturn_Some. exists l1, tid, l2. split; [done|]. split.
  - intros e He. apply hitTarget_None. by apply Hpre.
  - by apply hitTarget_hit.
Qed.

(** Rewrite the lookups of a world built from inserts and deletes. *)
Ltac lookups :=
  unfold RemoveEntity, despawn, scanned in *; tables;
  simplify_map_eq; try done.

(** The outcome of the first hit of a projectile in flight. *)
Lemma hit_outcome (targets : list Entity) (pid tid : Entity)
  (s : GameServer) (transform : TransformComponent)
  (proj : ProjectileComponent) (st : StatsComponent) :
  inFlight s pid transform proj ->
  firstHit targets s pid transform proj tid ->
  GetComponent StatsComponent (World_ s) tid = Some st ->
  tid ≠ pid ->
  ∃ s', UpdateProjectileOver targets pid s = Some s' ∧
    destroyed (World_ s') pid ∧
    (∀ e, e ≠ tid -> e ≠ pid ->
       GetComponent StatsComponent (World_ s') e
       = GetComponent StatsComponent (World_ s) e) ∧
    ((healthAfter st proj <=? 0) = true ∧
       deathOf (World_ s) (World_ s') tid
     ∨ (healthAfter st proj <=? 0) = false ∧
       aggroOf (World_ s) (World_ s') tid (OwnerID proj) ∧
       GetComponent StatsComponent (World_ s') tid
       = Some (setHealth st (healthAfter st proj))
     ∨ ((healthAfter st proj <=? 0) = true ∧
          GetComponent RespawnComponent (World_ s) tid = None
        ∨ (healthAfter st proj <=? 0) = false ∧
          (GetComponent AIComponent (World_ s) tid = None
           ∨ ∃ a, GetComponent AIComponent (World_ s) tid = Some a ∧
                  TargetID a ≠ 0%N)) ∧
       untouched (World_ s) (World_ s') tid ∧
       GetComponent StatsComponent (World_ s') tid
       = Some (setHealth st (healthAfter st proj))).
Proof.
  intros Hfl Hfirst Hst Hne.
  assert (GetComponent StatsComponent (scanned s pid transform proj) tid
          = Some st) as Hst' by (unfold scanned; tables; done).
  rewrite (UpdateProjectileOver_hit targets pid tid s transform proj st
             Hfl Hfirst Hst').
  eexists. split; [done|]. cbn [World_ withWorld].
  split; [apply RemoveEntity_destroyed|].
  unfold movedOf, advance. cbn [snd OwnerID pDamage].
  unfold applyHit. cbn [OwnerID pDamage]. fold (healthAfter st proj).
  set (h := healthAfter st proj). unfold afterHit.
  split.
  { intros e He1 He2. repeat case_match; lookups. }
  destruct (h <=? 0) eqn:Hh.
  - destruct (respawns (World_ s) !! tid) as [r|] eqn:Hr.
    + left. split; [done|]. exists r.
      assert (GetComponent RespawnComponent
                (AddComponent tid (setHealth st h)
                   (scanned s pid transform proj)) tid = Some r) as ->
        by lookups.
      split; [done|]. split; [repeat split; lookups|lookups].
    + right. right. split; [left; done|].
      assert (GetComponent RespawnComponent
                (AddComponent tid (setHealth st h)
                   (scanned s pid transform proj)) tid = None) as ->
        by lookups.
      split; [repeat split; lookups|lookups].
  - destruct (ais (World_ s) !! tid) as [a|] eqn:Ha.
    + assert (GetComponent AIComponent
                (AddComponent tid (setHealth st h)
                   (scanned s pid transform proj)) tid = Some a) as ->
        by lookups.
      destruct (N.eqb_spec (TargetID a) 0) as [Hz|Hnz].
      * right. left. split; [done|]. split; [|lookups].
        exists a. split; [done|]. split; [done|]. lookups.
      * right. right. split; [right; split; [done|]; right; eauto|].
        split; [repeat split; lookups|lookups].
    + assert (GetComponent AIComponent
                (AddComponent tid (setHealth st h)
                   (scanned s pid transform proj)) tid = None) as ->
        by lookups.
      right. right. split; [right; split; [done|]; left; done|].
      split; [repeat split; lookups|lookups].
Qed.

(** C6, amended.  A projectile in flight (advanced, not expired, not
    stopped by terrain) scans the entities holding Stats in query order; the
    first one it overlaps, its owner apart, loses the damage from its health,
    clamped at zero.  Then at most one follow-on effect fires: the death
    transition when the health is at zero and the target holds a Respawn
    component, or the reactive aggro when the health is above zero and the
    target holds an AI component without target; in every other case the
    target only loses health.  The projectile is destroyed after this first
    hit and no other entity is damaged.  A projectile that overlaps no
    target flies on and damages nothing. *)
Theorem projectile_hit_resolution :
  (∀ targets pid tid s transform proj st,
     inFlight s pid transform proj ->
     firstHit targets s pid transform proj tid ->
     GetComponent StatsComponent (World_ s) tid = Some st ->
     tid ≠ pid ->
     ∃ s', UpdateProjectileOver targets pid s = Some s' ∧
       destroyed (World_ s') pid ∧
       (∀ e, e ≠ tid -> e ≠ pid ->
          GetComponent StatsComponent (World_ s') e
          = GetComponent StatsComponent (World_ s) e) ∧
       ((healthAfter st proj <=? 0) = true ∧
          deathOf (World_ s) (World_ s') tid
        ∨ (healthAfter st proj <=? 0) = false ∧
          aggroOf (World_ s) (World_ s') tid (OwnerID proj) ∧
          GetComponent StatsComponent (World_ s') tid
          = Some (setHealth st (healthAfter st proj))
        ∨ ((healthAfter st proj <=? 0) = true ∧
             GetComponent RespawnComponent (World_ s) tid = None
           ∨ (healthAfter st proj <=? 0) = false ∧
             (GetComponent AIComponent (World_ s) tid = None
              ∨ ∃ a, GetComponent AIComponent (World_ s) tid = Some a ∧
                     TargetID a ≠ 0%N)) ∧
          untouched (World_ s) (World_ s') tid ∧
          GetComponent StatsComponent (World_ s') tid
          = Some (setHealth st (healthAfter st proj)))) ∧
  (∀ targets pid s transform proj,
     inFlight s pid transform proj ->
     (∀ e, e ∈ targets ->
        ¬ hits (movedOf s pid transform proj).2
            (movedOf s pid transform proj).1
            (scanned s pid transform proj) e) ->
     UpdateProjectileOver targets pid s
     = Some (withWorld s (scanned s pid transform proj)) ∧
     ∀ e, e ≠ pid ->
       GetComponent StatsComponent (scanned s pid transform proj) e
       = GetComponent StatsComponent (World_ s) e).
Proof.
  split.
  - intros targets pid tid s transform proj st Hfl Hfirst Hst Hne.
    exact (hit_outcome targets pid tid s transform proj st Hfl Hfirst Hst Hne).
  - intros targets pid s transform proj (Ht & Hp & Hlife & Hterrain) Hmiss.
    split; [|intros e He; lookups].
    unfold UpdateProjectileOver, scanned, movedOf in *. rewrite Ht, Hp.
    destruct (advance transform proj _) as [transform' proj'].
    cbn [fst snd] in *. rewrite Hlife, Hterrain.
    assert (forReturn targets
              (hitTarget pid proj' transform'
                 (AddComponent pid proj'
                    (AddComponent pid transform' (World_ s)))) = None)
      as ->; [|done].
    apply forReturn_None. intros e He. apply hitTarget_None. by apply Hmiss.
Qed.

(** *** Respawn *)

Lemma respawnEntity_other (dt : float) (e id : Entity) (w : World) :
  e ≠ id ->
  GetComponent RespawnComponent (respawnEntity dt e w) id
  = GetComponent RespawnComponent w id ∧
  GetComponent TransformComponent (respawnEntity dt e w) id
  = GetComponent TransformComponent w id ∧
  GetComponent StatsComponent (respawnEntity dt e w) id
  = GetComponent StatsComponent w id.
Proof.
  intros Hne. unfold respawnEntity. repeat case_match; lookups.
Qed.

Lemma UpdateRespawnOver_other (dt : float) (ents : list Entity)
  (id : Entity) (w : World) :
  id ∉ ents ->
  GetComponent RespawnComponent (UpdateRespawnOver ents dt w) id
  = GetComponent RespawnComponent w id ∧
  GetComponent TransformComponent (UpdateRespawnOver ents dt w) id
  = GetComponent TransformComponent w id ∧
  GetComponent StatsComponent (UpdateRespawnOver ents dt w) id
  = GetComponent StatsComponent w id.
Proof.
  unfold UpdateRespawnOver. revert w.
  induction ents as [|e ents IH]; intros w Hnotin; [done|].
  apply not_elem_of_cons in Hnotin as [Hne Hnotin]. cbn [foldl].
  destruct (IH (respawnEntity dt e w) Hnotin) as (-> & -> & ->).
  by apply respawnEntity_other.
Qed.

(** The body of [UpdateRespawn] for a dead entity whose timer runs out
    this tick. *)
Lemma respawnEntity_due (dt : float) (id : Entity) (w : World)
  (r : RespawnComponent) :
  GetComponent RespawnComponent w id = Some r ->
  IsDead r = true ->
  (RespawnTimer r - dt <=? 0) = true ->
  GetComponent RespawnComponent (respawnEntity dt id w) id
  = Some (mkRespawn (rSpawnX r) (rSpawnY r) (RespawnTimer r - dt) false) ∧
  GetComponent TransformComponent (respawnEntity dt id w) id
  = Some (mkTransform (rSpawnX r) (rSpawnY r) 0 0) ∧
  GetComponent StatsComponent (respawnEntity dt id w) id
  = Some (mkStats 50 50 0).
Proof.
  intros Hr Hdead Hdue. unfold respawnEntity.
  rewrite Hr, Hdead, Hdue. cbn [negb]. repeat split; lookups.
Qed.

(** C5, amended.  Death and respawn round trip: an entity that holds a
    Respawn component and whose health a projectile hit drives to zero
    loses its Transform, Physics, Sprite, AI, Input and Stats, and its
    Respawn is armed at 30 seconds; the tick of [UpdateRespawn] at which
    that timer runs out gives it back a Transform at exactly its spawn
    coordinates and Stats whose current health equals the maximum
    health. *)
Theorem death_respawn_round_trip :
  (∀ targets pid tid s transform proj st r,
     inFlight s pid transform proj ->
     firstHit targets s pid transform proj tid ->
     GetComponent StatsComponent (World_ s) tid = Some st ->
     tid ≠ pid ->
     (healthAfter st proj <=? 0) = true ->
     GetComponent RespawnComponent (World_ s) tid = Some r ->
     ∃ s', UpdateProjectileOver targets pid s = Some s' ∧
           stripped (World_ s') tid ∧
           GetComponent RespawnComponent (World_ s') tid
           = Some (mkRespawn (rSpawnX r) (rSpawnY r) 30 true)) ∧
  (∀ respawners dt w id r,
     NoDup respawners -> id ∈ respawners ->
     GetComponent RespawnComponent w id = Some r ->
     IsDead r = true ->
     (RespawnTimer r - dt <=? 0) = true ->
     GetComponent TransformComponent (UpdateRespawnOver respawners dt w) id
     = Some (mkTransform (rSpawnX r) (rSpawnY r) 0 0) ∧
     ∃ st, GetComponent StatsComponent (UpdateRespawnOver respawners dt w) id
           = Some st ∧
           CurrentHealth st = MaxHealth st).
Proof.
  split.
  - intros targets pid tid s transform proj st r Hfl Hfirst Hst Hne Hzero Hr.
    destruct (hit_outcome targets pid tid s transform proj st Hfl Hfirst
                Hst Hne)
      as (s' & Hrun & _ & _ & Hcases).
    exists s'. split; [done|].
    destruct Hcases as [[_ (r' & Hr' & Hstrip & Harmed)]
                       |[[Hpos _]|[[[_ Hnone]|[Hpos _]] _]]];
      try congruence.
    rewrite Hr in Hr'. injection Hr' as <-. done.
  - intros respawners dt w id r Hnodup Hin Hr Hdead Hdue.
    apply list_elem_of_split in Hin as (l1 & l2 & ->).
    apply NoDup_app in Hnodup as (_ & Hl1 & Hl2).
    apply NoDup_cons in Hl2 as [Hl2 _].
    assert (id ∉ l1) as Hnot1.
    { intros Hin1. apply (Hl1 id Hin1). apply list_elem_of_here. }
    unfold UpdateRespawnOver. rewrite foldl_app. cbn [foldl].
    fold (UpdateRespawnOver l1 dt w).
    set (w1 := UpdateRespawnOver l1 dt w).
    fold (UpdateRespawnOver l2 dt (respawnEntity dt id w1)).
    destruct (UpdateRespawnOver_other dt l1 id w Hnot1) as (Hr1 & _ & _).
    fold w1 in Hr1. rewrite Hr in Hr1.
    destruct (respawnEntity_due dt id w1 r Hr1 Hdead Hdue) as (_ & Ht & Hs).
    destruct (UpdateRespawnOver_other dt l2 id (respawnEntity dt id w1) Hl2)
      as (_ & -> & ->).
    split; [done|]. eexists. split; [done|]. done.
Qed.

End ProjectileProps.

(** *** An arrow on the meadow *)

Section ProjectileExamples.
Import components ecs server.
Local Open Scope float_scope.

(** C6, as stated, fails: the hit takes 10 health off the guard and
    neither follow-on effect fires: the guard does not die and its target
    does not change. *)
Lemma hit_with_neither_effect :
  ∃ s', UpdateProjectileOver [1%N; 2%N] 5%N arrowAtBusyGuard = Some s' ∧
        CurrentHealth <$> GetComponent StatsComponent (World_ s') 2%N
        = Some 40 ∧
        ¬ deathOf (World_ arrowAtBusyGuard) (World_ s') 2%N ∧
        ¬ aggroOf (World_ arrowAtBusyGuard) (World_ s') 2%N 1%N.
Proof.
  eexists. split; [vm_compute; reflexivity|]. split; [reflexivity|]. split.
  - intros (r & _ & (Ht & _) & _). discriminate Ht.
  - intros (a & Ha & Hz & _). injection Ha as <-. discriminate Hz.
Qed.

Lemma arrow_in_flight (health : float) (target : Entity) :
  inFlight (onField (withArrow 5%N 1%N 10 (skirmish health target 100))) 5%N
    (mkTransform 104 110 0 0) (mkProjectile 1%N 10 20).
Proof. repeat split; reflexivity. Qed.

Lemma arrow_first_hit (health : float) (target : Entity) :
  firstHit [1%N; 2%N] (onField (withArrow 5%N 1%N 10 (skirmish health target 100)))
    5%N (mkTransform 104 110 0 0) (mkProjectile 1%N 10 20) 2%N.
Proof.
  exists [1%N], []. split; [done|]. split.
  - intros e He. apply list_elem_of_singleton in He as ->. by intros [Hne _].
  - split; [done|]. eexists _, _. repeat split; reflexivity.
Qed.

(** The idle guard is hit, survives, and turns on the player. *)
Lemma projectile_hit_resolution_witness :
  ∃ s', UpdateProjectileOver [1%N; 2%N] 5%N arrowAtIdleGuard = Some s' ∧
        destroyed (World_ s') 5%N ∧
        aggroOf (World_ arrowAtIdleGuard) (World_ s') 2%N 1%N.
Proof.
  destruct (proj1 projectile_hit_resolution [1%N; 2%N] 5%N 2%N
              arrowAtIdleGuard (mkTransform 104 110 0 0)
              (mkProjectile 1%N 10 20) (mkStats 50 50 0)
              (arrow_in_flight 50 0%N) (arrow_first_hit 50 0%N)
              eq_refl ltac:(done))
    as (s' & Hrun & Hgone & _ & Hcases).
  exists s'. split; [exact Hrun|]. split; [exact Hgone|].
  destruct Hcases as [[Hz _]|[(_ & Haggro & _)|[[[Hz _]|[_ Hai]] _]]].
  - discriminate Hz.
  - exact Haggro.
  - discriminate Hz.
  - destruct Hai as [Hnone|(a & Ha & Hnz)]; [discriminate Hnone|].
    injection Ha as <-. done.
Defined.

(** C5, as stated, fails: the hit drives the health of the player to zero
    and strips nothing; there is no Respawn timer to arm. *)
Lemma lethal_hit_without_respawn :
  ∃ s', UpdateProjectileOver [2%N; 1%N] 5%N arrowAtPlayer = Some s' ∧
        CurrentHealth <$> GetComponent StatsComponent (World_ s') 1%N
        = Some 0 ∧
        is_Some (GetComponent TransformComponent (World_ s') 1%N) ∧
        GetComponent RespawnComponent (World_ s') 1%N = None.
Proof.
  eexists. split; [vm_compute; reflexivity|]. split; [reflexivity|].
  split; [by eexists|reflexivity].
Qed.

(** The guard dies: stripped, with its Respawn armed at 30 seconds. *)
Lemma death_respawn_round_trip_witness :
  ∃ s', UpdateProjectileOver [1%N; 2%N] 5%N arrowAtWeakGuard = Some s' ∧
        stripped (World_ s') 2%N ∧
        GetComponent RespawnComponent (World_ s') 2%N
        = Some (mkRespawn 100 100 30 true).
Proof.
  exact (proj1 death_respawn_round_trip [1%N; 2%N] 5%N 2%N
           arrowAtWeakGuard (mkTransform 104 110 0 0)
           (mkProjectile 1%N 10 20) (mkStats 50 10 0)
           (mkRespawn 100 100 0 false)
           (arrow_in_flight 10 0%N) (arrow_first_hit 10 0%N)
           eq_refl ltac:(done) eq_refl eq_refl).
Defined.

(** The whole round trip: the dead guard stays away for 909 ticks of 33 ms
    and is back at its spawn origin with full health at the 910th. *)
Example guard_respawns_after_910_ticks :
  GetComponent TransformComponent (ticksLater 909) 2%N = None ∧
  GetComponent TransformComponent (ticksLater 910) 2%N
  = Some (mkTransform 100 100 0 0) ∧
  GetComponent StatsComponent (ticksLater 910) 2%N = Some (mkStats 50 50 0).
Proof. vm_compute. done. Qed.

End ProjectileExamples.

(** ** Attacks: edge trigger and cooldown *)

Section AttackProps.
Import components ecs server.
Local Open Scope float_scope.

Lemma next_id_moves (n : N) : ((n + 1) mod 2 ^ 64 =? n)%N = false.
Proof.
  apply N.eqb_neq. intros Heq.
  pose proof (N.mod_upper_bound (n + 1) (2 ^ 64)) as Hlt.
  destruct (N.lt_ge_cases (n + 1) (2 ^ 64)) as [Hsmall|Hbig].
  - rewrite N.mod_small in Heq by done. lia.
  - assert (n + 1 = 2 ^ 64 ∨ 2 ^ 64 < n + 1)%N as [Htop|Habove] by lia.
    + rewrite Htop, N.Div0.mod_same in Heq. lia.
    + lia.
Qed.

(** [HandleAttack] writes neither Input nor Equipment nor the players,
    removes no Transform, and writes the Attack component of the attacker
    only. *)
Lemma HandleAttack_frame (e : Entity) (now : float) (s : GameServer) :
  inputs (World_ (HandleAttack e now s)) = inputs (World_ s) ∧
  equipments (World_ (HandleAttack e now s)) = equipments (World_ s) ∧
  Players (HandleAttack e now s) = Players s ∧
  (∀ id, is_Some (transforms (World_ s) !! id) ->
         is_Some (transforms (World_ (HandleAttack e now s)) !! id)) ∧
  (∀ id, id ≠ e ->
         attacks (World_ (HandleAttack e now s)) !! id
         = attacks (World_ s) !! id).
Proof.
  unfold HandleAttack, handleSpellCast, spawnAttack, withWorld, NewEntity.
  repeat case_match; simplify_eq; cbn [World_ Players]; tables;
    repeat split; try done; intros id Hid;
    rewrite ?lookup_insert_is_Some', ?lookup_insert_ne by done; auto.
Qed.

Lemma handleAttacks_app (l1 l2 : list Entity) (clk : Entity -> float)
  (s : GameServer) :
  handleAttacks (l1 ++ l2) clk s = handleAttacks l2 clk (handleAttacks l1 clk s).
Proof. revert s. induction l1 as [|e l1 IH]; intros s; simpl; auto. Qed.

Lemma handleAttacks_frame (l : list Entity) (clk : Entity -> float)
  (s : GameServer) :
  inputs (World_ (handleAttacks l clk s)) = inputs (World_ s) ∧
  equipments (World_ (handleAttacks l clk s)) = equipments (World_ s) ∧
  Players (handleAttacks l clk s) = Players s ∧
  (∀ id, is_Some (transforms (World_ s) !! id) ->
         is_Some (transforms (World_ (handleAttacks l clk s)) !! id)) ∧
  (∀ id, id ∉ l ->
         attacks (World_ (handleAttacks l clk s)) !! id
         = attacks (World_ s) !! id).
Proof.
  revert s. induction l as [|e l IH]; intros s; [done|]. simpl.
  destruct (IH (HandleAttack e (clk e) s)) as (Hi & He & Hp & Ht & Ha).
  destruct (HandleAttack_frame e (clk e) s) as (Hi' & He' & Hp' & Ht' & Ha').
  rewrite Hi, He, Hp. repeat split; try done.
  - intros id Hid. apply Ht, Ht', Hid.
  - intros id Hid. apply not_elem_of_cons in Hid as [Hne Hid].
    rewrite Ha by done. by apply Ha'.
Qed.

Lemma handledBefore_split (id : Entity) (l : list Entity) :
  id ∈ l -> ∃ rest, l = handledBefore id l ++ id :: rest.
Proof.
  induction l as [|e l IH]; intros Hin; [by apply not_elem_of_nil in Hin|].
  simpl. destruct (N.eqb_spec e id) as [->|Hne]; [by exists l|].
  apply elem_of_cons in Hin as [->|Hin]; [done|].
  destruct (IH Hin) as [rest Hrest]. exists rest. simpl. by f_equal.
Qed.

Lemma armed_ext (s s' : GameServer) (id : Entity) (input : InputComponent)
  (weapon : AttackComponent) :
  inputs (World_ s') = inputs (World_ s) ->
  equipments (World_ s') = equipments (World_ s) ->
  (is_Some (transforms (World_ s) !! id) ->
   is_Some (transforms (World_ s') !! id)) ->
  armed s id input weapon -> armed s' id input weapon.
Proof.
  intros Hi He Ht (Hin & Hatt & Hsp & Hw & Htr). unfold armed.
  rewrite Hi. repeat split; auto.
  unfold weaponOf in *. tables. by rewrite He.
Qed.

Lemma HandleAttack_held (id : Entity) (now : float) (s : GameServer) :
  held s id = true -> HandleAttack id now s = s.
Proof.
  unfold held, HandleAttack. intros Hheld.
  destruct (Players s !! id) as [player|]; [|done]. rewrite Hheld.
  repeat case_match; done.
Qed.

Lemma HandleAttack_cooling (id : Entity) (now : float) (s : GameServer)
  (input : InputComponent) (weapon : AttackComponent) :
  armed s id input weapon ->
  (now - lastAttack s id <? Cooldown weapon) = true ->
  HandleAttack id now s = s.
Proof.
  intros (Hin & Hatt & Hsp & Hw & Htr) Hcool. unfold HandleAttack.
  tables. rewrite Hin, Hatt, Hsp, Hw. cbn [negb String.eqb].
  unfold lastAttack in Hcool. tables. rewrite Hcool.
  by destruct (match Players s !! id with Some _ => _ | None => _ end).
Qed.

Lemma HandleAttack_fire (id : Entity) (now : float) (s : GameServer)
  (input : InputComponent) (weapon : AttackComponent) :
  armed s id input weapon ->
  held s id = false ->
  (now - lastAttack s id <? Cooldown weapon) = false ->
  attackStarted id s (HandleAttack id now s) = true ∧
  lastAttack (HandleAttack id now s) id = now.
Proof.
  intros (Hin & Hatt & Hsp & Hw & [transform Htr]) Hheld Hready.
  unfold HandleAttack, held in *.
  tables. rewrite Hin, Hatt, Hheld, Hsp, Hw. cbn [negb String.eqb].
  unfold lastAttack in Hready. tables. rewrite Hready, Htr.
  unfold attackStarted, lastAttack, spawnAttack, NewEntity, withWorld.
  destruct (aType weapon);
    destruct (sprites (World_ s) !! id);
    repeat match goal with
           | |- context [let '(_, _) := ?d in _] => destruct d
           end;
    cbn [World_]; tables; rewrite next_id_moves;
    rewrite !lookup_insert_eq; cbn [negb andb OwnerID];
    rewrite N.eqb_refl; done.
Qed.

Lemma attackStarted_same (id : Entity) (s : GameServer) :
  attackStarted id s s = false.
Proof. unfold attackStarted. by rewrite N.eqb_refl. Qed.

Lemma lastAttack_ext (s s' : GameServer) (id : Entity) :
  attacks (World_ s') !! id = attacks (World_ s) !! id ->
  lastAttack s' id = lastAttack s id.
Proof. intros Heq. unfold lastAttack. tables. by rewrite Heq. Qed.

Lemma held_ext (s s' : GameServer) (id : Entity) :
  Players s' = Players s -> held s' id = held s id.
Proof. intros Heq. unfold held. by rewrite Heq. Qed.

(** What one attack phase does for an armed entity [id]: whether it begins
    an attack, and what the next phase will find. *)
Lemma tick_effect (t : Tick) (id : Entity) (s : GameServer)
  (input : InputComponent) (weapon : AttackComponent) :
  NoDup (order t) -> id ∈ order t -> armed s id input weapon ->
  firesIn t id s
  = negb (held s id)
    && negb (clock t id - lastAttack s id <? Cooldown weapon) ∧
  armed (attackPhase (order t) (clock t) s) id input weapon ∧
  held (attackPhase (order t) (clock t) s) id
  = bool_decide (is_Some (Players s !! id)) ∧
  (Players s !! id = None ->
   Players (attackPhase (order t) (clock t) s) !! id = None) ∧
  lastAttack (attackPhase (order t) (clock t) s) id
  = (if firesIn t id s then clock t id else lastAttack s id).
Proof.
  intros Hnodup Hin Harmed. unfold firesIn, attackPhase.
  rewrite bool_decide_eq_true_2 by done. cbn [andb].
  destruct (handledBefore_split id (order t) Hin) as [rest Horder].
  pose proof (handledBefore_notin id (order t)) as Hpre.
  remember (handledBefore id (order t)) as pre eqn:Hpre_def.
  clear Hpre_def.
  set (before := handleAttacks pre (clock t) s).
  destruct (handleAttacks_frame pre (clock t) s) as (Hi & He & Hp & Ht & Ha).
  fold before in Hi, He, Hp, Ht, Ha.
  assert (armed before id input weapon) as Harmed1.
  { eapply armed_ext; [exact Hi|exact He|apply Ht|exact Harmed]. }
  assert (held before id = held s id) as Hheld1 by (by apply held_ext).
  assert (lastAttack before id = lastAttack s id) as Hlast1.
  { apply lastAttack_ext. by apply Ha. }
  assert (id ∉ rest) as Hrest.
  { rewrite Horder in Hnodup. apply NoDup_app in Hnodup as (_ & _ & Hn).
    by apply NoDup_cons in Hn as [? _]. }
  assert (handleAttacks (order t) (clock t) s
          = handleAttacks rest (clock t)
              (HandleAttack id (clock t id) before)) as ->.
  { rewrite Horder, handleAttacks_app. done. }
  set (mid := HandleAttack id (clock t id) before).
  destruct (HandleAttack_frame id (clock t id) before)
    as (Hi2 & He2 & Hp2 & Ht2 & _).
  fold mid in Hi2, He2, Hp2, Ht2.
  destruct (handleAttacks_frame rest (clock t) mid)
    as (Hi3 & He3 & Hp3 & Ht3 & Ha3).
  set (after := handleAttacks rest (clock t) mid) in *.
  assert (armed after id input weapon) as Harmed3.
  { eapply armed_ext; [exact Hi3|exact He3|apply Ht3|].
    eapply armed_ext; [exact Hi2|exact He2|apply Ht2|exact Harmed1]. }
  assert (Players after = Players s) as Hplayers by congruence.
  assert (lastAttack (recordPrevInputs after) id = lastAttack mid id) as ->.
  { apply lastAttack_ext. cbn [recordPrevInputs World_]. by apply Ha3. }
  assert (attackStarted id before mid
          = negb (held s id)
            && negb (clock t id - lastAttack s id <? Cooldown weapon)
          ∧ lastAttack mid id
            = (if attackStarted id before mid then clock t id
               else lastAttack s id)) as [Hfire Hlast].
  { rewrite <- Hheld1, <- Hlast1. unfold mid.
    destruct (held before id) eqn:Hh.
    - rewrite HandleAttack_held by done.
      rewrite attackStarted_same. done.
    - destruct (clock t id - lastAttack before id <? Cooldown weapon) eqn:Hc.
      + rewrite (HandleAttack_cooling id _ before input weapon) by done.
        rewrite attackStarted_same. done.
      + destruct (HandleAttack_fire id (clock t id) before input weapon
                    Harmed1 Hh Hc) as [-> ->]. done. }
  split; [exact Hfire|]. split.
  { destruct Harmed3 as (? & ? & ? & ? & ?). done. }
  assert (∀ p, Players s !! id = p ->
            Players (recordPrevInputs after) !! id
            = (fun player => mkPlayer (Username player) input) <$> p)
    as Hrec.
  { intros p <-. cbn [recordPrevInputs Players].
    rewrite map_lookup_imap, Hplayers.
    destruct Harmed3 as (Hin3 & _). tables. rewrite Hin3.
    by destruct (Players s !! id). }
  split; [|split; [|exact Hlast]].
  - unfold held at 1. rewrite (Hrec _ eq_refl).
    destruct Harmed as (_ & Hatt & _).
    destruct (Players s !! id) as [player|].
    + rewrite bool_decide_eq_true_2 by eauto. cbn. exact Hatt.
    + rewrite bool_decide_eq_false_2 by (intros [? ?]; done). done.
  - intros Hnone. by rewrite (Hrec _ Hnone).
Qed.

(** A player whose previous input had the flag begins no attack, however
    long the flag stays up. *)
Lemma firings_held (ticks : list Tick) (id : Entity) (s : GameServer)
  (input : InputComponent) (weapon : AttackComponent) :
  eachTick ticks id -> armed s id input weapon -> held s id = true ->
  firings ticks id s = (fun _ => false) <$> ticks.
Proof.
  revert s. induction ticks as [|t ticks IH]; intros s Hticks Harmed Hheld;
    [done|].
  apply Forall_cons in Hticks as [[Hnodup Hin] Hticks].
  destruct (tick_effect t id s input weapon Hnodup Hin Harmed)
    as (Hfire & Harmed' & Hheld' & _ & _).
  cbn [firings fmap list_fmap]. rewrite Hfire, Hheld. cbn [negb andb].
  f_equal. apply IH; [done..|].
  rewrite Hheld'. apply bool_decide_eq_true_2.
  unfold held in Hheld. by destruct (Players s !! id); eauto.
Qed.

(** An entity that is no player attacks at the cadence of its weapon. *)
Lemma firings_cadence (ticks : list Tick) (id : Entity) (s : GameServer)
  (input : InputComponent) (weapon : AttackComponent) :
  eachTick ticks id -> armed s id input weapon -> Players s !! id = None ->
  firings ticks id s
  = cadence (Cooldown weapon) (lastAttack s id)
      ((fun t => clock t id) <$> ticks).
Proof.
  revert s. induction ticks as [|t ticks IH]; intros s Hticks Harmed Hnone;
    [done|].
  apply Forall_cons in Hticks as [[Hnodup Hin] Hticks].
  destruct (tick_effect t id s input weapon Hnodup Hin Harmed)
    as (Hfire & Harmed' & _ & Hnone' & Hlast).
  cbn [firings fmap list_fmap cadence].
  rewrite (IH _ Hticks Harmed' (Hnone' Hnone)), Hlast, Hfire.
  unfold held. rewrite Hnone. cbn [negb andb].
  by destruct (clock t id - lastAttack s id <? Cooldown weapon).
Qed.

(** C4, amended.  Attack edge-triggering.  A player with a weapon in hand
    and no spell selected, whose recorded previous input lacks the attack
    flag and who holds the flag over consecutive ticks, begins an attack at
    the first tick exactly when the weapon is off cooldown there, and at no
    later tick: one attack in five ticks when the weapon is ready at the
    press, none at all when it is still cooling then, whatever the
    cooldown.  An AI-controlled entity with the flag up over the same ticks
    begins its attacks exactly at the cadence of the weapon cooldown, no
    edge detection applied. *)
Theorem attack_edge_triggering :
  (∀ t rest id s player input weapon,
     eachTick (t :: rest) id ->
     armed s id input weapon ->
     Players s !! id = Some player ->
     Attack (PrevInput player) = false ->
     let ready := negb (clock t id - lastAttack s id <? Cooldown weapon) in
     firings (t :: rest) id s = ready :: ((fun _ => false) <$> rest) ∧
     (length rest = 4%nat ->
      firings (t :: rest) id s = [ready; false; false; false; false])) ∧
  (∀ ticks id s input weapon,
     eachTick ticks id ->
     armed s id input weapon ->
     Players s !! id = None ->
     firings ticks id s
     = cadence (Cooldown weapon) (lastAttack s id)
         ((fun t => clock t id) <$> ticks)).
Proof.
  split.
  - intros t rest id s player input weapon Hticks Harmed Hp Hprev ready.
    assert (firings (t :: rest) id s = ready :: ((fun _ => false) <$> rest))
      as Hrun.
    { apply Forall_cons in Hticks as [[Hnodup Hin] Hticks].
      destruct (tick_effect t id s input weapon Hnodup Hin Harmed)
        as (Hfire & Harmed' & Hheld' & _ & _).
      cbn [firings]. rewrite Hfire. unfold held at 1.
      rewrite Hp, Hprev. cbn [negb andb]. fold ready. f_equal.
      apply (firings_held rest id _ input weapon); [done..|].
      rewrite Hheld'. apply bool_decide_eq_true_2. eauto. }
    split; [exact Hrun|]. intros Hlen. rewrite Hrun.
    do 5 (destruct rest as [|? rest]; try discriminate Hlen). done.
  - intros ticks id s input weapon Hticks Harmed Hnone.
    by apply (firings_cadence ticks id s input weapon).
Qed.

End AttackProps.

(** *** A bow held, a sword swung *)

Section AttackExamples.
Import components ecs server.
Local Open Scope float_scope.

Lemma ticksFrom_each (id : Entity) (start step : float) (n : nat) :
  eachTick (ticksFrom id start step n) id.
Proof.
  revert start. induction n as [|n IH]; intros start; [by constructor|].
  constructor; [|apply IH]. cbn [order]. split.
  - apply NoDup_singleton.
  - apply list_elem_of_here.
Qed.

(** Five ticks of 33 ms with the button held: one arrow.  Five ticks
    300 ms apart with the guard's flag up: a swing at the first and the
    fourth. *)
Lemma attack_edge_triggering_witness :
  firings (ticksFrom 1%N 1000 0.033 5) 1%N bowman
  = [true; false; false; false; false] ∧
  firings (ticksFrom 2%N 1000 0.3 5) 2%N sentry
  = [true; false; false; true; false].
Proof.
  split.
  - refine (proj2 (proj1 attack_edge_triggering
                     (mkTick [1%N] (fun _ => 1000))
                     (ticksFrom 1%N (1000 + 0.033) 0.033 4) 1%N bowman
                     (mkPlayer "henry" zeroInput) pressed
                     (mkAttack 10 400 0.5 0 AttackTypeRanged)
                     (ticksFrom_each 1%N 1000 0.033 5) _ eq_refl eq_refl)
              eq_refl).
    repeat split; try reflexivity. by eexists.
  - refine (eq_trans
              (proj2 attack_edge_triggering (ticksFrom 2%N 1000 0.3 5) 2%N
                 sentry pressed (mkAttack 20 60 0.8 0 AttackTypeMelee)
                 (ticksFrom_each 2%N 1000 0.3 5) _ eq_refl) _).
    + repeat split; try reflexivity. by eexists.
    + reflexivity.
Defined.

(** C4, as stated, fails.  The bowman shot at 999.8, let go, and presses
    again at 1000, before the bow is ready at 1000.3; the button then stays
    down for five ticks 200 ms apart.  The recorded previous input lacks
    the flag and the cooldown (0.5) is longer than the tick, yet no attack
    begins: not at the press, where the bow is cooling, and not from 1000.4
    on, where the bow is ready but the flag was already up at the tick
    before. *)
Lemma press_while_cooling_is_lost :
  held bowmanCooling 1%N = false ∧
  armed bowmanCooling 1%N pressed (mkAttack 10 400 0.5 0 AttackTypeRanged) ∧
  lastAttack bowmanCooling 1%N = 999.8 ∧
  (0.2 <? 0.5) = true ∧
  (1000.4 - 999.8 <? 0.5) = false ∧
  firings (ticksFrom 1%N 1000 0.2 5) 1%N bowmanCooling
  = [false; false; false; false; false].
Proof.
  split_and!; try reflexivity. by eexists.
Qed.

End AttackExamples.

(** ** Equipping *)

Section EquipProps.
Import components ecs inventory server.
Local Open Scope Z_scope.

(** A request that the checks turn down changes nothing at all. *)
Lemma equip_turned_down_is_noop (id : Entity) (invSlot equipSlot_ : Z)
  (s : GameServer) :
  turnedDown id invSlot equipSlot_ s ->
  equipItemInternal id invSlot equipSlot_ s = s.
Proof.
  unfold turnedDown, equipItemInternal.
  destruct (GetComponent EquipmentComponent (World_ s) id) as [equip|];
    [|done].
  destruct (GetComponent InventoryComponent (World_ s) id) as [inv|];
    [|done].
  cbv zeta. intros Hdown.
  destruct (Z.ltb_spec invSlot 0) as [|Hlo]; [done|].
  destruct (Z.leb_spec (Z.of_nat (length (slotsOf (heap s) inv))) invSlot)
    as [|Hhi]; [done|]. cbn [orb].
  destruct Hdown as [?|[?|Hdown]]; [lia..|].
  destruct (slotsOf (heap s) inv !! Z.to_nat invSlot) as [slot|] eqn:Hslot.
  - cbn [from_option]. unfold Datatypes.id.
    destruct Hdown as [->|Hdown]; [done|].
    destruct (String.eqb (ItemID slot) ""); [done|].
    destruct (items.Get (ItemID slot)) as [def|]; [|done].
    destruct Hdown as [->|Hne]; [done|].
    destruct (Z.eqb_spec (items.EquipmentSlot def) (-1)); [done|].
    destruct (Z.eqb_spec (items.EquipmentSlot def) equipSlot_); done.
  - apply lookup_ge_None in Hslot. lia.
Qed.

Lemma findSlot_Some (p : InventorySlot -> bool) (l : list InventorySlot)
  (k j : nat) :
  findSlot p l k = Some j ->
  ∃ i slot, j = (k + i)%nat ∧ l !! i = Some slot ∧ p slot = true ∧
            ∀ i' slot', (i' < i)%nat -> l !! i' = Some slot' ->
                        p slot' = false.
Proof.
  revert k. induction l as [|x l IH]; intros k; simpl; [done|].
  destruct (p x) eqn:Hx.
  - intros [= <-]. exists 0%nat, x. repeat split; [lia|done..|]. lia.
  - intros Hfind. destruct (IH (S k) Hfind) as (i & slot & -> & Hi & Hp & Hpre).
    exists (S i), slot. repeat split; [lia|done..|].
    intros [|i'] slot' Hlt Hlook; simpl in Hlook; [congruence|].
    apply (Hpre i'); [lia|done].
Qed.

Lemma findSlot_first (p : InventorySlot -> bool) (l : list InventorySlot)
  (k i : nat) (slot : InventorySlot) :
  l !! i = Some slot -> p slot = true ->
  (∀ i' slot', (i' < i)%nat -> l !! i' = Some slot' -> p slot' = false) ->
  findSlot p l k = Some (k + i)%nat.
Proof.
  revert k i. induction l as [|x l IH]; intros k i Hi Hp Hpre; [done|].
  destruct i as [|i]; simpl in *.
  - injection Hi as ->. rewrite Hp. f_equal. lia.
  - rewrite (Hpre 0%nat x) by (done || lia).
    rewrite (IH (S k) i Hi Hp).
    + f_equal. lia.
    + intros i' slot' Hlt Hlook. apply (Hpre (S i')); [lia|done].
Qed.

Lemma int64_id (z : Z) : - 2 ^ 63 <= z < 2 ^ 63 -> int64 z = z.
Proof. intros Hz. unfold int64. rewrite Z.mod_small; lia. Qed.

(** When the inventory has no room for the item that was worn, and the
    slot the request names is the first stack of the item to equip, the
    revert restores the state exactly. *)
Lemma equip_full_inventory_restores (id : Entity) (invSlot equipSlot_ : Z)
  (s : GameServer) (equip : EquipmentComponent) (inv : InventoryComponent)
  (slots : list InventorySlot) (slot : InventorySlot)
  (def : items.ItemDefinition) :
  GetComponent EquipmentComponent (World_ s) id = Some equip ->
  GetComponent InventoryComponent (World_ s) id = Some inv ->
  heap s !! Slots inv = Some slots ->
  0 <= invSlot ->
  findSlot (fun x => String.eqb (ItemID x) (ItemID slot)) slots 0
  = Some (Z.to_nat invSlot) ->
  slots !! Z.to_nat invSlot = Some slot ->
  items.Get (ItemID slot) = Some def ->
  items.EquipmentSlot def = equipSlot_ -> equipSlot_ ≠ -1 ->
  2 <= Quantity slot < 2 ^ 63 ->
  equipSlot equip equipSlot_ ≠ "" ->
  (AddItem inv (equipSlot equip equipSlot_) 1
     (writeSlot (heap s) inv (Z.to_nat invSlot)
        (mkSlot (ItemID slot) (Quantity slot - 1)))).2 = true ->
  equipItemInternal id invSlot equipSlot_ s = s.
Proof.
  intros He Hi Hheap Hlo Hfirst Hslot Hdef Hes Hne1 Hq Hold Hfull.
  unfold equipItemInternal. rewrite He, Hi. cbv zeta.
  assert (slotsOf (heap s) inv = slots) as Hslots
    by (unfold slotsOf; by rewrite Hheap).
  rewrite Hslots, Hslot. cbn [from_option]. unfold Datatypes.id.
  pose proof (lookup_lt_Some _ _ _ Hslot) as Hlen.
  destruct (Z.ltb_spec invSlot 0) as [|_]; [lia|].
  destruct (Z.leb_spec (Z.of_nat (length slots)) invSlot) as [|_]; [lia|].
  cbn [orb]. rewrite (weapon_named _ _ Hdef), Hdef.
  destruct (Z.eqb_spec (items.EquipmentSlot def) (-1)) as [|_]; [congruence|].
  rewrite Hes, Z.eqb_refl. cbn [negb].
  rewrite (int64_id (Quantity slot - 1)) by lia.
  destruct (Z.leb_spec (Quantity slot - 1) 0) as [|_]; [lia|].
  cbn [ItemID]. rewrite (weapon_named _ _ Hdef).
  apply String.eqb_neq in Hold. rewrite Hold. cbn [negb].
  set (i := Z.to_nat invSlot) in *.
  set (h := writeSlot (heap s) inv i (mkSlot (ItemID slot) (Quantity slot - 1)))
    in *.
  destruct (AddItem inv (equipSlot equip equipSlot_) 1 h) as [h1 err] eqn:Hadd.
  cbn [snd] in Hfull. subst err.
  assert (h1 = h) as ->.
  { unfold AddItem in Hadd. repeat case_match; simplify_eq; done. }
  assert (AddItem inv (ItemID slot) 1 h = (heap s, false)) as ->.
  { unfold AddItem. rewrite Hdef.
    assert (slotsOf h inv
            = <[i := mkSlot (ItemID slot) (Quantity slot - 1)]> slots) as ->.
    { unfold slotsOf, h, writeSlot. rewrite lookup_insert_eq. cbn.
      by rewrite Hslots. }
    apply findSlot_Some in Hfirst as (j & slot' & Hj & Hsl & _ & Hpre).
    cbn in Hj. subst j.
    rewrite (findSlot_first _ _ 0 i (mkSlot (ItemID slot) (Quantity slot - 1))).
    - cbn [Nat.add]. rewrite list_lookup_insert_eq by done.
      cbn [from_option]. unfold Datatypes.id. cbn [ItemID Quantity].
      replace (Quantity slot - 1 + 1) with (Quantity slot) by lia.
      rewrite int64_id by lia. f_equal.
      unfold writeSlot, h, writeSlot.
      assert (slotsOf (<[Slots inv := <[i := mkSlot (ItemID slot)
                                             (Quantity slot - 1)]>
                                        (slotsOf (heap s) inv)]> (heap s)) inv
              = <[i := mkSlot (ItemID slot) (Quantity slot - 1)]> slots) as ->.
      { unfold slotsOf. rewrite lookup_insert_eq. cbn. by rewrite Hheap. }
      rewrite list_insert_insert_eq, insert_insert_eq.
      rewrite (list_insert_id slots i) by (by destruct slot).
      by apply insert_id.
    - by apply list_lookup_insert_eq.
    - cbn. apply String.eqb_refl.
    - intros i' slot'' Hlt Hlook.
      rewrite list_lookup_insert_ne in Hlook by lia. by apply (Hpre i'). }
  unfold withHeap. by destruct s.
Qed.

End EquipProps.

(** *** Two stacks of swords *)

Section EquipExamples.
Import components ecs inventory server.

(** C8 fails on the code: the request to equip a sword from slot 1 fails
    (the inventory has no room for the bow, the equipment is as before), and
    the "Revert" puts the sword back on the first stack: the inventory is no
    longer what it was. *)
Lemma failed_equip_changes_inventory :
  inventoryView twoStacks 1%N
  = Some ([mkSlot "sword_starter" 1; mkSlot "sword_starter" 2], 2%Z) ∧
  equipmentView (equipItemInternal 1%N 1 SlotWeapon twoStacks) 1%N
  = equipmentView twoStacks 1%N ∧
  inventoryView (equipItemInternal 1%N 1 SlotWeapon twoStacks) 1%N
  = Some ([mkSlot "sword_starter" 2; mkSlot "sword_starter" 1], 2%Z).
Proof. split; [reflexivity|]. split; vm_compute; reflexivity. Qed.

Lemma equip_turned_down_witness :
  equipItemInternal 1%N 0 SlotBody bowInBag = bowInBag.
Proof.
  apply equip_turned_down_is_noop. unfold turnedDown. simpl.
  right. right. right. right. discriminate.
Defined.

(** No room for the bow: the equip fails and everything is as before. *)
Lemma equip_full_inventory_witness :
  equipItemInternal 1%N 0 SlotWeapon oneStack = oneStack.
Proof.
  apply (equip_full_inventory_restores 1%N 0%Z SlotWeapon oneStack
           (setEquipSlot emptyEquipment SlotWeapon "bow_starter")
           (mkInventory 7%N 1) [mkSlot "sword_starter" 2]
           (mkSlot "sword_starter" 2)
           (items.mkItem "sword_starter" "Rusty Sword" items.ItemTypeWeapon
              (Some (mkAttack 20 60 0.8 0 AttackTypeMelee)) SlotWeapon));
    try reflexivity; try discriminate.
  - cbn. lia.
Defined.

End EquipExamples.

(** ** Inventories *)

Section InventoryProps.
Import components inventory.
Local Open Scope Z_scope.

Lemma slotsOf_writeSlot (h : Heap) (inv : InventoryComponent) (i : nat)
  (s : InventorySlot) :
  slotsOf (writeSlot h inv i s) inv = <[i := s]> (slotsOf h inv).
Proof. unfold writeSlot, slotsOf at 1. by rewrite lookup_insert_eq. Qed.

Lemma stock_insert (x : string) (l : list InventorySlot) (i : nat)
  (old new : InventorySlot) :
  l !! i = Some old ->
  stock x (<[i := new]> l) = stock x l - part x old + part x new.
Proof.
  revert i. induction l as [|a l IH]; intros [|i] Hi; simplify_eq/=; [lia|].
  rewrite (IH i Hi). lia.
Qed.

Lemma findSlot_None (p : InventorySlot -> bool) (l : list InventorySlot)
  (k : nat) :
  findSlot p l k = None -> Forall (fun slot => p slot = false) l.
Proof.
  revert k. induction l as [|a l IH]; intros k; simpl; [constructor|].
  destruct (p a) eqn:Ha; [done|]. intros Hl. constructor; eauto.
Qed.

Lemma stock_absent (x : string) (l : list InventorySlot) :
  Forall (fun slot => String.eqb (ItemID slot) x = false) l -> stock x l = 0.
Proof.
  induction 1 as [|a l Ha _ IH]; simpl; [done|].
  unfold part. rewrite Ha. lia.
Qed.

Lemma part_other (x : string) (slot : InventorySlot) :
  ItemID slot ≠ x -> part x slot = 0.
Proof.
  unfold part. intros Hne. apply String.eqb_neq in Hne. by rewrite Hne.
Qed.

Lemma part_decide (x : string) (slot : InventorySlot) :
  part x slot = if decide (x = ItemID slot) then Quantity slot else 0.
Proof.
  unfold part. destruct (decide (x = ItemID slot)) as [->|Hne];
    [by rewrite String.eqb_refl|].
  apply not_eq_sym, String.eqb_neq in Hne. by rewrite Hne.
Qed.

(** What [AddItem] does when it succeeds: one slot is rewritten; it is
    the first stack of the item, or a free slot when the item has no
    stack. *)
Lemma AddItem_writes (inv : InventoryComponent) (item : string) (q : Z)
  (h h' : Heap) :
  AddItem inv item q h = (h', false) ->
  ∃ i old new,
    slotsOf h inv !! i = Some old ∧ h' = writeSlot h inv i new ∧
    ItemID new = item ∧ item ≠ "" ∧
    ((ItemID old = item ∧ Quantity new = int64 (Quantity old + q)) ∨
     ((ItemID old = "" ∨ Quantity old = 0) ∧ Quantity new = q ∧
      stock item (slotsOf h inv) = 0)).
Proof.
  unfold AddItem. destruct (items.Get item) as [def|] eqn:Hdef; [|done].
  assert (item ≠ "") as Hne by (intros ->; done).
  destruct (findSlot _ (slotsOf h inv) 0) as [i|] eqn:Hstack.
  - intros [= <-].
    apply findSlot_Some in Hstack as (j & old & -> & Hold & Hp & _).
    cbn [Nat.add] in *. rewrite Hold. cbn.
    apply String.eqb_eq in Hp.
    exists j, old, (mkSlot (ItemID old) (int64 (Quantity old + q))).
    cbn. split_and!; try done. by left.
  - destruct (findSlot _ (slotsOf h inv) 0) as [i|] eqn:Hfree at 1; [|done].
    intros [= <-].
    apply findSlot_Some in Hfree as (j & old & -> & Hold & Hp & _).
    cbn [Nat.add] in *. exists j, old, (mkSlot item q). cbn.
    split_and!; try done. right. split_and!; [|done|].
    + apply orb_true_iff in Hp as [Hp|Hp].
      * left. by apply String.eqb_eq.
      * right. lia.
    + apply stock_absent. by apply findSlot_None in Hstack.
Qed.

Lemma AddItem_error (inv : InventoryComponent) (item : string) (q : Z)
  (h h' : Heap) :
  AddItem inv item q h = (h', true) -> h' = h.
Proof. unfold AddItem. intros Hadd. repeat case_match; by simplify_eq. Qed.

Lemma AddItem_stock (inv : InventoryComponent) (item : string)
  (q : Z) (h h' : Heap) (x : string) :
  AddItem inv item q h = (h', false) ->
  Forall (fun slot => - 2 ^ 63 <= Quantity slot + q < 2 ^ 63) (slotsOf h inv) ->
  x ≠ "" ->
  stock x (slotsOf h' inv)
  = stock x (slotsOf h inv) + (if decide (x = item) then q else 0).
Proof.
  intros Hadd Hfit Hx.
  apply AddItem_writes in Hadd
      as (i & old & new & Hold & -> & Hnew & Hne & Hcase).
  rewrite slotsOf_writeSlot, (stock_insert x _ i old new Hold).
  rewrite Forall_lookup in Hfit. specialize (Hfit i old Hold). cbn in Hfit.
  rewrite (part_decide x new), Hnew.
  destruct Hcase as [[Hsame Hq]|([Hempty|Hzero] & Hq & Hnone)].
  - rewrite int64_id in Hq by lia. rewrite (part_decide x old), Hsame, Hq.
    case_match; lia.
  - rewrite (part_other x old), Hq by congruence. lia.
  - rewrite (part_decide x old), Hzero, Hq. repeat case_match; lia.
Qed.

Lemma AddItem_length (inv : InventoryComponent) (item : string) (q : Z)
  (h : Heap) :
  length (slotsOf (AddItem inv item q h).1 inv) = length (slotsOf h inv).
Proof.
  destruct (AddItem inv item q h) as [h' [|]] eqn:Hadd; cbn [fst].
  - by apply AddItem_error in Hadd as ->.
  - apply AddItem_writes in Hadd as (i & old & new & _ & -> & _).
    by rewrite slotsOf_writeSlot, length_insert.
Qed.

Lemma AddItem_stacks (inv : InventoryComponent) (item : string) (q : Z)
  (h : Heap) (def : items.ItemDefinition) (i : nat) (slot : InventorySlot) :
  items.Get item = Some def -> slotsOf h inv !! i = Some slot ->
  ItemID slot = item -> (AddItem inv item q h).2 = false.
Proof.
  intros Hdef Hslot Hid. unfold AddItem. rewrite Hdef.
  destruct (findSlot _ (slotsOf h inv) 0) as [j|] eqn:Hfind; [done|].
  apply findSlot_None in Hfind. rewrite Forall_lookup in Hfind.
  specialize (Hfind i slot Hslot). cbn in Hfind.
  rewrite Hid, String.eqb_refl in Hfind. done.
Qed.

(** A successful [AddItem] rewrites one slot, which then names the item;
    the stock of the item grows by exactly the quantity added and the
    stock of every other item stays as it was. *)
Theorem AddItem_adds_exactly (inv : InventoryComponent) (item : string)
  (q : Z) (h : Heap) :
  (AddItem inv item q h).2 = false ->
  Forall (fun slot => - 2 ^ 63 <= Quantity slot + q < 2 ^ 63) (slotsOf h inv) ->
  (∃ i slot,
     slotsOf (AddItem inv item q h).1 inv = <[i := slot]> (slotsOf h inv) ∧
     (i < length (slotsOf h inv))%nat ∧ ItemID slot = item) ∧
  ∀ x, x ≠ "" ->
       stock x (slotsOf (AddItem inv item q h).1 inv)
       = stock x (slotsOf h inv) + (if decide (x = item) then q else 0).
Proof.
  destruct (AddItem inv item q h) as [h' err] eqn:Hadd. cbn [fst snd].
  intros -> Hfit. split.
  - apply AddItem_writes in Hadd as (i & old & new & Hold & -> & Hnew & _).
    exists i, new. rewrite slotsOf_writeSlot.
    split_and!; [done| |done]. by apply lookup_lt_Some in Hold.
  - intros x Hx. by apply AddItem_stock.
Qed.

(** [AddItem] fails exactly when the item is not registered, or no slot
    holds it and no slot is free; a failed call changes nothing. *)
Theorem AddItem_fails_iff (inv : InventoryComponent) (item : string) (q : Z)
  (h : Heap) :
  ((AddItem inv item q h).2 = true ↔
   items.Get item = None ∨
   Forall (fun slot => ItemID slot ≠ item ∧ ItemID slot ≠ "" ∧
                       Quantity slot ≠ 0) (slotsOf h inv)) ∧
  ((AddItem inv item q h).2 = true -> (AddItem inv item q h).1 = h).
Proof.
  split.
  - unfold AddItem. destruct (items.Get item) as [def|]; [|by intuition].
    destruct (findSlot _ (slotsOf h inv) 0) as [i|] eqn:Hstack.
    { cbn. split; [done|]. intros [|Hall]; [done|].
      apply findSlot_Some in Hstack as (j & slot & _ & Hslot & Hp & _).
      rewrite Forall_lookup in Hall. apply String.eqb_eq in Hp.
      by destruct (Hall j slot Hslot). }
    destruct (findSlot _ (slotsOf h inv) 0) as [i|] eqn:Hfree at 1.
    { cbn. split; [done|]. intros [|Hall]; [done|].
      apply findSlot_Some in Hfree as (j & slot & _ & Hslot & Hp & _).
      rewrite Forall_lookup in Hall.
      destruct (Hall j slot Hslot) as (_ & Hn & Hq).
      apply orb_true_iff in Hp as [Hp|Hp]; [by apply String.eqb_eq in Hp|lia]. }
    cbn. split; [|done]. intros _. right.
    apply findSlot_None in Hstack, Hfree.
    rewrite Forall_forall in *. intros slot Hin.
    specialize (Hstack slot Hin). specialize (Hfree slot Hin). cbn in *.
    apply orb_false_iff in Hfree as [Hf1 Hf2].
    apply String.eqb_neq in Hstack, Hf1. split_and!; [done..|lia].
  - destruct (AddItem inv item q h) as [h' err] eqn:Hadd. cbn.
    intros ->. by apply AddItem_error in Hadd.
Qed.

(** A [RemoveItem] that the slot can serve takes exactly [q] units of
    the item of the slot out of the stock, touches the stock of no other
    item, and leaves the slot either cleared or with at least one unit. *)
Theorem RemoveItem_takes_exactly (inv : InventoryComponent) (i q : Z)
  (h : Heap) (slot : InventorySlot) :
  0 <= i -> slotsOf h inv !! Z.to_nat i = Some slot ->
  q <= Quantity slot -> Quantity slot - q < 2 ^ 63 ->
  ∃ h' slot',
    RemoveItem inv i q h = (h', false) ∧
    slotsOf h' inv = <[Z.to_nat i := slot']> (slotsOf h inv) ∧
    (slot' = mkSlot "" 0 ∨
     (slot' = mkSlot (ItemID slot) (Quantity slot - q) ∧ 1 <= Quantity slot')) ∧
    ∀ x, x ≠ "" ->
         stock x (slotsOf h' inv)
         = stock x (slotsOf h inv)
           - (if decide (x = ItemID slot) then q else 0).
Proof.
  intros Hlo Hslot Hq Hfit. unfold RemoveItem. cbv zeta.
  pose proof (lookup_lt_Some _ _ _ Hslot) as Hlen.
  destruct (Z.ltb_spec i 0); [lia|].
  destruct (Z.leb_spec (Z.of_nat (length (slotsOf h inv))) i); [lia|].
  cbn [orb]. rewrite Hslot. cbn [from_option]. unfold Datatypes.id.
  destruct (Z.ltb_spec (Quantity slot) q); [lia|].
  rewrite int64_id by lia.
  destruct (Z.leb_spec (Quantity slot - q) 0).
  - eexists _, (mkSlot "" 0). split; [done|].
    rewrite slotsOf_writeSlot. split_and!; [done|by left|].
    intros x Hx. rewrite (stock_insert x _ _ slot _ Hslot).
    rewrite (part_other x (mkSlot "" 0)) by (cbn; congruence).
    rewrite (part_decide x slot). case_match; lia.
  - eexists _, (mkSlot (ItemID slot) (Quantity slot - q)). split; [done|].
    rewrite slotsOf_writeSlot.
    split_and!; [done|right; cbn; split; [done|lia]|].
    intros x Hx. rewrite (stock_insert x _ _ slot _ Hslot).
    rewrite !part_decide. cbn. case_match; lia.
Qed.

Lemma GetSlot_lookup (inv : InventoryComponent) (i : Z) (h : Heap)
  (slot : InventorySlot) :
  0 <= i -> slotsOf h inv !! Z.to_nat i = Some slot ->
  GetSlot inv i h = (slot, false).
Proof.
  intros Hlo Hslot. unfold GetSlot. cbv zeta.
  pose proof (lookup_lt_Some _ _ _ Hslot) as Hlen.
  destruct (Z.ltb_spec i 0); [lia|].
  destruct (Z.leb_spec (Z.of_nat (length (slotsOf h inv))) i); [lia|].
  cbn [orb]. by rewrite Hslot.
Qed.

Lemma SwapItems_slots (inv : InventoryComponent) (a b : Z) (h : Heap) :
  0 <= a < Z.of_nat (length (slotsOf h inv)) ->
  0 <= b < Z.of_nat (length (slotsOf h inv)) ->
  ∃ sa sb,
    slotsOf h inv !! Z.to_nat a = Some sa ∧
    slotsOf h inv !! Z.to_nat b = Some sb ∧
    SwapItems inv a b h
    = (writeSlot (writeSlot h inv (Z.to_nat a) sb) inv (Z.to_nat b) sa, false).
Proof.
  intros Ha Hb. unfold SwapItems. cbv zeta.
  destruct (Z.ltb_spec a 0); [lia|].
  destruct (Z.leb_spec (Z.of_nat (length (slotsOf h inv))) a); [lia|].
  destruct (Z.ltb_spec b 0); [lia|].
  destruct (Z.leb_spec (Z.of_nat (length (slotsOf h inv))) b); [lia|].
  cbn [orb].
  destruct (lookup_lt_is_Some_2 (slotsOf h inv) (Z.to_nat a)) as [sa Hsa];
    [lia|].
  destruct (lookup_lt_is_Some_2 (slotsOf h inv) (Z.to_nat b)) as [sb Hsb];
    [lia|].
  exists sa, sb. by rewrite Hsa, Hsb.
Qed.

Lemma SwapItems_out_of_range (inv : InventoryComponent) (a b : Z) (h : Heap) :
  ¬ (0 <= a < Z.of_nat (length (slotsOf h inv)) ∧
     0 <= b < Z.of_nat (length (slotsOf h inv))) ->
  SwapItems inv a b h = (h, true).
Proof.
  intros Hout. unfold SwapItems. cbv zeta.
  destruct (Z.ltb_spec a 0); [done|].
  destruct (Z.leb_spec (Z.of_nat (length (slotsOf h inv))) a); [done|].
  destruct (Z.ltb_spec b 0); [done|].
  destruct (Z.leb_spec (Z.of_nat (length (slotsOf h inv))) b); [done|].
  lia.
Qed.

Lemma SwapItems_stock (x : string) (inv : InventoryComponent) (a b : Z)
  (h : Heap) :
  stock x (slotsOf (SwapItems inv a b h).1 inv) = stock x (slotsOf h inv).
Proof.
  destruct (decide (0 <= a < Z.of_nat (length (slotsOf h inv)) ∧
                    0 <= b < Z.of_nat (length (slotsOf h inv))))
    as [[Ha Hb]|Hout].
  - destruct (SwapItems_slots inv a b h Ha Hb) as (sa & sb & Hsa & Hsb & ->).
    cbn [fst]. rewrite !slotsOf_writeSlot.
    destruct (decide (Z.to_nat a = Z.to_nat b)) as [Heq|Hne].
    + rewrite Heq in *. rewrite list_insert_insert_eq.
      rewrite (stock_insert x _ _ sb sa Hsb). simplify_eq. lia.
    + rewrite (stock_insert x _ (Z.to_nat b) sb sa).
      * rewrite (stock_insert x _ (Z.to_nat a) sa sb Hsa). lia.
      * by rewrite list_lookup_insert_ne.
  - by rewrite SwapItems_out_of_range.
Qed.

Lemma SwapItems_length (inv : InventoryComponent) (a b : Z) (h : Heap) :
  length (slotsOf (SwapItems inv a b h).1 inv) = length (slotsOf h inv).
Proof.
  unfold SwapItems. cbv zeta. case_match; cbn [fst]; [done|].
  by rewrite !slotsOf_writeSlot, !length_insert.
Qed.

(** [SwapItems] on two valid indices exchanges the two slots, leaves every
    other slot as it was, keeps the stock of every item, and undoes itself
    when repeated. *)
Theorem SwapItems_exchanges (inv : InventoryComponent) (a b : Z) (h : Heap) :
  0 <= a < Z.of_nat (length (slotsOf h inv)) ->
  0 <= b < Z.of_nat (length (slotsOf h inv)) ->
  ∃ h',
    SwapItems inv a b h = (h', false) ∧
    GetSlot inv a h' = GetSlot inv b h ∧
    GetSlot inv b h' = GetSlot inv a h ∧
    (∀ c, c ≠ a -> c ≠ b -> GetSlot inv c h' = GetSlot inv c h) ∧
    (∀ x, stock x (slotsOf h' inv) = stock x (slotsOf h inv)) ∧
    slotsOf (SwapItems inv a b h').1 inv = slotsOf h inv.
Proof.
  intros Ha Hb.
  destruct (SwapItems_slots inv a b h Ha Hb) as (sa & sb & Hsa & Hsb & Hswap).
  eexists. split; [exact Hswap|].
  set (h' := writeSlot (writeSlot h inv (Z.to_nat a) sb) inv (Z.to_nat b) sa).
  assert (slotsOf h' inv
          = <[Z.to_nat b := sa]> (<[Z.to_nat a := sb]> (slotsOf h inv))) as Hh'
    by (unfold h'; by rewrite !slotsOf_writeSlot).
  assert (length (slotsOf h' inv) = length (slotsOf h inv)) as Hlen
    by (by rewrite Hh', !length_insert).
  assert (slotsOf h' inv !! Z.to_nat b = Some sa) as Hb'.
  { rewrite Hh'. apply list_lookup_insert_eq. rewrite length_insert. lia. }
  assert (slotsOf h' inv !! Z.to_nat a = Some sb) as Ha'.
  { destruct (decide (Z.to_nat a = Z.to_nat b)) as [Heq|Hne].
    - rewrite Heq in *. by simplify_eq.
    - rewrite Hh', list_lookup_insert_ne by done.
      apply list_lookup_insert_eq. lia. }
  split_and!.
  - by rewrite (GetSlot_lookup inv a h' sb (proj1 Ha) Ha'),
       (GetSlot_lookup inv b h sb (proj1 Hb) Hsb).
  - by rewrite (GetSlot_lookup inv b h' sa (proj1 Hb) Hb'),
       (GetSlot_lookup inv a h sa (proj1 Ha) Hsa).
  - intros c Hca Hcb. unfold GetSlot. cbv zeta. rewrite Hlen.
    destruct (_ || _) eqn:Hrange; [done|].
    apply orb_false_iff in Hrange as [Hlo Hhi].
    apply Z.ltb_ge in Hlo. rewrite Hh', !list_lookup_insert_ne by lia. done.
  - intros x. pose proof (SwapItems_stock x inv a b h) as Hst.
    by rewrite Hswap in Hst.
  - rewrite <- Hlen in Ha, Hb.
    destruct (SwapItems_slots inv a b h' Ha Hb)
      as (sa' & sb' & Hsa' & Hsb' & ->). simplify_eq. cbn [fst].
    rewrite !slotsOf_writeSlot, Hh'.
    apply list_eq. intros k.
    destruct (decide (k = Z.to_nat b)) as [->|Hkb].
    + rewrite list_lookup_insert_eq; [done|]. rewrite !length_insert. lia.
    + rewrite list_lookup_insert_ne by done.
      destruct (decide (k = Z.to_nat a)) as [->|Hka].
      * rewrite list_lookup_insert_eq; [done|]. rewrite !length_insert. lia.
      * by rewrite !list_lookup_insert_ne.
Qed.

End InventoryProps.

(** *** A bow, three potions and a free slot *)

Section InventoryExamples.
Import components ecs inventory server.
Local Open Scope Z_scope.

(** Two more potions go on the stack of three; the bow is not touched. *)
Lemma AddItem_adds_exactly_witness :
  stock "potion_health_small"
    (slotsOf (AddItem bag "potion_health_small" 2 (heap armedPlayer)).1 bag)
  = 3 + 2 ∧
  stock "bow_starter"
    (slotsOf (AddItem bag "potion_health_small" 2 (heap armedPlayer)).1 bag)
  = 1 + 0.
Proof.
  assert (Forall (fun slot => - 2 ^ 63 <= Quantity slot + 2 < 2 ^ 63)
            (slotsOf (heap armedPlayer) bag)) as Hfit
    by (repeat constructor; cbn; lia).
  split.
  - exact (proj2 (AddItem_adds_exactly bag "potion_health_small" 2
                    (heap armedPlayer) eq_refl Hfit)
             "potion_health_small" ltac:(discriminate)).
  - exact (proj2 (AddItem_adds_exactly bag "potion_health_small" 2
                    (heap armedPlayer) eq_refl Hfit)
             "bow_starter" ltac:(discriminate)).
Defined.

(** Two of the three potions are taken out of slot 1. *)
Lemma RemoveItem_takes_exactly_witness :
  ∃ h' slot',
    RemoveItem bag 1 2 (heap armedPlayer) = (h', false) ∧
    slotsOf h' bag = <[1%nat := slot']> (slotsOf (heap armedPlayer) bag) ∧
    (slot' = mkSlot "" 0 ∨
     (slot' = mkSlot "potion_health_small" (3 - 2) ∧ 1 <= Quantity slot')) ∧
    ∀ x, x ≠ "" ->
         stock x (slotsOf h' bag)
         = stock x (slotsOf (heap armedPlayer) bag)
           - (if decide (x = "potion_health_small") then 2 else 0).
Proof.
  apply (RemoveItem_takes_exactly bag 1 2 (heap armedPlayer)
           (mkSlot "potion_health_small" 3)); [lia|reflexivity|cbn; lia..].
Defined.

(** The bow and the free slot change places. *)
Lemma SwapItems_exchanges_witness :
  ∃ h',
    SwapItems bag 0 2 (heap armedPlayer) = (h', false) ∧
    GetSlot bag 0 h' = GetSlot bag 2 (heap armedPlayer) ∧
    GetSlot bag 2 h' = GetSlot bag 0 (heap armedPlayer) ∧
    (∀ c, c ≠ 0 -> c ≠ 2 -> GetSlot bag c h' = GetSlot bag c (heap armedPlayer)) ∧
    (∀ x, stock x (slotsOf h' bag) = stock x (slotsOf (heap armedPlayer) bag)) ∧
    slotsOf (SwapItems bag 0 2 h').1 bag = slotsOf (heap armedPlayer) bag.
Proof.
  apply (SwapItems_exchanges bag 0 2 (heap armedPlayer));
    change (length (slotsOf (heap armedPlayer) bag)) with 3%nat; lia.
Defined.

End InventoryExamples.

(** ** What a player owns *)

Section OwnershipProps.
Import components ecs inventory server.
Local Open Scope Z_scope.

Lemma worn_insert (x : string) (equip : EquipmentComponent) (i : Z)
  (new : string) :
  (Z.to_nat i < length (eSlots equip))%nat ->
  worn x (setEquipSlot equip i new)
  = worn x equip - (if String.eqb (equipSlot equip i) x then 1 else 0)
    + (if String.eqb new x then 1 else 0).
Proof.
  unfold worn, setEquipSlot, equipSlot. cbn [eSlots].
  generalize (Z.to_nat i) as k. generalize (eSlots equip) as l.
  induction l as [|a l IH]; intros [|k] Hk; cbn [length] in Hk; try lia.
  - cbn. lia.
  - change (<[S k:=new]> (a :: l)) with (a :: <[k:=new]> l).
    change ((a :: l) !! S k) with (l !! k). cbn [foldr].
    apply Nat.succ_lt_mono in Hk. rewrite (IH k Hk). lia.
Qed.

(** The registry names an equipment slot below 9 for every item that can
    be equipped. *)
Lemma item_slot (item : string) (def : items.ItemDefinition) :
  items.Get item = Some def -> items.EquipmentSlot def ≠ -1 ->
  0 <= items.EquipmentSlot def < 9.
Proof.
  unfold items.Get, items.Registry. cbn [find items.iID].
  repeat match goal with
         | |- context [String.eqb ?a item] => destruct (String.eqb a item)
         end; intros Hget Hne; simplify_eq; cbn in *;
    unfold SlotWeapon in *; lia.
Qed.

Lemma views_storeBoth (id : Entity) (equip : EquipmentComponent)
  (inv : InventoryComponent) (h : Heap) (s : GameServer) :
  inventoryView (storeBoth id equip inv h s) id
  = Some (slotsOf h inv, Capacity inv) ∧
  equipmentView (storeBoth id equip inv h s) id = Some equip.
Proof.
  unfold inventoryView, equipmentView, storeBoth. cbn [World_ heap].
  tables. by simplify_map_eq.
Qed.

Lemma views_stored (id : Entity) (inv : InventoryComponent) (h : Heap)
  (s : GameServer) :
  inventoryView
    (mkServer (AddComponent id inv (World_ s)) (Players s) (Maps s) h) id
  = Some (slotsOf h inv, Capacity inv) ∧
  equipmentView
    (mkServer (AddComponent id inv (World_ s)) (Players s) (Maps s) h) id
  = equipmentView s id.
Proof.
  unfold inventoryView, equipmentView. cbn [World_ heap].
  tables. by simplify_map_eq.
Qed.

Lemma eqb_decide (a b : string) :
  (if String.eqb a b then 1 else 0) = (if decide (b = a) then 1 else 0).
Proof.
  destruct (String.eqb_spec a b), (decide (b = a)); congruence.
Qed.

Lemma owned_storeBoth (x : string) (id : Entity) (equip : EquipmentComponent)
  (inv : InventoryComponent) (h : Heap) (s : GameServer) :
  owned x (storeBoth id equip inv h s) id
  = stock x (slotsOf h inv) + worn x equip.
Proof.
  unfold owned. by destruct (views_storeBoth id equip inv h s) as [-> ->].
Qed.

Lemma owned_stored (x : string) (id : Entity) (inv : InventoryComponent)
  (h : Heap) (s : GameServer) :
  GetComponent InventoryComponent (World_ s) id = Some inv ->
  stock x (slotsOf h inv) = stock x (slotsOf (heap s) inv) ->
  owned x (mkServer (AddComponent id inv (World_ s)) (Players s) (Maps s) h) id
  = owned x s id.
Proof.
  intros Hi Hst. unfold owned.
  destruct (views_stored id inv h s) as [-> ->].
  unfold inventoryView. by rewrite Hi, Hst.
Qed.

(** Equipping moves one unit from the inventory to the equipment and the
    item that was worn back into the inventory; when the worn item finds
    no room, the "Revert" puts the unit back on a stack.  In every case
    the entity owns of each item what it owned before. *)
Lemma equipItemInternal_owned (id : Entity) (invSlot equipSlot_ : Z)
  (s : GameServer) (x : string) :
  tidy s id -> x ≠ "" ->
  owned x (equipItemInternal id invSlot equipSlot_ s) id = owned x s id.
Proof.
  intros Htidy Hx. unfold equipItemInternal.
  destruct (GetComponent EquipmentComponent (World_ s) id) as [equip|] eqn:He;
    [|done].
  destruct (GetComponent InventoryComponent (World_ s) id) as [inv|] eqn:Hi;
    [|done].
  cbv zeta.
  destruct (Z.ltb_spec invSlot 0) as [|Hlo]; [done|].
  destruct (Z.leb_spec (Z.of_nat (length (slotsOf (heap s) inv))) invSlot)
    as [|Hhi]; [done|]. cbn [orb].
  set (i := Z.to_nat invSlot).
  destruct (slotsOf (heap s) inv !! i) as [slot|] eqn:Hslot;
    [|apply lookup_ge_None in Hslot; lia].
  cbn [from_option]. unfold Datatypes.id.
  destruct (String.eqb_spec (ItemID slot) "") as [|Hnamed]; [done|].
  destruct (items.Get (ItemID slot)) as [def|] eqn:Hdef; [|done].
  destruct (Z.eqb_spec (items.EquipmentSlot def) (-1)) as [|Hne1]; [done|].
  destruct (Z.eqb_spec (items.EquipmentSlot def) equipSlot_) as [<-|];
    [|done]. cbn [negb].
  pose proof (item_slot _ _ Hdef Hne1) as Hes.
  set (e := items.EquipmentSlot def) in *.
  assert (owned x s id = stock x (slotsOf (heap s) inv) + worn x equip) as Hown.
  { unfold owned, inventoryView, equipmentView. by rewrite He, Hi. }
  unfold tidy, inventoryView, equipmentView in Htidy.
  rewrite He, Hi in Htidy. destruct Htidy as [Hnine Hslots].
  pose proof Hslots as Hall. rewrite Forall_lookup in Hslots.
  destruct (Hslots i slot Hslot) as [Hq62 Hq1]. specialize (Hq1 Hnamed).
  rewrite (int64_id (Quantity slot - 1)) by lia.
  set (taken := if Quantity slot - 1 <=? 0 then mkSlot "" 0
                else mkSlot (ItemID slot) (Quantity slot - 1)).
  assert (part x taken = part x slot
                         - (if String.eqb (ItemID slot) x then 1 else 0))
    as Htaken.
  { unfold taken, part.
    destruct (Z.leb_spec (Quantity slot - 1) 0); cbn [ItemID Quantity].
    - apply not_eq_sym, String.eqb_neq in Hx. rewrite Hx.
      destruct (String.eqb (ItemID slot) x); lia.
    - destruct (String.eqb (ItemID slot) x); lia. }
  assert (worn x (setEquipSlot equip e (ItemID slot))
          = worn x equip - (if String.eqb (equipSlot equip e) x then 1 else 0)
            + (if String.eqb (ItemID slot) x then 1 else 0)) as Hworn
    by (apply worn_insert; lia).
  set (h := writeSlot (heap s) inv i taken).
  assert (stock x (slotsOf h inv)
          = stock x (slotsOf (heap s) inv)
            - (if String.eqb (ItemID slot) x then 1 else 0)) as Hh.
  { unfold h. rewrite slotsOf_writeSlot, (stock_insert x _ i slot taken Hslot).
    lia. }
  fold (storeBoth id (setEquipSlot equip e (ItemID slot)) inv h s).
  destruct (String.eqb_spec (equipSlot equip e) "") as [Hold|Hold];
    cbn [negb].
  { rewrite owned_storeBoth, Hh, Hworn, Hown, Hold.
    apply not_eq_sym, String.eqb_neq in Hx. rewrite Hx. lia. }
  destruct (String.eqb_spec (ItemID taken) "") as [Hempty|Hleft].
  - fold (storeBoth id (setEquipSlot equip e (ItemID slot)) inv
            (writeSlot h inv i (mkSlot (equipSlot equip e) 1)) s).
    rewrite owned_storeBoth, slotsOf_writeSlot.
    rewrite (stock_insert x _ i taken (mkSlot (equipSlot equip e) 1)).
    + rewrite Hh, Hworn, Hown. unfold part at 2. cbn [ItemID Quantity].
      assert (part x taken = 0) as ->; [|lia].
      unfold part. rewrite Hempty. apply not_eq_sym, String.eqb_neq in Hx.
      by rewrite Hx.
    + unfold h. rewrite slotsOf_writeSlot. apply list_lookup_insert_eq.
      by apply lookup_lt_Some in Hslot.
  - assert (Forall (fun slot => - 2 ^ 63 <= Quantity slot + 1 < 2 ^ 63)
              (slotsOf h inv)) as Hfit.
    { unfold h. rewrite slotsOf_writeSlot. apply Forall_insert.
      - eapply Forall_impl; [exact Hall|]. cbn. lia.
      - unfold taken. destruct (Quantity slot - 1 <=? 0); cbn; lia. }
    destruct (AddItem inv (equipSlot equip e) 1 h) as [h1 err] eqn:Hadd.
    destruct err.
    + apply AddItem_error in Hadd as ->.
      assert (ItemID taken = ItemID slot) as Hti.
      { unfold taken in *. by destruct (Quantity slot - 1 <=? 0). }
      pose proof (AddItem_stacks inv (ItemID slot) 1 h def i taken Hdef) as Hre.
      destruct (AddItem inv (ItemID slot) 1 h) as [h2 err2] eqn:Hadd2.
      cbn [snd] in Hre. rewrite Hre in Hadd2; [| |done].
      2:{ unfold h. rewrite slotsOf_writeSlot. apply list_lookup_insert_eq.
          by apply lookup_lt_Some in Hslot. }
      unfold owned at 1, inventoryView, equipmentView, withHeap.
      cbn [World_ heap].
      rewrite He, Hi, (AddItem_stock _ _ _ _ _ x Hadd2 Hfit Hx), Hh, Hown.
      rewrite eqb_decide. lia.
    + fold (storeBoth id (setEquipSlot equip e (ItemID slot)) inv h1 s).
      rewrite owned_storeBoth, (AddItem_stock _ _ _ _ _ x Hadd Hfit Hx).
      rewrite Hh, Hworn, Hown, (eqb_decide (equipSlot equip e)). lia.
Qed.

(** The part of "Unequip" and of the toggle that puts a worn item back:
    [AddItem], then the slot is emptied if that worked. *)
Lemma putBack_owned (x : string) (id : Entity) (equip : EquipmentComponent)
  (inv : InventoryComponent) (slot : Z) (s : GameServer) :
  GetComponent EquipmentComponent (World_ s) id = Some equip ->
  GetComponent InventoryComponent (World_ s) id = Some inv ->
  tidy s id -> x ≠ "" -> 0 <= slot < 9 ->
  owned x
    (let '(h, err) := AddItem inv (equipSlot equip slot) 1 (heap s) in
     storeBoth id (if err then equip else setEquipSlot equip slot "") inv h s)
    id
  = owned x s id.
Proof.
  intros He Hi Htidy Hx Hslot.
  assert (owned x s id = stock x (slotsOf (heap s) inv) + worn x equip) as Hown.
  { unfold owned, inventoryView, equipmentView. by rewrite He, Hi. }
  unfold tidy, inventoryView, equipmentView in Htidy.
  rewrite He, Hi in Htidy. destruct Htidy as [Hnine Hslots].
  destruct (AddItem inv (equipSlot equip slot) 1 (heap s)) as [h [|]] eqn:Hadd;
    rewrite owned_storeBoth.
  - apply AddItem_error in Hadd as ->. by rewrite Hown.
  - assert (Forall (fun slot => - 2 ^ 63 <= Quantity slot + 1 < 2 ^ 63)
              (slotsOf (heap s) inv)) as Hfit
      by (eapply Forall_impl; [exact Hslots|]; cbn; lia).
    rewrite (AddItem_stock _ _ _ _ _ x Hadd Hfit Hx), worn_insert, Hown by lia.
    apply not_eq_sym, String.eqb_neq in Hx. rewrite Hx.
    rewrite (eqb_decide (equipSlot equip slot)). lia.
Qed.

(** Neither "Equip" nor "Unequip" creates or destroys an item: after an
    equipment request the entity owns of every item, in its inventory and
    its equipment together, what it owned before. *)
Theorem equipment_requests_conserve_items (id : Entity)
  (action : protocol.EquipmentActionPacket) (s : GameServer) (x : string) :
  tidy s id -> x ≠ "" ->
  owned x (HandleEquipmentAction id action s) id = owned x s id.
Proof.
  intros Htidy Hx. unfold HandleEquipmentAction.
  destruct (String.eqb (protocol.Action action) "Equip");
    [by apply equipItemInternal_owned|].
  destruct (String.eqb (protocol.Action action) "Unequip"); [|done].
  destruct (GetComponent EquipmentComponent (World_ s) id) as [equip|] eqn:He;
    [|done].
  destruct (GetComponent InventoryComponent (World_ s) id) as [inv|] eqn:Hi;
    [|done].
  destruct (Z.ltb_spec (protocol.Slot action) 0) as [|Hlo]; [done|].
  destruct (Z.leb_spec 9 (protocol.Slot action)) as [|Hhi]; [done|].
  cbn [orb]. cbv zeta.
  destruct (String.eqb (equipSlot equip (protocol.Slot action)) ""); [done|].
  by apply putBack_owned.
Qed.

(** The hotbar toggle conserves items as well, whether it takes the item
    off or puts it on. *)
Theorem hotbar_toggle_conserves_items (id : Entity) (item : string)
  (s : GameServer) (x : string) :
  tidy s id -> x ≠ "" ->
  owned x (toggleEquipItem id item s) id = owned x s id.
Proof.
  intros Htidy Hx. unfold toggleEquipItem.
  destruct (GetComponent EquipmentComponent (World_ s) id) as [equip|] eqn:He;
    [|done].
  destruct (GetComponent InventoryComponent (World_ s) id) as [inv|] eqn:Hi;
    [|done].
  destruct (list_find _ (eSlots equip)) as [[found worn_]|] eqn:Hfind.
  - apply list_find_Some in Hfind as (Hlook & -> & _).
    pose proof (lookup_lt_Some _ _ _ Hlook) as Hlt.
    assert (length (eSlots equip) = 9%nat) as Hnine.
    { unfold tidy, inventoryView, equipmentView in Htidy.
      rewrite He, Hi in Htidy. tauto. }
    assert (equipSlot equip (Z.of_nat found) = item) as Hworn.
    { unfold equipSlot. by rewrite Nat2Z.id, Hlook. }
    rewrite <- Hworn at 1. apply putBack_owned; try done. lia.
  - destruct (findSlot _ (slotsOf (heap s) inv) 0) as [invSlot|]; [|done].
    destruct (items.Get item) as [def|]; [|done].
    destruct (items.EquipmentSlot def =? -1); [done|].
    by apply equipItemInternal_owned.
Qed.

(** Of the inventory requests only "Drop" changes what the entity owns,
    and it loses exactly the content of the slot dropped: "Swap" moves
    items around, "Primary" equips, anything else does nothing. *)
Theorem inventory_requests_conserve_items (id : Entity)
  (action : protocol.InventoryActionPacket) (s : GameServer) (x : string) :
  tidy s id -> x ≠ "" ->
  owned x (HandleInventoryAction id action s) id
  = owned x s id - dropped x action s id.
Proof.
  intros Htidy Hx. unfold HandleInventoryAction, dropped.
  destruct (GetComponent InventoryComponent (World_ s) id) as [inv|] eqn:Hi.
  2:{ unfold inventoryView. rewrite Hi. destruct (String.eqb _ "Drop"); lia. }
  cbv zeta.
  destruct (String.eqb_spec (protocol.ActionType action) "Swap") as [Hsw|_].
  { rewrite Hsw. cbn. rewrite Z.sub_0_r.
    apply owned_stored; [done|apply SwapItems_stock]. }
  destruct (String.eqb_spec (protocol.ActionType action) "Drop") as [_|_].
  { assert (inventoryView s id = Some (slotsOf (heap s) inv, Capacity inv))
      as Hview by (unfold inventoryView; by rewrite Hi).
    rewrite Hview.
    destruct (Z.leb_spec 0 (protocol.SlotA action)) as [Hlo|Hlo]; cbn [andb].
    - destruct (Z.ltb_spec (protocol.SlotA action)
                  (Z.of_nat (length (slotsOf (heap s) inv)))) as [Hhi|Hhi].
      + destruct (lookup_lt_is_Some_2 (slotsOf (heap s) inv)
                    (Z.to_nat (protocol.SlotA action))) as [slot Hslot]; [lia|].
        rewrite Hslot. cbn [from_option]. unfold owned.
        destruct (views_stored id inv
                    (writeSlot (heap s) inv (Z.to_nat (protocol.SlotA action))
                       (mkSlot "" 0)) s) as [-> ->].
        rewrite Hview.
        destruct (equipmentView s id) as [equip|]; [|lia].
        rewrite slotsOf_writeSlot, (stock_insert x _ _ slot _ Hslot).
        rewrite (part_other x (mkSlot "" 0)) by (cbn; congruence). lia.
      + rewrite (lookup_ge_None_2 (slotsOf (heap s) inv)) by lia.
        cbn [from_option].
        rewrite owned_stored by done. destruct (equipmentView s id); lia.
    - rewrite owned_stored by done. destruct (equipmentView s id); lia. }
  rewrite Z.sub_0_r.
  destruct (String.eqb (protocol.ActionType action) "Primary");
    [|by apply owned_stored].
  destruct (_ && _); [|by apply owned_stored].
  destruct (negb _); [|by apply owned_stored].
  destruct (items.Get _) as [def|]; [|by apply owned_stored].
  destruct (negb _); [|by apply owned_stored].
  by apply equipItemInternal_owned.
Qed.

(** *** The capacity of an inventory *)

Lemma sized_storeBoth (id : Entity) (equip : EquipmentComponent)
  (inv : InventoryComponent) (h : Heap) (s : GameServer) (n : nat) (c : Z) :
  GetComponent InventoryComponent (World_ s) id = Some inv ->
  length (slotsOf h inv) = length (slotsOf (heap s) inv) ->
  sized s id n c -> sized (storeBoth id equip inv h s) id n c.
Proof.
  intros Hi Hlen (slots & Hview & Hn). unfold inventoryView in Hview.
  rewrite Hi in Hview. simplify_eq.
  exists (slotsOf h inv).
  by destruct (views_storeBoth id equip inv h s) as [-> _].
Qed.

Lemma sized_stored (id : Entity) (inv : InventoryComponent) (h : Heap)
  (s : GameServer) (n : nat) (c : Z) :
  GetComponent InventoryComponent (World_ s) id = Some inv ->
  length (slotsOf h inv) = length (slotsOf (heap s) inv) ->
  sized s id n c ->
  sized (mkServer (AddComponent id inv (World_ s)) (Players s) (Maps s) h)
    id n c.
Proof.
  intros Hi Hlen (slots & Hview & Hn). unfold inventoryView in Hview.
  rewrite Hi in Hview. simplify_eq.
  exists (slotsOf h inv). by destruct (views_stored id inv h s) as [-> _].
Qed.

Lemma sized_withHeap (id : Entity) (inv : InventoryComponent) (h : Heap)
  (s : GameServer) (n : nat) (c : Z) :
  GetComponent InventoryComponent (World_ s) id = Some inv ->
  length (slotsOf h inv) = length (slotsOf (heap s) inv) ->
  sized s id n c -> sized (withHeap s h) id n c.
Proof.
  intros Hi Hlen (slots & Hview & Hn). unfold inventoryView in Hview.
  rewrite Hi in Hview. simplify_eq.
  exists (slotsOf h inv). split; [|done].
  unfold inventoryView, withHeap. cbn [World_ heap]. by rewrite Hi.
Qed.

Lemma equipItemInternal_sized (id : Entity) (invSlot equipSlot_ : Z)
  (s : GameServer) (n : nat) (c : Z) :
  sized s id n c -> sized (equipItemInternal id invSlot equipSlot_ s) id n c.
Proof.
  intros Hsized. unfold equipItemInternal.
  destruct (GetComponent EquipmentComponent (World_ s) id) as [equip|];
    [|done].
  destruct (GetComponent InventoryComponent (World_ s) id) as [inv|] eqn:Hi;
    [|done].
  cbv zeta. destruct (_ || _); [done|].
  destruct (String.eqb _ ""); [done|].
  destruct (items.Get _) as [def|]; [|done].
  destruct (_ =? -1); [done|]. destruct (negb _); [done|].
  match goal with
  | |- context [writeSlot (heap s) inv ?i ?t] =>
      set (h := writeSlot (heap s) inv i t);
      assert (length (slotsOf h inv) = length (slotsOf (heap s) inv)) as Hh
        by (unfold h; by rewrite slotsOf_writeSlot, length_insert)
  end.
  destruct (negb _).
  - destruct (String.eqb _ "").
    + apply (sized_storeBoth id _ inv _ s); [done| |done].
      by rewrite slotsOf_writeSlot, length_insert.
    + pose proof (AddItem_length inv
                    (equipSlot equip equipSlot_) 1 h) as Hl1.
      destruct (AddItem inv _ 1 h) as [h1 err]. cbn [fst] in Hl1.
      destruct err.
      * match goal with
        | |- context [AddItem inv ?it 1 h1] =>
            pose proof (AddItem_length inv it 1 h1) as Hl2;
            destruct (AddItem inv it 1 h1) as [h2 err2]
        end.
        cbn [fst] in Hl2.
        apply (sized_withHeap id inv); [done|congruence|done].
      * apply (sized_storeBoth id _ inv _ s); [done|congruence|done].
  - by apply (sized_storeBoth id _ inv _ s).
Qed.

Lemma putBack_sized (id : Entity) (equip : EquipmentComponent)
  (inv : InventoryComponent) (item : string) (slot : Z) (s : GameServer)
  (n : nat) (c : Z) :
  GetComponent InventoryComponent (World_ s) id = Some inv ->
  sized s id n c ->
  sized
    (let '(h, err) := AddItem inv item 1 (heap s) in
     storeBoth id (if err then equip else setEquipSlot equip slot "") inv h s)
    id n c.
Proof.
  intros Hi Hsized. pose proof (AddItem_length inv item 1 (heap s)) as Hl.
  destruct (AddItem inv item 1 (heap s)) as [h err]. cbn [fst] in Hl.
  by apply (sized_storeBoth id _ inv).
Qed.

(** No request changes the size of an inventory: after an equipment
    request, a hotbar toggle or an inventory request the entity shows as
    many slots, and the capacity, it showed before. *)
Theorem requests_keep_capacity (id : Entity) (s : GameServer) (n : nat)
  (c : Z) :
  sized s id n c ->
  (∀ action, sized (HandleEquipmentAction id action s) id n c) ∧
  (∀ item, sized (toggleEquipItem id item s) id n c) ∧
  (∀ action, sized (HandleInventoryAction id action s) id n c).
Proof.
  intros Hsized. split_and!.
  - intros action. unfold HandleEquipmentAction.
    destruct (String.eqb _ "Equip"); [by apply equipItemInternal_sized|].
    destruct (String.eqb _ "Unequip"); [|done].
    destruct (GetComponent EquipmentComponent (World_ s) id) as [equip|];
      [|done].
    destruct (GetComponent InventoryComponent (World_ s) id) as [inv|] eqn:Hi;
      [|done].
    destruct (_ || _); [done|]. cbv zeta. destruct (String.eqb _ ""); [done|].
    by apply putBack_sized.
  - intros item. unfold toggleEquipItem.
    destruct (GetComponent EquipmentComponent (World_ s) id) as [equip|];
      [|done].
    destruct (GetComponent InventoryComponent (World_ s) id) as [inv|] eqn:Hi;
      [|done].
    destruct (list_find _ _) as [[found w_]|]; [by apply putBack_sized|].
    destruct (findSlot _ _ 0); [|done].
    destruct (items.Get item); [|done]. destruct (_ =? -1); [done|].
    by apply equipItemInternal_sized.
  - intros action. unfold HandleInventoryAction.
    destruct (GetComponent InventoryComponent (World_ s) id) as [inv|] eqn:Hi;
      [|done].
    cbv zeta.
    destruct (String.eqb _ "Swap");
      [apply (sized_stored id inv); [done|apply SwapItems_length|done]|].
    destruct (String.eqb _ "Drop").
    { destruct (_ && _); apply (sized_stored id inv); try done.
      by rewrite slotsOf_writeSlot, length_insert. }
    destruct (String.eqb _ "Primary"); [|by apply (sized_stored id inv)].
    destruct (_ && _); [|by apply (sized_stored id inv)].
    destruct (negb _); [|by apply (sized_stored id inv)].
    destruct (items.Get _); [|by apply (sized_stored id inv)].
    destruct (negb _); [|by apply (sized_stored id inv)].
    by apply equipItemInternal_sized.
Qed.

End OwnershipProps.

(** *** A sword worn, a bow carried *)

Section OwnershipExamples.
Import components ecs inventory server.
Local Open Scope Z_scope.

Lemma armedPlayer_tidy : tidy armedPlayer 1%N.
Proof.
  change (length (replicate 9 EmptyString) = 9%nat ∧
          Forall (fun slot => 0 <= Quantity slot < 2 ^ 62 ∧
                              (ItemID slot ≠ "" -> 1 <= Quantity slot))
            [mkSlot "bow_starter" 1; mkSlot "potion_health_small" 3;
             mkSlot "" 0]).
  split; [reflexivity|]. repeat constructor; cbn; try lia. done.
Qed.

(** The bow is equipped from slot 0 and the sword takes its place there:
    one bow and one sword, as before. *)
Lemma equipment_requests_witness :
  owned "bow_starter"
    (HandleEquipmentAction 1%N (protocol.mkEquipmentAction "Equip" 5 0)
       armedPlayer) 1%N
  = owned "bow_starter" armedPlayer 1%N ∧
  owned "sword_starter"
    (HandleEquipmentAction 1%N (protocol.mkEquipmentAction "Unequip" 5 0)
       armedPlayer) 1%N
  = owned "sword_starter" armedPlayer 1%N.
Proof.
  split;
    (apply equipment_requests_conserve_items;
     [apply armedPlayer_tidy|discriminate]).
Defined.

Lemma hotbar_toggle_witness :
  owned "sword_starter" (toggleEquipItem 1%N "sword_starter" armedPlayer) 1%N
  = owned "sword_starter" armedPlayer 1%N.
Proof.
  apply hotbar_toggle_conserves_items; [apply armedPlayer_tidy|discriminate].
Defined.

(** The three potions of slot 1 are dropped. *)
Lemma inventory_requests_witness :
  owned "potion_health_small"
    (HandleInventoryAction 1%N (protocol.mkInventoryAction "Drop" 1 0)
       armedPlayer) 1%N
  = owned "potion_health_small" armedPlayer 1%N
    - dropped "potion_health_small" (protocol.mkInventoryAction "Drop" 1 0)
        armedPlayer 1%N.
Proof.
  apply inventory_requests_conserve_items;
    [apply armedPlayer_tidy|discriminate].
Defined.

Lemma requests_keep_capacity_witness :
  sized (HandleEquipmentAction 1%N (protocol.mkEquipmentAction "Equip" 5 0)
           armedPlayer) 1%N 3 3 ∧
  sized (toggleEquipItem 1%N "sword_starter" armedPlayer) 1%N 3 3 ∧
  sized (HandleInventoryAction 1%N (protocol.mkInventoryAction "Swap" 0 2)
           armedPlayer) 1%N 3 3.
Proof.
  assert (sized armedPlayer 1%N 3 3) as Hsized by (by eexists).
  destruct (requests_keep_capacity 1%N armedPlayer 3 3 Hsized)
    as (He & Ht & Hi).
  split_and!; [apply He|apply Ht|apply Hi].
Defined.

End OwnershipExamples.

(** ** Who is touched by what *)


(** Rewrite the lookups of a world built from inserts and deletes. *)
Ltac stores :=
  unfold absent in *;
  unfold componentsOf, ecs.RemoveEntity, server.despawn,
    ecs.NewEntity, ecs.NewWorld in *;
  tables; simplify_map_eq; try done.

Section ProjectileFrame.
Import components ecs server.
Local Open Scope float_scope.

Lemma forReturn_elem {A R : Type} (l : list A) (body : A -> option R) (r : R) :
  forReturn l body = Some r -> ∃ a, a ∈ l ∧ body a = Some r.
Proof.
  intros (l1 & a & l2 & -> & _ & Ha)%forReturn_Some.
  exists a. split; [|done]. apply elem_of_app. right. apply list_elem_of_here.
Qed.

(** [applyHit] writes to the target only. *)
Lemma applyHit_frame (proj : ProjectileComponent) (tid : Entity)
  (st : StatsComponent) (w : World) (e : Entity) :
  e ≠ tid -> componentsOf (applyHit proj tid st w) e = componentsOf w e.
Proof.
  intros Hne. unfold applyHit, afterHit. repeat case_match; stores.
Qed.

Lemma applyHit_counter (proj : ProjectileComponent) (tid : Entity)
  (st : StatsComponent) (w : World) :
  nextEntityID (applyHit proj tid st w) = nextEntityID w.
Proof. unfold applyHit, afterHit. repeat case_match; stores. Qed.

(** One update of a projectile changes the projectile itself and at most
    one other entity, the target it hits; the target is one of the
    entities scanned and never the owner of the projectile. *)
Theorem projectile_touches_only_its_target (targets : list Entity)
  (pid : Entity) (s s' : GameServer) (proj : ProjectileComponent) :
  GetComponent ProjectileComponent (World_ s) pid = Some proj ->
  UpdateProjectileOver targets pid s = Some s' ->
  Players s' = Players s ∧ Maps s' = Maps s ∧ heap s' = heap s ∧
  nextEntityID (World_ s') = nextEntityID (World_ s) ∧
  ∃ hit : option Entity,
    (∀ tid, hit = Some tid -> tid ∈ targets ∧ tid ≠ OwnerID proj) ∧
    ∀ e, e ≠ pid -> hit ≠ Some e ->
         componentsOf (World_ s') e = componentsOf (World_ s) e.
Proof.
  intros Hp. unfold UpdateProjectileOver. rewrite Hp.
  destruct (GetComponent TransformComponent (World_ s) pid) as [transform|];
    [|intros [= <-]; split_and!; [done..|]; by exists None].
  unfold advance.
  set (transform' := match GetComponent PhysicsComponent (World_ s) pid with
                     | Some phys => _ | None => _ end).
  set (proj' := mkProjectile (OwnerID proj) (pDamage proj) (Lifetime proj - 1)).
  cbv zeta. destruct (Lifetime proj' <=? 0).
  { intros [= <-]. split_and!; [done..|]. exists None.
    split; [done|]. intros e He _. cbn [World_ withWorld]. stores. }
  destruct (terrainBlocks (Maps s) transform').
  { intros [= <-]. split_and!; [done..|]. exists None.
    split; [done|]. intros e He _. cbn [World_ withWorld]. stores. }
  destruct (forReturn targets _) as [[w'|]|] eqn:Hscan; [|done|].
  - intros [= <-]. cbn [World_ withWorld Players Maps heap].
    apply forReturn_elem in Hscan as (tid & Hin & Hhit).
    unfold hitTarget in Hhit.
    change (OwnerID proj') with (OwnerID proj) in Hhit.
    destruct (N.eqb_spec tid (OwnerID proj)) as [|Hown]; [done|].
    destruct (GetComponent TransformComponent _ tid) as [tt|]; [|done].
    destruct (GetComponent SpriteComponent _ tid) as [sp|]; [|done].
    destruct (rectOverlap _ _ _ _ _ _ _ _); [|done].
    destruct (GetComponent StatsComponent _ tid) as [st|]; [|done].
    simplify_eq.
    split_and!; [done..| |].
    { cbn [nextEntityID RemoveEntity]. rewrite applyHit_counter. stores. }
    exists (Some tid). split; [by intros ? [= <-]|].
    intros e He Hne. assert (e ≠ tid) as Hne' by congruence.
    transitivity (componentsOf
                    (applyHit proj' tid st
                       (AddComponent pid proj'
                          (AddComponent pid transform' (World_ s)))) e).
    + stores.
    + rewrite applyHit_frame by done. stores.
  - intros [= <-]. split_and!; [done..|]. exists None.
    split; [done|]. intros e He _. cbn [World_ withWorld]. stores.
Qed.

End ProjectileFrame.

Section RespawnProps.
Import components ecs server.
Local Open Scope float_scope.

Lemma respawnEntity_frame (dt : float) (e id : Entity) (w : World) :
  e ≠ id -> componentsOf (respawnEntity dt e w) id = componentsOf w id.
Proof. intros Hne. unfold respawnEntity. repeat case_match; stores. Qed.

Lemma UpdateRespawnOver_frame (dt : float) (ents : list Entity)
  (id : Entity) (w : World) :
  id ∉ ents -> componentsOf (UpdateRespawnOver ents dt w) id = componentsOf w id.
Proof.
  unfold UpdateRespawnOver. revert w.
  induction ents as [|e ents IH]; intros w Hnotin; [done|].
  apply not_elem_of_cons in Hnotin as [Hne Hnotin]. cbn [foldl].
  rewrite (IH _ Hnotin). by apply respawnEntity_frame.
Qed.

(** What [respawnEntity] makes of an entity depends on the components of
    that entity only. *)
Lemma respawnEntity_local (dt : float) (id : Entity) (w1 w2 : World) :
  componentsOf w1 id = componentsOf w2 id ->
  componentsOf (respawnEntity dt id w1) id
  = componentsOf (respawnEntity dt id w2) id.
Proof.
  unfold componentsOf at 1 2. intros Heq. simplify_eq.
  unfold respawnEntity.
  match goal with H : GetComponent RespawnComponent w1 id = _ |- _ =>
    rewrite H end.
  repeat case_match; stores; congruence.
Qed.

Lemma UpdateRespawnOver_at (dt : float) (ents : list Entity) (id : Entity)
  (w : World) :
  NoDup ents -> id ∈ ents ->
  componentsOf (UpdateRespawnOver ents dt w) id
  = componentsOf (respawnEntity dt id w) id.
Proof.
  intros Hnodup Hin.
  apply list_elem_of_split in Hin as (l1 & l2 & ->).
  apply NoDup_app in Hnodup as (_ & Hl1 & Hl2).
  apply NoDup_cons in Hl2 as [Hl2 _].
  assert (id ∉ l1) as Hnot1.
  { intros Hin1. apply (Hl1 id Hin1). apply list_elem_of_here. }
  unfold UpdateRespawnOver. rewrite foldl_app. cbn [foldl].
  fold (UpdateRespawnOver l1 dt w).
  fold (UpdateRespawnOver l2 dt (respawnEntity dt id (UpdateRespawnOver l1 dt w))).
  rewrite UpdateRespawnOver_frame by done.
  apply respawnEntity_local. by apply UpdateRespawnOver_frame.
Qed.

Lemma respawnEntity_waiting (dt : float) (id : Entity) (w : World)
  (r : RespawnComponent) :
  GetComponent RespawnComponent w id = Some r -> IsDead r = true ->
  (RespawnTimer r - dt <=? 0) = false ->
  componentsOf (respawnEntity dt id w) id
  = componentsOf
      (AddComponent id
         (mkRespawn (rSpawnX r) (rSpawnY r) (RespawnTimer r - dt) true) w) id.
Proof.
  intros Hr Hdead Hwait. unfold respawnEntity. by rewrite Hr, Hdead, Hwait.
Qed.

(** While the timer of a dead entity has not run out, the ticks of
    [UpdateRespawn] only count it down: the entity stays dead and all its
    other components stay as they are.  At the first tick at which the
    timer has run out, the entity is back at its spawn point with the kit
    of a guard: Physics of speed 6, a yellow sprite of 32 by 32, 50 of 50
    health, the zero Input and a wandering AI on a leash of 600 anchored
    at the spawn point; it still wears what it wore. *)
Theorem respawn_waits_for_its_timer (ticks : list (list Entity)) (dt : float)
  (w : World) (id : Entity) (r : RespawnComponent) :
  Forall (fun ents => NoDup ents ∧ id ∈ ents) ticks ->
  GetComponent RespawnComponent w id = Some r -> IsDead r = true ->
  waits (RespawnTimer r) dt (length ticks) = true ->
  let left := timerAfter (RespawnTimer r) dt (length ticks) in
  componentsOf (respawnTicks ticks dt w) id
  = componentsOf
      (AddComponent id (mkRespawn (rSpawnX r) (rSpawnY r) left true) w) id ∧
  ∀ ents, NoDup ents -> id ∈ ents -> (left - dt <=? 0) = true ->
    GetComponent RespawnComponent (respawnTicks (ticks ++ [ents]) dt w) id
    = Some (mkRespawn (rSpawnX r) (rSpawnY r) (left - dt) false) ∧
    GetComponent TransformComponent (respawnTicks (ticks ++ [ents]) dt w) id
    = Some (mkTransform (rSpawnX r) (rSpawnY r) 0 0) ∧
    GetComponent PhysicsComponent (respawnTicks (ticks ++ [ents]) dt w) id
    = Some (mkPhysics 0 0 0 0 6) ∧
    GetComponent SpriteComponent (respawnTicks (ticks ++ [ents]) dt w) id
    = Some (mkSprite (mkRGBA 255 255 0 255) 32 32) ∧
    GetComponent StatsComponent (respawnTicks (ticks ++ [ents]) dt w) id
    = Some (mkStats 50 50 0) ∧
    GetComponent InputComponent (respawnTicks (ticks ++ [ents]) dt w) id
    = Some zeroInput ∧
    GetComponent AIComponent (respawnTicks (ticks ++ [ents]) dt w) id
    = Some (mkAI "wander" "wander" 1 0 0%N true 1 [] 0
              (rSpawnX r) (rSpawnY r) 600) ∧
    GetComponent EquipmentComponent (respawnTicks (ticks ++ [ents]) dt w) id
    = GetComponent EquipmentComponent w id.
Proof.
  intros Hticks Hr Hdead Hwaits.
  assert (componentsOf (respawnTicks ticks dt w) id
          = componentsOf
              (AddComponent id
                 (mkRespawn (rSpawnX r) (rSpawnY r)
                    (timerAfter (RespawnTimer r) dt (length ticks)) true) w) id)
    as Hcount.
  { revert w r Hr Hdead Hwaits.
    induction Hticks as [|ents ticks [Hnodup Hin] _ IH];
      intros w r Hr Hdead Hwaits.
    - cbn. destruct r. cbn in *. subst. unfold componentsOf in *.
      tables. rewrite insert_id; done.
    - cbn [length waits timerAfter] in *.
      apply andb_true_iff in Hwaits as [Hnow Hwaits].
      apply negb_true_iff in Hnow.
      unfold respawnTicks. cbn [foldl].
      fold (respawnTicks ticks dt (UpdateRespawnOver ents dt w)).
      pose proof (UpdateRespawnOver_at dt ents id w Hnodup Hin) as Hat.
      rewrite (respawnEntity_waiting dt id w r Hr Hdead Hnow) in Hat.
      set (r1 := mkRespawn (rSpawnX r) (rSpawnY r) (RespawnTimer r - dt) true)
        in *.
      assert (GetComponent RespawnComponent (UpdateRespawnOver ents dt w) id
              = Some r1) as Hr1.
      { unfold componentsOf in Hat. simplify_eq.
        match goal with H : GetComponent RespawnComponent _ id = _ |- _ =>
          rewrite H end. stores. }
      rewrite (IH (UpdateRespawnOver ents dt w) r1 Hr1 eq_refl Hwaits).
      cbn [rSpawnX rSpawnY RespawnTimer r1].
      unfold componentsOf in *. simplify_eq. stores. congruence. }
  split; [exact Hcount|].
  intros ents Hnodup Hin Hdue. unfold respawnTicks. rewrite foldl_app.
  cbn [foldl]. fold (respawnTicks ticks dt w).
  pose proof (UpdateRespawnOver_at dt ents id (respawnTicks ticks dt w)
                Hnodup Hin) as Hat.
  set (left := timerAfter (RespawnTimer r) dt (length ticks)) in *.
  assert (GetComponent RespawnComponent (respawnTicks ticks dt w) id
          = Some (mkRespawn (rSpawnX r) (rSpawnY r) left true)) as Hleft.
  { unfold componentsOf in Hcount. simplify_eq.
    match goal with H : GetComponent RespawnComponent _ id = _ |- _ =>
      rewrite H end. stores. }
  unfold respawnEntity in Hat. rewrite Hleft in Hat.
  cbn [IsDead negb RespawnTimer rSpawnX rSpawnY] in Hat. rewrite Hdue in Hat.
  unfold componentsOf in Hat. simplify_eq.
  repeat match goal with H : GetComponent _ (UpdateRespawnOver _ _ _) id = _ |- _ =>
    rewrite H; clear H end.
  split_and!; stores.
Qed.

(** The respawn system never touches an entity that is not dead. *)
Theorem UpdateRespawn_spares_the_living (ents : list Entity) (dt : float)
  (w : World) (e : Entity) :
  (∀ r, GetComponent RespawnComponent w e = Some r -> IsDead r = false) ->
  componentsOf (UpdateRespawnOver ents dt w) e = componentsOf w e.
Proof.
  unfold UpdateRespawnOver. revert w.
  induction ents as [|a ents IH]; intros w Halive; [done|]. cbn [foldl].
  assert (componentsOf (respawnEntity dt a w) e = componentsOf w e) as Hstep.
  { destruct (decide (a = e)) as [->|Hne]; [|by apply respawnEntity_frame].
    unfold respawnEntity.
    destruct (GetComponent RespawnComponent w e) as [r|] eqn:Hr; [|done].
    by rewrite (Halive r eq_refl). }
  rewrite IH; [done|].
  intros r Hr. apply Halive. unfold componentsOf in Hstep. simplify_eq.
  congruence.
Qed.

End RespawnProps.

Section HealthProps.
Import components ecs server.
Local Open Scope float_scope.

Lemma healthy_stats (w w' : World) :
  (∀ e st, GetComponent StatsComponent w' e = Some st ->
           GetComponent StatsComponent w e = Some st ∨
           (CurrentHealth st <? 0) = false) ->
  healthy w -> healthy w'.
Proof.
  intros Hfrom Hw e st Hst. destruct (Hfrom e st Hst) as [Hold|Hnew]; eauto.
Qed.

Lemma applyHit_healthy (proj : ProjectileComponent) (tid : Entity)
  (st : StatsComponent) (w : World) :
  healthy w -> healthy (applyHit proj tid st w).
Proof.
  apply healthy_stats. intros e st' Hst'.
  unfold applyHit, afterHit in Hst'.
  set (h := CurrentHealth st - pDamage proj) in *.
  assert (((if h <? 0 then 0 else h) <? 0) = false) as Hclamp
    by (destruct (h <? 0) eqn:Hh; done).
  destruct (decide (e = tid)) as [->|Hne].
  - right. repeat case_match; stores.
  - left. repeat case_match; stores.
Qed.

Lemma RemoveEntity_healthy (pid : Entity) (w : World) :
  healthy w -> healthy (RemoveEntity pid w).
Proof.
  apply healthy_stats. intros e st Hst. left.
  destruct (decide (e = pid)) as [->|Hne]; stores.
Qed.

Lemma respawnEntity_healthy (dt : float) (id : Entity) (w : World) :
  healthy w -> healthy (respawnEntity dt id w).
Proof.
  apply healthy_stats. intros e st Hst. unfold respawnEntity in Hst.
  destruct (decide (e = id)) as [->|Hne].
  - repeat case_match; stores; auto.
  - left. repeat case_match; stores.
Qed.

(** Health never goes below zero: if no entity has a negative health,
    none has after a projectile update, after a tick of the respawn
    system, or after a character is spawned. *)
Theorem health_stays_nonnegative (s : GameServer) :
  healthy (World_ s) ->
  (∀ targets pid s',
     UpdateProjectileOver targets pid s = Some s' -> healthy (World_ s')) ∧
  (∀ ents dt, healthy (UpdateRespawnOver ents dt (World_ s))) ∧
  (∀ x y charID, healthy (World_ (SpawnCharacter x y charID s))).
Proof.
  intros Hs. split_and!.
  - intros targets pid s'. unfold UpdateProjectileOver.
    destruct (GetComponent TransformComponent (World_ s) pid) as [transform|];
      [|by intros [= <-]].
    destruct (GetComponent ProjectileComponent (World_ s) pid) as [proj|];
      [|by intros [= <-]].
    destruct (advance transform proj _) as [transform' proj'].
    assert (healthy (AddComponent pid proj'
                       (AddComponent pid transform' (World_ s)))) as Hmoved.
    { revert Hs. apply healthy_stats. intros e st Hst. left. stores. }
    destruct (Lifetime proj' <=? 0);
      [intros [= <-]; by apply RemoveEntity_healthy|].
    destruct (terrainBlocks (Maps s) transform');
      [intros [= <-]; by apply RemoveEntity_healthy|].
    destruct (forReturn targets _) as [[w'|]|] eqn:Hscan; [|done|];
      intros [= <-]; [|done].
    apply forReturn_elem in Hscan as (tid & _ & Hhit).
    unfold hitTarget in Hhit. repeat case_match; simplify_eq.
    cbn [World_ withWorld]. by apply RemoveEntity_healthy, applyHit_healthy.
  - intros ents dt. unfold UpdateRespawnOver. revert Hs.
    generalize (World_ s) as w.
    induction ents as [|e ents IH]; intros w Hw; [done|].
    cbn [foldl]. by apply IH, respawnEntity_healthy.
  - intros x y charID. revert Hs. apply healthy_stats.
    intros e st Hst. unfold SpawnCharacter in Hst.
    unfold characters.Get, characters.Registry in Hst.
    cbn [find characters.cID] in Hst.
    repeat match goal with
           | H : context [String.eqb ?a charID] |- _ =>
               destruct (String.eqb a charID)
           end; cbn [World_ withWorld] in Hst; [| |by left];
      (destruct (decide (e = ((nextEntityID (World_ s) + 1) mod 2 ^ 64)%N))
         as [->|Hne]; [right|left]; cbn in Hst; stores).
Qed.

End HealthProps.

Section SpellProps.
Import components ecs server.
Local Open Scope float_scope.

Lemma SFcompare_refl (f : SpecFloat.spec_float) :
  SpecFloat.SFcompare f f ≠ Some Lt.
Proof.
  destruct f as [[|]|[|]| |[|] m e]; cbn; try done;
    rewrite Z.compare_refl, Pos.compare_cont_refl; done.
Qed.

(** No float64 is below itself. *)
Lemma ltb_irrefl (x : float) : (x <? x) = false.
Proof.
  rewrite FloatAxioms.ltb_spec. unfold SpecFloat.SFltb.
  pose proof (SFcompare_refl (Prim2SF x)) as Hc.
  destruct (SpecFloat.SFcompare (Prim2SF x) (Prim2SF x)) as [[| |]|]; done.
Qed.

(** A spell that was cast cannot be cast again before its cooldown is
    over: the cast records its time in the spellbook, and a second cast
    within the cooldown changes nothing. *)
Theorem cooldown_blocks_recast (id : Entity) (spell : string)
  (tx ty tx' ty' now now' : float) (w : World) (book : SpellbookComponent)
  (def : Spell) :
  GetComponent SpellbookComponent w id = Some book ->
  existsb (String.eqb spell) (UnlockedSpells book) = true ->
  SpellRegistry spell = Some def ->
  (now - default 0 (Cooldowns book !! spell) <? spCooldown def) = false ->
  (now' - now <? spCooldown def) = true ->
  GetComponent SpellbookComponent (handleSpellCast id spell tx ty now w) id
  = Some (mkSpellbook (UnlockedSpells book)
            (<[spell := now]> (Cooldowns book))) ∧
  handleSpellCast id spell tx' ty' now' (handleSpellCast id spell tx ty now w)
  = handleSpellCast id spell tx ty now w.
Proof.
  intros Hbook Hunlocked Hdef Hready Hsoon.
  assert (GetComponent SpellbookComponent
            (handleSpellCast id spell tx ty now w) id
          = Some (mkSpellbook (UnlockedSpells book)
                    (<[spell := now]> (Cooldowns book)))) as Hcast.
  { unfold handleSpellCast. rewrite Hbook, Hunlocked, Hdef, Hready.
    cbn [negb]. unfold NewEntity. repeat case_match; stores. }
  split; [exact Hcast|].
  unfold handleSpellCast at 1. rewrite Hcast.
  cbn [UnlockedSpells Cooldowns]. rewrite Hunlocked, Hdef. cbn [negb].
  rewrite lookup_insert_eq. cbn [from_option]. unfold Datatypes.id.
  by rewrite Hsoon.
Qed.

(** A heal adds 20 to the health of the caster, or sets it to the maximum
    when the sum would exceed the maximum; either way the new health does
    not exceed the maximum, and nothing else of the Stats changes. *)
Theorem heal_stays_within_max (id : Entity) (tx ty now : float) (w : World)
  (book : SpellbookComponent) (stats : StatsComponent) :
  GetComponent SpellbookComponent w id = Some book ->
  existsb (String.eqb "heal") (UnlockedSpells book) = true ->
  (now - default 0 (Cooldowns book !! "heal") <? 5) = false ->
  is_Some (GetComponent TransformComponent w id) ->
  GetComponent StatsComponent w id = Some stats ->
  let h := if CurrentHealth stats + 20 >? MaxHealth stats
           then MaxHealth stats else CurrentHealth stats + 20 in
  GetComponent StatsComponent (handleSpellCast id "heal" tx ty now w) id
  = Some (mkStats (MaxHealth stats) h (sDamage stats)) ∧
  (h >? MaxHealth stats) = false.
Proof.
  intros Hbook Hunlocked Hready [transform Htr] Hstats.
  unfold handleSpellCast. rewrite Hbook, Hunlocked. cbn [negb].
  change (SpellRegistry "heal")
    with (Some (mkSpell "heal" (mkRGBA 100 255 100 255) 5 "instant")).
  cbn [spCooldown]. rewrite Hready.
  assert (GetComponent TransformComponent
            (AddComponent id
               (mkSpellbook (UnlockedSpells book)
                  (<[("heal" : string) := now]> (Cooldowns book))) w) id
          = Some transform) as -> by stores.
  assert (GetComponent StatsComponent
            (AddComponent id
               (mkSpellbook (UnlockedSpells book)
                  (<[("heal" : string) := now]> (Cooldowns book))) w) id
          = Some stats) as -> by stores.
  cbn [String.eqb Ascii.eqb Bool.eqb]. cbv zeta.
  split; [unfold setHealth; stores|].
  destruct (CurrentHealth stats + 20 >? MaxHealth stats) eqn:Hcap.
  - apply ltb_irrefl.
  - done.
Qed.

End SpellProps.

Section AttackProps2.
Import components ecs server.
Local Open Scope float_scope.

(** An attack that goes through spawns one new entity, the projectile: it
    is owned by the attacker and carries the damage of the equipped weapon
    (not of the Attack component of the attacker); the attacker's time of
    last attack is set, and no other entity changes. *)
Theorem attack_spawns_owned_projectile (id : Entity) (now : float)
  (s : GameServer) (input : InputComponent) (weapon : AttackComponent) :
  armed s id input weapon ->
  held s id = false ->
  (now - lastAttack s id <? Cooldown weapon) = false ->
  let pid := ((nextEntityID (World_ s) + 1) mod 2 ^ 64)%N in
  nextEntityID (World_ (HandleAttack id now s)) = pid ∧
  GetComponent ProjectileComponent (World_ (HandleAttack id now s)) pid
  = Some (mkProjectile id (aDamage weapon) (lifetimeOf weapon)) ∧
  is_Some (GetComponent TransformComponent (World_ (HandleAttack id now s)) pid) ∧
  lastAttack (HandleAttack id now s) id = now ∧
  ∀ e, e ≠ pid -> e ≠ id ->
       componentsOf (World_ (HandleAttack id now s)) e
       = componentsOf (World_ s) e.
Proof.
  intros (Hin & Hatt & Hsp & Hw & [transform Htr]) Hheld Hready pid.
  unfold HandleAttack, held in *.
  tables. rewrite Hin, Hatt, Hheld, Hsp, Hw. cbn [negb String.eqb].
  unfold lastAttack in Hready. tables. rewrite Hready, Htr.
  unfold lastAttack, spawnAttack, NewEntity, withWorld, lifetimeOf.
  fold pid.
  destruct (aType weapon);
    destruct (sprites (World_ s) !! id);
    repeat match goal with
           | |- context [let '(_, _) := ?d in _] => destruct d
           end;
    cbn [World_]; split_and!; try (intros ?); try (intros ? ?);
    stores.
Qed.

End AttackProps2.

Section PlacedProps.
Import components ecs server.
Local Open Scope float_scope.

(** [bodiesPlaced] carries over to a world whose bodies without a
    Transform were such bodies before. *)
Lemma bodiesPlaced_from (w w' : World) :
  (∀ e, is_Some (GetComponent PhysicsComponent w' e) ->
        GetComponent ProjectileComponent w' e = None ->
        is_Some (GetComponent TransformComponent w' e) ∨
        (is_Some (GetComponent PhysicsComponent w e) ∧
         GetComponent ProjectileComponent w e = None ∧
         (is_Some (GetComponent TransformComponent w e) ->
          is_Some (GetComponent TransformComponent w' e)))) ->
  bodiesPlaced w -> bodiesPlaced w'.
Proof.
  intros Hfrom Hw e Hph Hpj.
  destruct (Hfrom e Hph Hpj) as [Ht|(Hph' & Hpj' & Ht)]; [done|].
  apply Ht, Hw; done.
Qed.

(** Decide how the entity at hand relates to the entities written. *)
Ltac whois e :=
  repeat match goal with
         | |- context [<[?k := _]> _ !! e] =>
             destruct (decide (e = k)) as [->|?]; simplify_map_eq
         | H : context [<[?k := _]> _ !! e] |- _ =>
             destruct (decide (e = k)) as [->|?]; simplify_map_eq
         | |- context [delete ?k _ !! e] =>
             destruct (decide (e = k)) as [->|?]; simplify_map_eq
         | H : context [delete ?k _ !! e] |- _ =>
             destruct (decide (e = k)) as [->|?]; simplify_map_eq
         end.

Ltac placed :=
  apply bodiesPlaced_from; intros e Hph Hpj;
  stores; whois e; simplify_map_eq;
  try match goal with
      | H : is_Some None |- _ => by destruct (is_Some_None H)
      end;
  eauto 6.

Lemma applyHit_placed (proj : ProjectileComponent) (tid : Entity)
  (st : StatsComponent) (w : World) :
  bodiesPlaced w -> bodiesPlaced (applyHit proj tid st w).
Proof. unfold applyHit, afterHit. repeat case_match; placed. Qed.

Lemma respawnEntity_placed (dt : float) (id : Entity) (w : World) :
  bodiesPlaced w -> bodiesPlaced (respawnEntity dt id w).
Proof. unfold respawnEntity. repeat case_match; placed. Qed.

Lemma handleSpellCast_placed (id : Entity) (spell : string)
  (tx ty now : float) (w : World) :
  bodiesPlaced w -> bodiesPlaced (handleSpellCast id spell tx ty now w).
Proof.
  unfold handleSpellCast.
  destruct (GetComponent SpellbookComponent w id) as [book|]; [|done].
  destruct (negb _); [done|].
  destruct (SpellRegistry spell) as [def|]; [|done].
  destruct (_ <? _); [done|].
  destruct (GetComponent TransformComponent _ id) as [transform|] eqn:Htr;
    [|placed].
  destruct (String.eqb spell "fireball").
  { unfold NewEntity. destruct (Direction _ _ _ _). placed. }
  destruct (String.eqb spell "heal"); [case_match; placed|].
  destruct (String.eqb spell "blink"); [|placed].
  destruct (Direction _ _ _ _). placed.
Qed.

(** Every entity that holds Physics and is no projectile holds a
    Transform: the spawn, attack, projectile, respawn and logout code keep
    it so, and so do the movement of an entity and the decision of an AI.
    (It is what the movement system needs in order not to panic.) *)
Theorem bodies_stay_placed (s : GameServer) :
  bodiesPlaced (World_ s) ->
  (∀ x y charID, bodiesPlaced (World_ (SpawnCharacter x y charID s))) ∧
  (∀ id now, bodiesPlaced (World_ (HandleAttack id now s))) ∧
  (∀ targets pid s',
     UpdateProjectileOver targets pid s = Some s' ->
     bodiesPlaced (World_ s')) ∧
  (∀ ents dt, bodiesPlaced (UpdateRespawnOver ents dt (World_ s))) ∧
  (∀ id, bodiesPlaced (World_ (RemovePlayer id s))) ∧
  (∀ Atan2 id dt ms ms',
     movement.mWorld ms = World_ s ->
     movement.UpdateEntityMovement Atan2 id dt ms = Some ms' ->
     bodiesPlaced (movement.mWorld ms')) ∧
  (∀ dt id a a' flow,
     ai.aWorld a = World_ s ->
     ai.updateEntity dt id a = Some (a', flow) ->
     bodiesPlaced (ai.aWorld a')).
Proof.
  intros Hs. split_and!.
  - intros x y charID. unfold SpawnCharacter.
    destruct (characters.Get charID) as [def|]; [|done].
    unfold NewEntity. cbn [World_ withWorld]. revert Hs.
    destruct (negb _); placed.
  - intros id now. unfold HandleAttack.
    destruct (GetComponent InputComponent (World_ s) id) as [input|]; [|done].
    destruct (negb (Attack input)); [done|].
    destruct (match Players s !! id with Some _ => _ | None => _ end);
      [done|].
    destruct (negb (String.eqb _ ""));
      [by apply handleSpellCast_placed|].
    destruct (weaponOf (World_ s) id) as [weapon|]; [|done].
    destruct (_ <? _); [done|].
    destruct (GetComponent TransformComponent (World_ s) id) as [transform|];
      [|done].
    cbn [World_ withWorld]. unfold spawnAttack, NewEntity. revert Hs.
    destruct (GetComponent SpriteComponent _ id);
      destruct (aType weapon); destruct (Direction _ _ _ _); placed.
  - intros targets pid s'. unfold UpdateProjectileOver.
    destruct (GetComponent TransformComponent (World_ s) pid) as [transform|];
      [|by intros [= <-]].
    destruct (GetComponent ProjectileComponent (World_ s) pid) as [proj|];
      [|by intros [= <-]].
    destruct (advance transform proj _) as [transform' proj'].
    assert (bodiesPlaced (AddComponent pid proj'
                            (AddComponent pid transform' (World_ s))))
      as Hmoved by (revert Hs; placed).
    destruct (Lifetime proj' <=? 0);
      [intros [= <-]; revert Hs; placed|].
    destruct (terrainBlocks (Maps s) transform');
      [intros [= <-]; revert Hmoved; placed|].
    destruct (forReturn targets _) as [[w'|]|] eqn:Hscan; [|done|];
      intros [= <-]; [|done].
    apply forReturn_elem in Hscan as (tid & _ & Hhit).
    unfold hitTarget in Hhit. repeat case_match; simplify_eq.
    cbn [World_ withWorld].
    match goal with
    | |- bodiesPlaced (RemoveEntity pid (applyHit ?p ?t ?st ?w)) =>
        pose proof (applyHit_placed p t st w Hmoved) as Hhit;
        revert Hhit; generalize (applyHit p t st w)
    end.
    intros w. placed.
  - intros ents dt. unfold UpdateRespawnOver. revert Hs.
    generalize (World_ s) as w.
    induction ents as [|e ents IH]; intros w Hw; [done|].
    cbn [foldl]. by apply IH, respawnEntity_placed.
  - intros id. cbn [World_ RemovePlayer]. revert Hs. placed.
  - intros Atan2 id dt ms ms' Hw. unfold movement.UpdateEntityMovement.
    rewrite Hw.
    destruct (GetComponent InputComponent (World_ s) id); [|by intros [= <-]; rewrite Hw].
    destruct (GetComponent TransformComponent (World_ s) id);
      [|by intros [= <-]; rewrite Hw].
    destruct (GetComponent PhysicsComponent (World_ s) id);
      [|by intros [= <-]; rewrite Hw].
    destruct (movement.normalized _).
    destruct (movement.blocked _ _ _ _ _) as [bx|]; [|done].
    destruct (movement.blocked _ _ _ _ _) as [by_|]; [|done].
    destruct (movement.updateRotation _ _ _ _ _ _ _ _).
    intros [= <-]. cbn [movement.mWorld]. revert Hs. placed.
  - intros dt id a a' flow Hw. unfold ai.updateEntity. rewrite Hw.
    destruct (GetComponent AIComponent (World_ s) id) as [ai_|];
      [|by intros [= <- _]; rewrite Hw].
    destruct (GetComponent InputComponent (World_ s) id) as [input|];
      [|by intros [= <- _]; rewrite Hw].
    destruct (GetComponent TransformComponent (World_ s) id) as [transform|];
      [|by intros [= <- _]; rewrite Hw].
    destruct (ai.aMaps a !! tZ transform) as [m|];
      [|by intros [= <- _]; rewrite Hw].
    destruct (negb _).
    + destruct (ai.engaged _ _ _ _ _ _ _) as [[w' flow']|] eqn:Heng; [|done].
      intros [= <- _]. cbn [ai.aWorld].
      unfold ai.engaged in Heng.
      repeat match type of Heng with
             | context [match ?d with _ => _ end] => destruct d
             | context [if ?d then _ else _] => destruct d
             end; simplify_eq; unfold ai.save; revert Hs; placed.
    + destruct (String.eqb _ "return").
      * destruct (ai.returning _ _ _ _ _) as [[ai' input']|]; [|done].
        intros [= <- _]. cbn [ai.aWorld]. unfold ai.save. revert Hs. placed.
      * destruct (ai.wander _ _ _ _ _) as [[ai' input'] r].
        intros [= <- _]. cbn [ai.aWorld]. unfold ai.save. revert Hs. placed.
Qed.

End PlacedProps.

Section ComingAndGoing.
Import components ecs network server.
Local Open Scope float_scope.

(** [UpdateProjectile] never reads the health of an entity without Stats:
    its scan ranges over the entities that hold Stats, and nothing before
    the scan takes a Stats component away. *)
Theorem UpdateProjectile_never_panics (pid : Entity) (s : GameServer)
  (targets : list Entity) :
  (∀ tid, tid ∈ targets ->
          is_Some (GetComponent StatsComponent (World_ s) tid)) ->
  is_Some (UpdateProjectileOver targets pid s) ∧
  is_Some (UpdateProjectile pid s).
Proof.
  assert (∀ targets,
            (∀ tid, tid ∈ targets ->
                    is_Some (GetComponent StatsComponent (World_ s) tid)) ->
            is_Some (UpdateProjectileOver targets pid s)) as Hany.
  { clear targets. intros targets Hstats. unfold UpdateProjectileOver.
    destruct (GetComponent TransformComponent (World_ s) pid) as [transform|];
      [|by eexists].
    destruct (GetComponent ProjectileComponent (World_ s) pid) as [proj|];
      [|by eexists].
    destruct (advance transform proj _) as [transform' proj'].
    destruct (Lifetime proj' <=? 0); [by eexists|].
    destruct (terrainBlocks (Maps s) transform'); [by eexists|].
    destruct (forReturn targets _) as [[w'|]|] eqn:Hscan; [by eexists| |by eexists].
    apply forReturn_elem in Hscan as (tid & Hin & Hhit).
    destruct (Hstats tid Hin) as [st Hst].
    unfold hitTarget in Hhit.
    assert (GetComponent StatsComponent
              (AddComponent pid proj'
                 (AddComponent pid transform' (World_ s))) tid = Some st)
      as Hst' by stores.
    rewrite Hst' in Hhit. repeat case_match; simplify_eq. }
  intros Hstats. split; [by apply Hany|].
  apply Hany. intros tid Hin.
  destruct (Query_order (T:=StatsComponent) (World_ s)) as [_ Hmem].
  by apply Hmem.
Qed.

Lemma SpawnCharacter_unknown (x y : float) (charID : string)
  (s : GameServer) :
  characters.Get charID = None -> SpawnCharacter x y charID s = s.
Proof. unfold SpawnCharacter. by intros ->. Qed.

(** [SpawnCharacter] with a registered blueprint creates one entity and
    touches no other: the NPC stands at the given place with the full
    health of its blueprint, alive, wandering without target, its leash of
    600 pixels anchored where it stands, which is also where it will
    respawn; and it is armed: its weapon slot holds a registered weapon. *)
Theorem SpawnCharacter_builds_the_blueprint (x y : float) (charID : string)
  (s : GameServer) (def : characters.CharacterDefinition) :
  characters.Get charID = Some def ->
  let npc := ((nextEntityID (World_ s) + 1) mod 2 ^ 64)%N in
  let w' := World_ (SpawnCharacter x y charID s) in
  nextEntityID w' = npc ∧
  GetComponent TransformComponent w' npc = Some (mkTransform x y 0 0) ∧
  GetComponent StatsComponent w' npc
  = Some (mkStats (characters.cMaxHealth def) (characters.cMaxHealth def) 0) ∧
  GetComponent InputComponent w' npc = Some zeroInput ∧
  GetComponent AIComponent w' npc
  = Some (mkAI "" "wander" 0 0 0%N (characters.cIsAggressive def)
            (characters.cFaction def) [] 0 x y 600) ∧
  GetComponent RespawnComponent w' npc = Some (mkRespawn x y 0 false) ∧
  is_Some (GetComponent PhysicsComponent w' npc) ∧
  is_Some (GetComponent SpriteComponent w' npc) ∧
  is_Some (weaponOf w' npc) ∧
  (∀ e, e ≠ npc -> componentsOf w' e = componentsOf (World_ s) e) ∧
  Players (SpawnCharacter x y charID s) = Players s ∧
  heap (SpawnCharacter x y charID s) = heap s.
Proof.
  intros Hdef npc. unfold SpawnCharacter. rewrite Hdef.
  unfold NewEntity. fold npc. cbn [World_ withWorld Players heap].
  assert (characters.WeaponID def = "sword_starter" ∨
          characters.WeaponID def = "bow_starter") as Hweapon.
  { unfold characters.Get, characters.Registry in Hdef.
    cbn [find characters.cID] in Hdef.
    repeat match type of Hdef with
           | context [String.eqb ?a charID] => destruct (String.eqb a charID)
           end; simplify_eq; auto. }
  assert (negb (String.eqb (characters.WeaponID def) "") = true) as ->
    by (destruct Hweapon as [-> | ->]; done).
  split_and!; try (stores; fail).
  - unfold weaponOf. stores.
    destruct Hweapon as [-> | ->]; by eexists.
  - intros e He. stores.
Qed.

(** A player that was removed is gone: the world holds nothing of it, it
    is no longer in the table of players, and no snapshot lists it; every
    other entity, and its snapshot, is as before. *)
Theorem removed_player_is_gone (id : Entity) (s : GameServer) :
  absent (World_ (RemovePlayer id s)) id ∧
  Players (RemovePlayer id s) !! id = None ∧
  (∀ ents snap,
     snap ∈ PrepareStateUpdateOver ents (World_ (RemovePlayer id s)) ->
     ID snap ≠ id) ∧
  ∀ e, e ≠ id ->
       componentsOf (World_ (RemovePlayer id s)) e = componentsOf (World_ s) e ∧
       Players (RemovePlayer id s) !! e = Players s !! e ∧
       snapshotOf (World_ (RemovePlayer id s)) e = snapshotOf (World_ s) e.
Proof.
  cbn [RemovePlayer World_ Players]. split_and!.
  - stores.
  - apply lookup_delete_eq.
  - intros ents snap Hin Hid. unfold PrepareStateUpdateOver in Hin.
    apply list_elem_of_omap in Hin as (e & _ & Hsnap).
    apply snapshotOf_Some in Hsnap as (He & [sp Hsp] & _).
    assert (e = id) as -> by congruence. stores.
  - intros e He. split_and!.
    + stores.
    + by apply lookup_delete_ne.
    + unfold snapshotOf. stores.
Qed.

End ComingAndGoing.
(** *** The arrow, the dead guard and the mage *)

Section CombatExamples.
Import components ecs network server.
Local Open Scope float_scope.

(** The arrow of the player hits the guard; the player is as before. *)
Lemma projectile_touches_only_its_target_witness :
  ∃ s', UpdateProjectileOver [1%N; 2%N] 5%N arrowAtIdleGuard = Some s' ∧
        componentsOf (World_ s') 1%N
        = componentsOf (World_ arrowAtIdleGuard) 1%N.
Proof.
  destruct (UpdateProjectileOver [1%N; 2%N] 5%N arrowAtIdleGuard)
    as [s'|] eqn:Hrun; [|by vm_compute in Hrun].
  exists s'. split; [done|].
  destruct (projectile_touches_only_its_target [1%N; 2%N] 5%N
              arrowAtIdleGuard s' (mkProjectile 1%N 10 20) eq_refl Hrun)
    as (_ & _ & _ & _ & hit & Hhit & Hframe).
  apply Hframe; [done|]. intros ->. by destruct (Hhit 1%N eq_refl).
Defined.

(** The dead guard waits three ticks of 33 ms and is back at the
    fourth. *)
Lemma respawn_waits_for_its_timer_witness :
  GetComponent TransformComponent
    (respawnTicks [[2%N]; [2%N]; [2%N]] 0.033 almostBack) 2%N = None ∧
  GetComponent TransformComponent
    (respawnTicks ([[2%N]; [2%N]; [2%N]] ++ [[2%N]]) 0.033 almostBack) 2%N
  = Some (mkTransform 100 100 0 0) ∧
  GetComponent InputComponent
    (respawnTicks ([[2%N]; [2%N]; [2%N]] ++ [[2%N]]) 0.033 almostBack) 2%N
  = Some zeroInput.
Proof.
  assert (NoDup [2%N] ∧ 2%N ∈ [2%N]) as Hone
    by (split; [apply NoDup_singleton|apply list_elem_of_here]).
  destruct (respawn_waits_for_its_timer [[2%N]; [2%N]; [2%N]] 0.033
              almostBack 2%N (mkRespawn 100 100 0.1 true)
              ltac:(repeat (apply Forall_cons_2; [exact Hone|]);
                     apply Forall_nil_2)
              eq_refl eq_refl eq_refl)
    as [Hwait Hback].
  split.
  - apply (f_equal (fun c => c.1.1.1.1.1.1.1.1.1.1.1)) in Hwait.
    exact Hwait.
  - destruct (Hback [2%N] (proj1 Hone) (proj2 Hone) eq_refl)
      as (_ & Ht & _ & _ & _ & Hi & _).
    split; [exact Ht|exact Hi].
Defined.

(** The guard is alive: a tick of the respawn system passes it by. *)
Lemma UpdateRespawn_spares_the_living_witness :
  componentsOf (UpdateRespawnOver [2%N] 0.033 (skirmish 50 0%N 100)) 2%N
  = componentsOf (skirmish 50 0%N 100) 2%N.
Proof.
  apply UpdateRespawn_spares_the_living. intros r Hr.
  vm_compute in Hr. by injection Hr as <-.
Defined.

Lemma skirmish_healthy (guardHealth playerHealth damage : float)
  (target : Entity) :
  (guardHealth <? 0) = false -> (playerHealth <? 0) = false ->
  healthy (World_ (onField (withArrow 5%N 1%N damage
                              (skirmish guardHealth target playerHealth)))).
Proof.
  intros Hg Hp e st Hst.
  unfold onField, withArrow, skirmish, withGuard, withPlayer in Hst.
  cbn [World_] in Hst. tables.
  destruct (decide (e = 2%N)) as [->|?]; [by simplify_map_eq|].
  destruct (decide (e = 1%N)) as [->|?]; by simplify_map_eq.
Qed.

(** After the arrow has hit, after a respawn tick and after a new guard
    was spawned, nobody has a negative health. *)
Lemma health_stays_nonnegative_witness :
  (∃ s', UpdateProjectileOver [1%N; 2%N] 5%N arrowAtWeakGuard = Some s' ∧
         healthy (World_ s')) ∧
  healthy (UpdateRespawnOver [2%N] 0.033 (World_ arrowAtWeakGuard)) ∧
  healthy (World_ (SpawnCharacter 300 300 "guard_ranged" arrowAtWeakGuard)).
Proof.
  destruct (health_stays_nonnegative arrowAtWeakGuard
              (skirmish_healthy 10 100 10 0%N eq_refl eq_refl))
    as (Hhit & Hrespawn & Hspawn).
  split_and!; [|apply Hrespawn|apply Hspawn].
  destruct (UpdateProjectileOver [1%N; 2%N] 5%N arrowAtWeakGuard)
    as [s'|] eqn:Hrun; [|by vm_compute in Hrun].
  exists s'. split; [done|]. by apply (Hhit [1%N; 2%N] 5%N).
Defined.

(** The mage heals at second 1000; three seconds later the spell is still
    cooling down and a second cast does nothing. *)
Lemma cooldown_blocks_recast_witness :
  handleSpellCast 1%N "heal" 0 0 1003 (handleSpellCast 1%N "heal" 0 0 1000 mage)
  = handleSpellCast 1%N "heal" 0 0 1000 mage.
Proof.
  apply (cooldown_blocks_recast 1%N "heal" 0 0 0 0 1000 1003 mage
           (mkSpellbook ["heal"; "fireball"] ∅)
           (mkSpell "heal" (mkRGBA 100 255 100 255) 5 "instant"));
    reflexivity.
Defined.

(** The heal lifts the mage from 95 to the maximum of 100, not to 115. *)
Lemma heal_stays_within_max_witness :
  GetComponent StatsComponent (handleSpellCast 1%N "heal" 0 0 1000 mage) 1%N
  = Some (mkStats 100 100 0) ∧
  (100 >? 100) = false.
Proof.
  apply (heal_stays_within_max 1%N 0 0 1000 mage
           (mkSpellbook ["heal"; "fireball"] ∅) (mkStats 100 95 0));
    try reflexivity. by eexists.
Defined.

(** The archer looses an arrow: entity 1 is the arrow's owner, the damage
    is the bow's 10, and the arrow lives 400 / 10 ticks. *)
Lemma attack_spawns_owned_projectile_witness :
  GetComponent ProjectileComponent (World_ (HandleAttack 1%N 1000 archer)) 1%N
  = Some (mkProjectile 1%N 10 (400 / 10)) ∧
  lastAttack (HandleAttack 1%N 1000 archer) 1%N = 1000.
Proof.
  destruct (attack_spawns_owned_projectile 1%N 1000 archer
              (setMouse (setAttack zeroInput true) 300 100)
              (mkAttack 10 400 0.5 0 AttackTypeRanged))
    as (_ & Hproj & _ & Hlast & _).
  - repeat split; try reflexivity. by eexists.
  - reflexivity.
  - reflexivity.
  - split; [exact Hproj|exact Hlast].
Defined.

Lemma skirmish_placed (guardHealth playerHealth damage : float)
  (target : Entity) :
  bodiesPlaced (World_ (onField (withArrow 5%N 1%N damage
                                   (skirmish guardHealth target playerHealth)))).
Proof.
  intros e [ph Hph] Hpj.
  unfold onField, withArrow, skirmish, withGuard, withPlayer in *.
  cbn [World_] in *. tables.
  destruct (decide (e = 5%N)) as [->|?]; [by simplify_map_eq|].
  destruct (decide (e = 2%N)) as [->|?]; by simplify_map_eq.
Qed.

(** The bodies are placed on the field, and they still are after a guard
    was spawned and after the arrow has hit. *)
Lemma bodies_stay_placed_witness :
  bodiesPlaced (World_ (SpawnCharacter 300 300 "guard_melee" arrowAtWeakGuard)) ∧
  ∃ s', UpdateProjectileOver [1%N; 2%N] 5%N arrowAtWeakGuard = Some s' ∧
        bodiesPlaced (World_ s').
Proof.
  destruct (bodies_stay_placed arrowAtWeakGuard (skirmish_placed 10 100 10 0%N))
    as (Hspawn & _ & Hhit & _).
  split; [apply Hspawn|].
  destruct (UpdateProjectileOver [1%N; 2%N] 5%N arrowAtWeakGuard)
    as [s'|] eqn:Hrun; [|by vm_compute in Hrun].
  exists s'. split; [done|]. by apply (Hhit [1%N; 2%N] 5%N).
Defined.

(** The player and the guard both hold Stats: the update of the arrow
    returns. *)
Lemma UpdateProjectile_never_panics_witness :
  is_Some (UpdateProjectileOver [1%N; 2%N] 5%N arrowAtIdleGuard) ∧
  is_Some (UpdateProjectile 5%N arrowAtIdleGuard).
Proof.
  apply UpdateProjectile_never_panics. intros tid Htid.
  apply elem_of_cons in Htid as [->|Htid]; [by eexists|].
  apply list_elem_of_singleton in Htid as ->. by eexists.
Defined.

(** An archer is spawned on the empty field: entity 1, with 40 health. *)
Lemma SpawnCharacter_builds_the_blueprint_witness :
  GetComponent StatsComponent
    (World_ (SpawnCharacter 300 300 "guard_ranged" (onField NewWorld))) 1%N
  = Some (mkStats 40 40 0) ∧
  is_Some (weaponOf
             (World_ (SpawnCharacter 300 300 "guard_ranged" (onField NewWorld)))
             1%N).
Proof.
  destruct (SpawnCharacter_builds_the_blueprint 300 300 "guard_ranged"
              (onField NewWorld)
              (characters.mkCharacter "guard_ranged" "City Archer" 32 32
                 (mkRGBA 0 0 255 255) "guard" 1 true 40 1 "bow_starter")
              eq_refl)
    as (_ & _ & Hstats & _ & _ & _ & _ & _ & Harmed & _).
  split; [exact Hstats|exact Harmed].
Defined.

End CombatExamples.

(** ** Boxes and bodies *)

Section SolidProps.
Import components ecs inventory server.
Local Open Scope float_scope.

(** [bodiesSolid] carries over to a world whose boxes without Physics
    were such boxes before. *)
Lemma bodiesSolid_from (w w' : World) :
  (∀ e, is_Some (GetComponent TransformComponent w' e) ->
        GetComponent ProjectileComponent w' e = None ->
        is_Some (GetComponent PhysicsComponent w' e) ∨
        (is_Some (GetComponent TransformComponent w e) ∧
         GetComponent ProjectileComponent w e = None ∧
         (is_Some (GetComponent PhysicsComponent w e) ->
          is_Some (GetComponent PhysicsComponent w' e)))) ->
  bodiesSolid w -> bodiesSolid w'.
Proof.
  intros Hfrom Hw e Ht Hpj.
  destruct (Hfrom e Ht Hpj) as [Hph|(Ht' & Hpj' & Hph)]; [done|].
  apply Hph, Hw; done.
Qed.

Ltac whois e :=
  repeat match goal with
         | |- context [<[?k := _]> _ !! e] =>
             destruct (decide (e = k)) as [->|?]; simplify_map_eq
         | H : context [<[?k := _]> _ !! e] |- _ =>
             destruct (decide (e = k)) as [->|?]; simplify_map_eq
         | |- context [delete ?k _ !! e] =>
             destruct (decide (e = k)) as [->|?]; simplify_map_eq
         | H : context [delete ?k _ !! e] |- _ =>
             destruct (decide (e = k)) as [->|?]; simplify_map_eq
         end.

Ltac solid :=
  apply bodiesSolid_from; intros e Ht Hpj;
  stores; whois e; simplify_map_eq;
  try match goal with
      | H : is_Some None |- _ => by destruct (is_Some_None H)
      end;
  eauto 6.

Ltac placed :=
  apply bodiesPlaced_from; intros e Hph Hpj;
  stores; whois e; simplify_map_eq;
  try match goal with
      | H : is_Some None |- _ => by destruct (is_Some_None H)
      end;
  eauto 6.

Lemma applyHit_solid (proj : ProjectileComponent) (tid : Entity)
  (st : StatsComponent) (w : World) :
  bodiesSolid w -> bodiesSolid (applyHit proj tid st w).
Proof. unfold applyHit, afterHit. repeat case_match; solid. Qed.

Lemma respawnEntity_solid (dt : float) (id : Entity) (w : World) :
  bodiesSolid w -> bodiesSolid (respawnEntity dt id w).
Proof. unfold respawnEntity. repeat case_match; solid. Qed.

Lemma handleSpellCast_solid (id : Entity) (spell : string)
  (tx ty now : float) (w : World) :
  bodiesSolid w -> bodiesSolid (handleSpellCast id spell tx ty now w).
Proof.
  unfold handleSpellCast.
  destruct (GetComponent SpellbookComponent w id) as [book|]; [|done].
  destruct (negb _); [done|].
  destruct (SpellRegistry spell) as [def|]; [|done].
  destruct (_ <? _); [done|].
  destruct (GetComponent TransformComponent _ id) as [transform|] eqn:Htr;
    [|solid].
  destruct (String.eqb spell "fireball").
  { unfold NewEntity. destruct (Direction _ _ _ _). solid. }
  destruct (String.eqb spell "heal"); [case_match; solid|].
  destruct (String.eqb spell "blink"); [|solid].
  destruct (Direction _ _ _ _). revert Htr. tables. intros Htr. solid.
Qed.

Lemma bodies_frame (w w' : World) :
  frameOf w' = frameOf w ->
  (bodiesPlaced w -> bodiesPlaced w') ∧ (bodiesSolid w -> bodiesSolid w').
Proof.
  unfold frameOf, bodiesPlaced, bodiesSolid. tables.
  intros [= -> -> ->]. done.
Qed.

Lemma equipItemInternal_frame (id : Entity) (invSlot equipSlot_ : Z)
  (s : GameServer) :
  frameOf (World_ (equipItemInternal id invSlot equipSlot_ s))
  = frameOf (World_ s).
Proof.
  unfold equipItemInternal.
  destruct (GetComponent EquipmentComponent (World_ s) id); [|done].
  destruct (GetComponent InventoryComponent (World_ s) id); [|done].
  destruct (_ || _); [done|].
  destruct (String.eqb _ ""); [done|].
  destruct (items.Get _); [|done].
  destruct (_ =? -1)%Z; [done|].
  destruct (negb _); [done|].
  destruct (negb _); [|done].
  destruct (String.eqb _ ""); [done|].
  destruct (AddItem _ _ _ _) as [h1 []]; [|done].
  by destruct (AddItem _ _ _ _).
Qed.

Lemma HandleEquipmentAction_frame (id : Entity)
  (action : protocol.EquipmentActionPacket) (s : GameServer) :
  frameOf (World_ (HandleEquipmentAction id action s)) = frameOf (World_ s).
Proof.
  unfold HandleEquipmentAction.
  destruct (String.eqb _ "Equip"); [apply equipItemInternal_frame|].
  destruct (String.eqb _ "Unequip"); [|done].
  destruct (GetComponent EquipmentComponent (World_ s) id); [|done].
  destruct (GetComponent InventoryComponent (World_ s) id); [|done].
  destruct (_ || _); [done|].
  destruct (String.eqb _ ""); [done|].
  by destruct (AddItem _ _ _ _).
Qed.

Lemma toggleEquipItem_frame (id : Entity) (itemID : string)
  (s : GameServer) :
  frameOf (World_ (toggleEquipItem id itemID s)) = frameOf (World_ s).
Proof.
  unfold toggleEquipItem.
  destruct (GetComponent EquipmentComponent (World_ s) id); [|done].
  destruct (GetComponent InventoryComponent (World_ s) id); [|done].
  destruct (list_find _ _) as [[foundSlot ?]|].
  { by destruct (AddItem _ _ _ _). }
  destruct (findSlot _ _ _); [|done].
  destruct (items.Get itemID); [|done].
  destruct (_ =? -1)%Z; [done|]. apply equipItemInternal_frame.
Qed.

Lemma HandleInventoryAction_frame (id : Entity)
  (action : protocol.InventoryActionPacket) (s : GameServer) :
  frameOf (World_ (HandleInventoryAction id action s)) = frameOf (World_ s).
Proof.
  unfold HandleInventoryAction.
  destruct (GetComponent InventoryComponent (World_ s) id); [|done].
  destruct (String.eqb _ "Swap"); [done|].
  destruct (String.eqb _ "Drop"); [by destruct (_ && _)|].
  destruct (String.eqb _ "Primary"); [|done].
  destruct (_ && _); [|done].
  destruct (negb (String.eqb _ "")); [|done].
  destruct (items.Get _); [|done].
  destruct (negb _); [apply equipItemInternal_frame|done].
Qed.

Lemma login_world (username password : string)
  (saved : option storage.PlayerSaveData) (l : loc) (s : GameServer) :
  (bodiesPlaced (World_ s) ->
   bodiesPlaced (World_ (login username password saved l s))) ∧
  (bodiesSolid (World_ s) ->
   bodiesSolid (World_ (login username password saved l s))).
Proof.
  unfold login. destruct saved as [saved|]; [|done].
  destruct (negb _); [done|].
  unfold NewEntity, NewInventory. cbn [World_].
  split; intros Hs; revert Hs; [placed|solid].
Qed.

(** Every box is a body: an entity that holds a Transform and is no
    projectile holds Physics.  It is so in the empty world, and the server
    keeps it so: the spawn, login, attack, spell, projectile, respawn and
    logout code, the equipment, hotbar and inventory requests, the movement
    of an entity and the decision of an AI.  The login, the spells and the
    requests also keep every body placed.  (So the collision test of the
    movement system, which ranges over the holders of Physics, ranges over
    every box.) *)
Theorem bodies_stay_solid (s : GameServer) :
  (bodiesSolid NewWorld ∧ bodiesPlaced NewWorld) ∧
  (bodiesSolid (World_ s) ->
   (∀ x y charID, bodiesSolid (World_ (SpawnCharacter x y charID s))) ∧
   (∀ username password saved l,
      bodiesSolid (World_ (login username password saved l s))) ∧
   (∀ id now, bodiesSolid (World_ (HandleAttack id now s))) ∧
   (∀ id spell tx ty now,
      bodiesSolid (handleSpellCast id spell tx ty now (World_ s))) ∧
   (∀ targets pid s',
      UpdateProjectileOver targets pid s = Some s' ->
      bodiesSolid (World_ s')) ∧
   (∀ ents dt, bodiesSolid (UpdateRespawnOver ents dt (World_ s))) ∧
   (∀ id, bodiesSolid (World_ (RemovePlayer id s))) ∧
   (∀ id action, bodiesSolid (World_ (HandleEquipmentAction id action s))) ∧
   (∀ id itemID, bodiesSolid (World_ (toggleEquipItem id itemID s))) ∧
   (∀ id action, bodiesSolid (World_ (HandleInventoryAction id action s))) ∧
   (∀ Atan2 id dt ms ms',
      movement.mWorld ms = World_ s ->
      movement.UpdateEntityMovement Atan2 id dt ms = Some ms' ->
      bodiesSolid (movement.mWorld ms')) ∧
   (∀ dt id a a' flow,
      ai.aWorld a = World_ s ->
      ai.updateEntity dt id a = Some (a', flow) ->
      bodiesSolid (ai.aWorld a'))) ∧
  (bodiesPlaced (World_ s) ->
   (∀ username password saved l,
      bodiesPlaced (World_ (login username password saved l s))) ∧
   (∀ id spell tx ty now,
      bodiesPlaced (handleSpellCast id spell tx ty now (World_ s))) ∧
   (∀ id action, bodiesPlaced (World_ (HandleEquipmentAction id action s))) ∧
   (∀ id itemID, bodiesPlaced (World_ (toggleEquipItem id itemID s))) ∧
   (∀ id action, bodiesPlaced (World_ (HandleInventoryAction id action s)))).
Proof.
  split; [|split].
  { split; intros e [? He]; stores. }
  - intros Hs. split_and!.
    + intros x y charID. unfold SpawnCharacter.
      destruct (characters.Get charID) as [def|]; [|done].
      unfold NewEntity. cbn [World_ withWorld]. revert Hs.
      destruct (negb _); solid.
    + intros username password saved l. by apply login_world.
    + intros id now. unfold HandleAttack.
      destruct (GetComponent InputComponent (World_ s) id) as [input|];
        [|done].
      destruct (negb (Attack input)); [done|].
      destruct (match Players s !! id with Some _ => _ | None => _ end);
        [done|].
      destruct (negb (String.eqb _ ""));
        [by apply handleSpellCast_solid|].
      destruct (weaponOf (World_ s) id) as [weapon|]; [|done].
      destruct (_ <? _); [done|].
      destruct (GetComponent TransformComponent (World_ s) id)
        as [transform|] eqn:Htr; [|done].
      cbn [World_ withWorld]. unfold spawnAttack, NewEntity. revert Hs Htr.
      destruct (GetComponent SpriteComponent _ id);
        destruct (aType weapon); destruct (Direction _ _ _ _);
        tables; intros Hs Htr; revert Hs; solid.
    + intros id spell tx ty now. by apply handleSpellCast_solid.
    + intros targets pid s'. unfold UpdateProjectileOver.
      destruct (GetComponent TransformComponent (World_ s) pid)
        as [transform|] eqn:Htr; [|by intros [= <-]].
      destruct (GetComponent ProjectileComponent (World_ s) pid) as [proj|]
        eqn:Hproj; [|by intros [= <-]].
      destruct (advance transform proj _) as [transform' proj'].
      assert (bodiesSolid (AddComponent pid proj'
                             (AddComponent pid transform' (World_ s))))
        as Hmoved by (revert Hs; solid).
      destruct (Lifetime proj' <=? 0);
        [intros [= <-]; revert Hs; solid|].
      destruct (terrainBlocks (Maps s) transform');
        [intros [= <-]; revert Hmoved; solid|].
      destruct (forReturn targets _) as [[w'|]|] eqn:Hscan; [|done|];
        intros [= <-]; [|done].
      apply forReturn_elem in Hscan as (tid & _ & Hhit).
      unfold hitTarget in Hhit. repeat case_match; simplify_eq.
      cbn [World_ withWorld].
      match goal with
      | |- bodiesSolid (RemoveEntity pid (applyHit ?p ?t ?st ?w)) =>
          pose proof (applyHit_solid p t st w Hmoved) as Hhit;
          revert Hhit; generalize (applyHit p t st w)
      end.
      intros w. solid.
    + intros ents dt. unfold UpdateRespawnOver. revert Hs.
      generalize (World_ s) as w.
      induction ents as [|e ents IH]; intros w Hw; [done|].
      cbn [foldl]. by apply IH, respawnEntity_solid.
    + intros id. cbn [World_ RemovePlayer]. revert Hs. solid.
    + intros id action.
      by apply (bodies_frame _ _ (HandleEquipmentAction_frame id action s)).
    + intros id itemID.
      by apply (bodies_frame _ _ (toggleEquipItem_frame id itemID s)).
    + intros id action.
      by apply (bodies_frame _ _ (HandleInventoryAction_frame id action s)).
    + intros Atan2 id dt ms ms' Hw. unfold movement.UpdateEntityMovement.
      rewrite Hw.
      destruct (GetComponent InputComponent (World_ s) id);
        [|by intros [= <-]; rewrite Hw].
      destruct (GetComponent TransformComponent (World_ s) id) eqn:Htr;
        [|by intros [= <-]; rewrite Hw].
      destruct (GetComponent PhysicsComponent (World_ s) id) eqn:Hph;
        [|by intros [= <-]; rewrite Hw].
      destruct (movement.normalized _).
      destruct (movement.blocked _ _ _ _ _) as [bx|]; [|done].
      destruct (movement.blocked _ _ _ _ _) as [by_|]; [|done].
      destruct (movement.updateRotation _ _ _ _ _ _ _ _).
      intros [= <-]. cbn [movement.mWorld]. revert Hs Hph. tables.
      intros Hs Hph. revert Hs. solid.
    + intros dt id a a' flow Hw Hstep.
      destruct (updateEntity_saves dt id a a' flow Hstep)
        as [_ [->|(ai_ & input & ->)]]; rewrite Hw; [done|].
      unfold ai.save. revert Hs. solid.
  - intros Hs. split_and!.
    + intros username password saved l. by apply login_world.
    + intros id spell tx ty now. by apply handleSpellCast_placed.
    + intros id action.
      by apply (bodies_frame _ _ (HandleEquipmentAction_frame id action s)).
    + intros id itemID.
      by apply (bodies_frame _ _ (toggleEquipItem_frame id itemID s)).
    + intros id action.
      by apply (bodies_frame _ _ (HandleInventoryAction_frame id action s)).
Qed.

End SolidProps.

(** ** The login *)

Section LoginProps.
Import components ecs inventory server.
Local Open Scope float_scope.

Lemma loadEquipment_array (saved : list string) :
  length saved = 9%nat ->
  loadEquipment 0 saved emptyEquipment = mkEquipment saved.
Proof.
  intros Hlen.
  do 10 (destruct saved as [|? saved]; try discriminate Hlen). reflexivity.
Qed.

Lemma AddItem_on (inv : InventoryComponent) (item : string) (q : Z)
  (h : Heap) (slots : list InventorySlot) :
  slotsOf h inv = slots ->
  AddItem inv item q h
  = match items.Get item with
    | None => (h, true)
    | Some _ =>
        match findSlot (fun s => String.eqb (ItemID s) item) slots 0 with
        | Some i =>
            let s := default (mkSlot "" 0) (slots !! i) in
            (writeSlot h inv i
               (mkSlot (ItemID s) (int64 (Quantity s + q))), false)
        | None =>
            match findSlot
                    (fun s => String.eqb (ItemID s) "" || (Quantity s =? 0)%Z)
                    slots 0 with
            | Some i => (writeSlot h inv i (mkSlot item q), false)
            | None => (h, true)
            end
        end
    end.
Proof. by intros <-. Qed.

(** The starter kit of a player without saved inventory: a sword and a
    bow; the red potions are no registered item and are not added. *)
Lemma starter_kit (l : loc) (h : Heap) :
  let '(inv, h0) := NewInventory l 25 h in
  slotsOf
    (AddItem inv "potion_red" 5
       (AddItem inv "bow_starter" 1
          (AddItem inv "sword_starter" 1 h0).1).1).1 inv
  = mkSlot "sword_starter" 1 :: mkSlot "bow_starter" 1
    :: replicate 23 (mkSlot "" 0).
Proof.
  unfold NewInventory. cbv beta iota.
  set (inv := mkInventory l 25).
  set (h0 := <[l := replicate (Z.to_nat 25) (mkSlot "" 0)]> h).
  assert (slotsOf h0 inv = replicate 25 (mkSlot "" 0)) as H0.
  { unfold slotsOf, h0, inv. cbn [Slots]. by rewrite lookup_insert_eq. }
  assert (AddItem inv "sword_starter" 1 h0
          = (writeSlot h0 inv 0 (mkSlot "sword_starter" 1), false)) as ->
    by (by rewrite (AddItem_on inv "sword_starter" 1 h0 _ H0)).
  cbn [fst].
  set (h1 := writeSlot h0 inv 0 (mkSlot "sword_starter" 1)).
  assert (slotsOf h1 inv
          = mkSlot "sword_starter" 1 :: replicate 24 (mkSlot "" 0)) as H1.
  { unfold h1. by rewrite slotsOf_writeSlot, H0. }
  assert (AddItem inv "bow_starter" 1 h1
          = (writeSlot h1 inv 1 (mkSlot "bow_starter" 1), false)) as ->
    by (by rewrite (AddItem_on inv "bow_starter" 1 h1 _ H1)).
  cbn [fst].
  set (h2 := writeSlot h1 inv 1 (mkSlot "bow_starter" 1)).
  assert (slotsOf h2 inv
          = mkSlot "sword_starter" 1 :: mkSlot "bow_starter" 1
            :: replicate 23 (mkSlot "" 0)) as H2.
  { unfold h2. by rewrite slotsOf_writeSlot, H1. }
  assert (AddItem inv "potion_red" 5 h2 = (h2, true)) as ->
    by (by rewrite (AddItem_on inv "potion_red" 5 h2 _ H2)).
  exact H2.
Qed.

(** A login with the right password creates one entity, the player, from
    the save: a Transform at the saved position, Physics of speed 6, a
    green sprite of 32 by 32, 100 maximum health and the saved health, the
    zero Input, a new inventory of 25 slots, the saved equipment and
    spells, and an entry in the table of players; without saved inventory
    the inventory holds a sword and a bow (the five red potions are no
    registered item, and [AddItem] turns them down).  No other entity, no
    other player and no other array changes.  An unknown user or a wrong
    password changes nothing. *)
Theorem login_builds_the_player (username password : string)
  (saved : storage.PlayerSaveData) (l : loc) (s : GameServer) :
  storage.Password saved = password ->
  let pid := ((nextEntityID (World_ s) + 1) mod 2 ^ 64)%N in
  let s' := login username password (Some saved) l s in
  nextEntityID (World_ s') = pid ∧
  GetComponent TransformComponent (World_ s') pid
  = Some (mkTransform (storage.X saved) (storage.Y saved) 0 0) ∧
  GetComponent PhysicsComponent (World_ s') pid = Some (mkPhysics 0 0 0 0 6) ∧
  GetComponent SpriteComponent (World_ s') pid
  = Some (mkSprite (mkRGBA 0 255 0 255) 32 32) ∧
  GetComponent StatsComponent (World_ s') pid
  = Some (mkStats 100 (storage.Health saved) 0) ∧
  GetComponent InputComponent (World_ s') pid = Some zeroInput ∧
  GetComponent InventoryComponent (World_ s') pid = Some (mkInventory l 25) ∧
  length (slotsOf (heap s') (mkInventory l 25)) = 25%nat ∧
  (storage.Inventory saved = [] ->
   slotsOf (heap s') (mkInventory l 25)
   = mkSlot "sword_starter" 1 :: mkSlot "bow_starter" 1
     :: replicate 23 (mkSlot "" 0)) ∧
  (length (storage.Equipment saved) = 9%nat ->
   GetComponent EquipmentComponent (World_ s') pid
   = Some (mkEquipment (storage.Equipment saved))) ∧
  GetComponent SpellbookComponent (World_ s') pid
  = Some (mkSpellbook (storage.UnlockedSpells saved) ∅) ∧
  GetComponent AIComponent (World_ s') pid
  = GetComponent AIComponent (World_ s) pid ∧
  GetComponent RespawnComponent (World_ s') pid
  = GetComponent RespawnComponent (World_ s) pid ∧
  Players s' !! pid = Some (mkPlayer username zeroInput) ∧
  Maps s' = Maps s ∧
  (∀ e, e ≠ pid ->
        componentsOf (World_ s') e = componentsOf (World_ s) e ∧
        Players s' !! e = Players s !! e) ∧
  (∀ l', l' ≠ l -> heap s' !! l' = heap s !! l') ∧
  login username password None l s = s ∧
  (∀ wrong, storage.Password saved ≠ wrong ->
            login username wrong (Some saved) l s = s).
Proof.
  intros Hpw pid s'. subst s'. unfold login.
  assert (String.eqb (storage.Password saved) password = true) as ->
    by (by apply String.eqb_eq).
  cbn [negb]. unfold NewEntity. fold pid.
  destruct (NewInventory l 25 (heap s)) as [inv h0] eqn:Hnew.
  assert (inv = mkInventory l 25) as -> by (by injection Hnew).
  cbn [World_ Players Maps heap].
  assert (∀ h saved_slots,
            length (slotsOf h (mkInventory l 25)) = 25%nat ->
            length (slotsOf (foldl (loadSlot (mkInventory l 25)) h saved_slots)
                      (mkInventory l 25)) = 25%nat ∧
            ∀ l', l' ≠ l ->
              foldl (loadSlot (mkInventory l 25)) h saved_slots !! l' = h !! l')
    as Hload.
  { intros h saved_slots. revert h.
    induction saved_slots as [|slot rest IH]; intros h Hlen; [done|].
    cbn [foldl]. unfold loadSlot at 2 4.
    destruct (_ && _); [|by apply IH].
    destruct (IH (writeSlot h (mkInventory l 25)
                    (Z.to_nat (storage.Index slot))
                    (mkSlot (storage.ItemID slot) (storage.Quantity slot))))
      as [Hlen' Hother].
    { unfold writeSlot, slotsOf in *. cbn [Slots] in *.
      rewrite lookup_insert_eq. cbn. by rewrite length_insert. }
    split; [done|]. intros l' Hne. rewrite Hother by done.
    unfold writeSlot. cbn [Slots]. by rewrite lookup_insert_ne. }
  assert (length (slotsOf h0 (mkInventory l 25)) = 25%nat) as Hlen0.
  { injection Hnew as <-. unfold slotsOf. cbn [Slots].
    by rewrite lookup_insert_eq. }
  assert (∀ l', l' ≠ l -> h0 !! l' = heap s !! l') as Hother0.
  { intros l' Hne. injection Hnew as <-. by rewrite lookup_insert_ne. }
  assert (∀ item q h,
            length (slotsOf h (mkInventory l 25)) = 25%nat ->
            length (slotsOf (AddItem (mkInventory l 25) item q h).1
                      (mkInventory l 25)) = 25%nat ∧
            ∀ l', l' ≠ l ->
              (AddItem (mkInventory l 25) item q h).1 !! l' = h !! l')
    as Hadd.
  { intros item q h Hlen. unfold AddItem.
    destruct (items.Get item); [|done].
    repeat case_match; cbn [fst]; try done;
      unfold writeSlot, slotsOf in *; cbn [Slots] in *;
      rewrite lookup_insert_eq; cbn; rewrite length_insert;
      (split; [done|]); intros l' Hne; by rewrite lookup_insert_ne. }
  split_and!; try (by stores).
  - destruct (bool_decide _); [by apply Hload|].
    repeat (apply Hadd). done.
  - intros Hnone. rewrite Hnone. cbn [length].
    rewrite bool_decide_eq_false_2 by lia.
    pose proof (starter_kit l (heap s)) as Hkit. rewrite Hnew in Hkit.
    exact Hkit.
  - intros Hlen. rewrite loadEquipment_array by done. stores.
  - intros e Hne. stores.
  - intros l' Hne. destruct (bool_decide _).
    + destruct (Hload h0 (storage.Inventory saved) Hlen0) as [_ ->]; auto.
    + destruct (Hadd "sword_starter" 1%Z h0 Hlen0) as [H1 E1].
      destruct (Hadd "bow_starter" 1%Z _ H1) as [H2 E2].
      destruct (Hadd "potion_red" 5%Z _ H2) as [_ E3].
      rewrite E3, E2, E1 by done. auto.
  - intros wrong Hwrong. apply String.eqb_neq in Hwrong. by rewrite Hwrong.
Qed.

End LoginProps.

(** *** The first player *)

Section LoginExamples.
Import components ecs inventory server.
Local Open Scope float_scope.

(** The newcomer who logs into the empty server is a body with a box. *)
Lemma bodies_stay_solid_witness :
  bodiesSolid (World_ (login "henry" "secret" (Some newcomer) 1%N emptyServer))
  ∧ bodiesPlaced
      (World_ (login "henry" "secret" (Some newcomer) 1%N emptyServer)).
Proof.
  destruct (bodies_stay_solid emptyServer) as ([Hs Hp] & Hsolid & Hplaced).
  split.
  - exact (proj1 (proj2 (Hsolid Hs)) "henry" "secret" (Some newcomer) 1%N).
  - exact (proj1 (Hplaced Hp) "henry" "secret" (Some newcomer) 1%N).
Defined.

(** The newcomer becomes entity 1, stands at (100,100), and carries a
    sword and a bow. *)
Lemma login_builds_the_player_witness :
  GetComponent TransformComponent
    (World_ (login "henry" "secret" (Some newcomer) 1%N emptyServer)) 1%N
  = Some (mkTransform 100 100 0 0) ∧
  slotsOf (heap (login "henry" "secret" (Some newcomer) 1%N emptyServer))
    (mkInventory 1%N 25)
  = mkSlot "sword_starter" 1 :: mkSlot "bow_starter" 1
    :: replicate 23 (mkSlot "" 0).
Proof.
  destruct (login_builds_the_player "henry" "secret" newcomer 1%N emptyServer
              eq_refl)
    as (_ & Ht & _ & _ & _ & _ & _ & _ & Hkit & _).
  split; [exact Ht|exact (Hkit eq_refl)].
Defined.

End LoginExamples.

(** ** What the AI decides *)

Section IntentProps.
Import components ecs ai.
Local Open Scope float_scope.

Lemma pickNewState_anchor (a : AIComponent) (r : Rng) :
  anchor (pickNewState a r).1 = anchor a.
Proof. unfold pickNewState. repeat case_match; simplify_eq; done. Qed.

Lemma steerChase_out (input : InputComponent) (d : float * float) :
  still input ->
  coherent (steerChase input d) ∧ Attack (steerChase input d) = Attack input.
Proof.
  intros (Hu & Hd & Hl & Hr). unfold steerChase, coherent.
  destruct d as [dx dy].
  repeat case_match; cbn; rewrite ?Hu, ?Hd, ?Hl, ?Hr; done.
Qed.

Lemma steerReturn_out (input : InputComponent) (d : float * float) :
  still input ->
  coherent (steerReturn input d) ∧ Attack (steerReturn input d) = Attack input.
Proof.
  intros (Hu & Hd & Hl & Hr). unfold steerReturn, coherent.
  destruct d as [dx dy].
  repeat case_match; cbn; rewrite ?Hu, ?Hd, ?Hl, ?Hr; done.
Qed.

Lemma applyWanderState_out (a : AIComponent) (input : InputComponent)
  (transform : TransformComponent) :
  still input ->
  coherent (applyWanderState a input transform) ∧
  Attack (applyWanderState a input transform) = Attack input.
Proof.
  intros (Hu & Hd & Hl & Hr). unfold applyWanderState, coherent.
  destruct (String.eqb (State a) "move");
    repeat (destruct (_ =? _)%Z); cbn; rewrite ?Hu, ?Hd, ?Hl, ?Hr; done.
Qed.

Lemma still_coherent (input : InputComponent) : still input -> coherent input.
Proof. intros (Hu & _ & Hl & _). unfold coherent. by rewrite Hu, Hl. Qed.

Lemma chase_out (m : world.Map) (dt : float) (hasLOS : bool)
  (self target : float * float) (tt transform : TransformComponent)
  (a a' : AIComponent) (input input' : InputComponent) :
  chase m dt hasLOS self target tt transform a input = Some (a', input') ->
  anchor a' = anchor a ∧ TargetID a' = TargetID a ∧
  ∃ d, input' = steerChase input d.
Proof.
  unfold chase. intros Hc.
  destruct hasLOS; [simplify_eq; split_and!; [done..|by eexists]|].
  destruct (_ || _).
  - destruct (FindPath _ _ _ _ _) as [p|]; [|done].
    destruct (followPath _ _ _) as [moveTarget rest]. simplify_eq.
    split_and!; [done..|by eexists].
  - destruct (followPath _ _ _) as [moveTarget rest]. simplify_eq.
    split_and!; [done..|by eexists].
Qed.

Lemma returning_out (m : world.Map) (dt : float)
  (transform : TransformComponent) (a a' : AIComponent)
  (input input' : InputComponent) :
  returning m dt transform a input = Some (a', input') ->
  anchor a' = anchor a ∧ TargetID a' = TargetID a ∧
  (input' = input ∨ ∃ d, input' = steerReturn input d).
Proof.
  unfold returning. intros Hr.
  destruct (_ <? _); [simplify_eq; split_and!; [done..|by left]|].
  destruct (_ || _).
  - destruct (FindPath _ _ _ _ _) as [p|]; [|done].
    destruct (followPath _ _ _) as [moveTarget rest]. simplify_eq.
    split_and!; [done..|right; by eexists].
  - destruct (followPath _ _ _) as [moveTarget rest]. simplify_eq.
    split_and!; [done..|right; by eexists].
Qed.

Lemma wander_out (dt : float) (transform : TransformComponent)
  (a a' : AIComponent) (input input' : InputComponent) (r r' : Rng) :
  wander dt transform a input r = (a', input', r') ->
  anchor a' = anchor a ∧
  (input' = input ∨ ∃ a'', input' = applyWanderState a'' input transform).
Proof.
  unfold wander. intros Hw.
  destruct (beyondLeash transform a); [simplify_eq; split; [done|by left]|].
  destruct (_ <=? _).
  - pose proof (pickNewState_anchor (setStateTimer a (StateTimer a - dt)) r)
      as Hpick.
    destruct (pickNewState _ r) as [a1 r1]. injection Hw as <- <- <-.
    split; [exact Hpick|right; by eexists].
  - simplify_eq. split; [done|right; by eexists].
Qed.

Lemma updateEntity_evaluated (dt : float) (id : Entity) (s s' : AISystem)
  (flow : Flow) (a : AIComponent) (input : InputComponent)
  (transform : TransformComponent) (m : world.Map) :
  GetComponent AIComponent (aWorld s) id = Some a ->
  GetComponent InputComponent (aWorld s) id = Some input ->
  GetComponent TransformComponent (aWorld s) id = Some transform ->
  aMaps s !! tZ transform = Some m ->
  updateEntity dt id s = Some (s', flow) ->
  aMaps s' = aMaps s ∧
  ∃ a' input',
    aWorld s' = save id a' input' (aWorld s) ∧
    anchor a' = anchor a ∧ coherent input' ∧
    (Attack input' = true ->
     still input' ∧ State a' = "attack" ∧ TargetID a' ≠ 0%N) ∧
    IsRunning input' = IsRunning input ∧
    HotbarTriggers input' = HotbarTriggers input ∧
    ActiveSpell input' = ActiveSpell input.
Proof.
  intros Ha Hi Ht Hm. unfold updateEntity. rewrite Ha, Hi, Ht, Hm.
  set (input0 := setAttack (setMoves input false false false false) false).
  assert (still input0) as Hstill by done.
  destruct (N.eqb_spec (TargetID a) 0) as [Hnone|Htarget]; cbn [negb].
  - destruct (String.eqb (State a) "return").
    + destruct (returning m dt transform a input0) as [[a' input']|] eqn:Hret;
        [|done].
      intros [= <- _]. split; [done|]. exists a', input'.
      apply returning_out in Hret as (Hanchor & _ & Hinput).
      split; [done|]. split; [done|].
      destruct Hinput as [->|[d ->]].
      * split_and!; try done; by apply still_coherent.
      * destruct (steerReturn_out input0 d Hstill) as [Hco Hatt].
        split_and!; try done; try (by rewrite Hatt);
          unfold steerReturn; destruct d; by repeat case_match.
    + destruct (wander dt transform a input0 (rng s)) as [[a' input'] r']
        eqn:Hwander.
      intros [= <- _]. split; [done|]. exists a', input'.
      apply wander_out in Hwander as (Hanchor & Hinput).
      split; [done|]. split; [done|].
      destruct Hinput as [->|[a'' ->]].
      * split_and!; try done; by apply still_coherent.
      * destruct (applyWanderState_out a'' input0 transform Hstill)
          as [Hco Hatt].
        split_and!; try done; try (by rewrite Hatt);
          unfold applyWanderState; by repeat case_match.
  - destruct (engaged m dt id transform a input0 (aWorld s))
      as [[w' flow']|] eqn:Heng; [|done].
    intros [= <- _]. split; [done|]. cbn [aWorld].
    unfold engaged in Heng.
    destruct (GetComponent TransformComponent (aWorld s) (TargetID a))
      as [goal|].
    2:{ simplify_eq. eexists _, _. split; [done|].
        split_and!; try done; by apply still_coherent. }
    destruct (_ =? _)%Z.
    2:{ simplify_eq. eexists _, _. split; [done|].
        split_and!; try done; by apply still_coherent. }
    destruct (attackRangeOf (aWorld s) id) as [attackRange ranged].
    destruct (beyondLeash transform a).
    { simplify_eq. eexists _, _. split; [done|].
      split_and!; try done; by apply still_coherent. }
    destruct (_ && _).
    { simplify_eq. eexists _, _. split; [done|].
      split_and!; try done. }
    destruct (chase _ _ _ _ _ _ _ _ _) as [[a' input']|] eqn:Hchase; [|done].
    simplify_eq. exists a', input'. split; [done|].
    apply chase_out in Hchase as (Hanchor & Htid & d & ->).
    match goal with
    | |- context [steerChase ?i d] =>
        destruct (steerChase_out i d ltac:(done)) as [Hco Hatt]
    end.
    split_and!; try done; try (by rewrite Hatt);
      unfold steerChase; destruct d; by repeat case_match.
Qed.

(** An entity the AI does not evaluate is left alone. *)
Lemma updateEntity_skipped (dt : float) (id : Entity) (s : AISystem) :
  GetComponent AIComponent (aWorld s) id = None ∨
  GetComponent InputComponent (aWorld s) id = None ∨
  GetComponent TransformComponent (aWorld s) id = None ∨
  (∃ transform,
     GetComponent TransformComponent (aWorld s) id = Some transform ∧
     aMaps s !! tZ transform = None) ->
  updateEntity dt id s = Some (s, Continue).
Proof.
  unfold updateEntity.
  intros [Hnone|[Hnone|[Hnone|(transform & Ht & Hm)]]].
  - by rewrite Hnone.
  - rewrite Hnone. by destruct (GetComponent AIComponent (aWorld s) id).
  - rewrite Hnone.
    by destruct (GetComponent AIComponent (aWorld s) id),
         (GetComponent InputComponent (aWorld s) id).
  - rewrite Ht, Hm.
    by destruct (GetComponent AIComponent (aWorld s) id),
         (GetComponent InputComponent (aWorld s) id).
Qed.

(** The AI decides intent only.  An entity that lacks an AI, an Input, a
    Transform or a map for its level is left alone.  Of an entity it
    evaluates the AI writes the AI component and the Input, nothing else in
    the world: the AI keeps its kind, spawn origin, leash, faction and
    temper, and the Input keeps the run flag, the hotbar triggers and the
    selected spell, presses no two opposite directions, and has the attack
    flag up only in state "attack", against a target, with no direction
    pressed. *)
Theorem ai_decides_intent_only (dt : float) (id : Entity) (s : AISystem) :
  (GetComponent AIComponent (aWorld s) id = None ∨
   GetComponent InputComponent (aWorld s) id = None ∨
   GetComponent TransformComponent (aWorld s) id = None ∨
   (∃ transform,
      GetComponent TransformComponent (aWorld s) id = Some transform ∧
      aMaps s !! tZ transform = None) ->
   updateEntity dt id s = Some (s, Continue)) ∧
  (∀ s' flow a input transform m,
     GetComponent AIComponent (aWorld s) id = Some a ->
     GetComponent InputComponent (aWorld s) id = Some input ->
     GetComponent TransformComponent (aWorld s) id = Some transform ->
     aMaps s !! tZ transform = Some m ->
     updateEntity dt id s = Some (s', flow) ->
     aMaps s' = aMaps s ∧
     ∃ a' input',
       aWorld s' = save id a' input' (aWorld s) ∧
       anchor a' = anchor a ∧ coherent input' ∧
       (Attack input' = true ->
        still input' ∧ State a' = "attack" ∧ TargetID a' ≠ 0%N) ∧
       IsRunning input' = IsRunning input ∧
       HotbarTriggers input' = HotbarTriggers input ∧
       ActiveSpell input' = ActiveSpell input).
Proof.
  split; [apply updateEntity_skipped|].
  intros s' flow a input transform m. apply updateEntity_evaluated.
Qed.

End IntentProps.

Section IntentExamples.
Import components ecs ai.
Local Open Scope float_scope.

(** The guard that attacks the player at x = 140 presses no direction. *)
Lemma ai_decides_intent_only_witness :
  ∃ s' a' input',
    updateEntity 0.033 1%N (playerAt 140) = Some (s', Continue) ∧
    aWorld s' = save 1%N a' input' (aWorld (playerAt 140)) ∧
    anchor a' = anchor (guardAI "chase" 2%N) ∧
    coherent input'.
Proof.
  eexists. 
  destruct (proj2 (ai_decides_intent_only 0.033 1%N (playerAt 140)) _ Continue
              (guardAI "chase" 2%N) zeroInput (mkTransform 100 100 0 0) meadow
              eq_refl eq_refl eq_refl eq_refl ltac:(vm_compute; reflexivity))
    as (_ & a' & input' & Hw & Hanchor & Hco & _).
  exists a', input'. split; [vm_compute; reflexivity|]. by split_and!.
Defined.

End IntentExamples.

(** ** The map on the wire *)

Section FlattenProps.
Import world.

Lemma lookup_concat_grid {A : Type} (rows : list (list A)) (w y x : nat) :
  Forall (fun row => length row = w) rows -> (x < w)%nat ->
  concat rows !! (y * w + x)%nat = rows !! y ≫= fun row => row !! x.
Proof.
  intros Hrows Hx. revert y.
  induction Hrows as [|row rows Hrow _ IH]; intros y; [by destruct y|].
  destruct y as [|y]; cbn [concat].
  - cbn. rewrite lookup_app_l by lia. done.
  - rewrite lookup_app_r by (cbn; lia).
    replace (S y * w + x - length row)%nat with (y * w + x)%nat
      by (cbn; lia).
    apply IH.
Qed.

Lemma length_concat_grid {A : Type} (rows : list (list A)) (w : nat) :
  Forall (fun row => length row = w) rows ->
  length (concat rows) = (w * length rows)%nat.
Proof.
  induction 1 as [|row rows Hrow _ IH]; cbn; [lia|].
  rewrite length_app, IH, Hrow. lia.
Qed.

(** A loop of writes [flat[i x] = v x], one for each [x] of [l]. *)
Lemma foldl_writes {B : Type}
  (step : option (list Z) -> B -> option (list Z))
  (i : B -> nat) (v : B -> Z) (l : list B) (flat : list Z) :
  (∀ flat x, x ∈ l -> step (Some flat) x = Some (<[i x := v x]> flat)) ->
  ∃ flat', foldl step (Some flat) l = Some flat' ∧
           length flat' = length flat ∧
           (∀ x, x ∈ l -> (i x < length flat)%nat ->
                 (∀ x', x' ∈ l -> i x' = i x -> x' = x) -> NoDup l ->
                 flat' !! i x = Some (v x)) ∧
           (∀ k, (∀ x, x ∈ l -> i x ≠ k) -> flat' !! k = flat !! k).
Proof.
  revert flat. induction l as [|x0 l IH]; intros flat Hstep.
  { exists flat. split_and!; try done.
    intros x Hx. by apply not_elem_of_nil in Hx. }
  cbn [foldl]. rewrite Hstep by apply list_elem_of_here.
  destruct (IH (<[i x0 := v x0]> flat)) as (flat' & Hrun & Hlen & Hin & Hout).
  { intros fl x Hx. apply Hstep. by apply elem_of_cons; right. }
  exists flat'. rewrite length_insert in Hlen. split_and!; try done.
  - intros x Hx Hlt Hinj Hnodup. apply NoDup_cons in Hnodup as [Hx0 Hnodup].
    apply elem_of_cons in Hx as [->|Hx].
    + rewrite Hout.
      * by apply list_lookup_insert_eq.
      * intros x' Hx' Heq. apply Hx0.
        rewrite <- (Hinj x'); [done| |done]. by apply elem_of_cons; right.
    + apply Hin; try done.
      * by rewrite length_insert.
      * intros x' Hx' Heq. apply Hinj; [|done]. by apply elem_of_cons; right.
  - intros k Hk. rewrite Hout.
    + apply list_lookup_insert_ne. apply Hk, list_elem_of_here.
    + intros x Hx. apply Hk. by apply elem_of_cons; right.
Qed.

Lemma foldl_cells {S : Type} (f : S -> nat -> nat -> S) (a : S) (w h : nat) :
  foldl (fun acc y => foldl (fun acc x => f acc y x) acc (seq 0 w)) a (seq 0 h)
  = foldl (fun acc c => f acc c.1 c.2) a (cells w h).
Proof.
  unfold cells. generalize (seq 0 h) as ys. intros ys. revert a.
  induction ys as [|y ys IH]; intros a; [done|].
  cbn [foldl mbind list_bind]. rewrite foldl_app, <- IH. f_equal.
  generalize (seq 0 w) as xs. intros xs. revert a.
  induction xs as [|x xs IHx]; intros a; [done|]. cbn. apply IHx.
Qed.

Lemma elem_of_cells (w h y x : nat) :
  (y, x) ∈ cells w h ↔ (y < h)%nat ∧ (x < w)%nat.
Proof.
  unfold cells. rewrite list_elem_of_bind. split.
  - intros (y' & Hx & Hy). apply elem_of_seq in Hy.
    apply list_elem_of_fmap in Hx as (x' & [= -> ->] & Hx).
    apply elem_of_seq in Hx. lia.
  - intros [Hy Hx]. exists y. split; [|apply elem_of_seq; lia].
    apply list_elem_of_fmap. exists x. split; [done|apply elem_of_seq; lia].
Qed.

Lemma NoDup_cells (w h : nat) : NoDup (cells w h).
Proof.
  unfold cells. apply NoDup_bind.
  - intros y1 y2 c _ _ H1 H2.
    apply list_elem_of_fmap in H1 as (? & -> & _).
    apply list_elem_of_fmap in H2 as (? & [= -> _] & _). done.
  - intros y _. apply NoDup_fmap; [by intros ? ? [= ->]|apply NoDup_seq].
  - apply NoDup_seq.
Qed.

Lemma cell_index_inj (w y x y' x' : nat) :
  (x < w)%nat -> (x' < w)%nat ->
  (y' * w + x' = y * w + x)%nat -> (y', x') = (y, x).
Proof.
  intros Hx Hx' Heq.
  assert (y' = y) as -> by nia. f_equal. lia.
Qed.

(** What a flattening loop leaves: the cell ([y],[x]) at index
    [y]*[w]+[x]. *)
Lemma flatten_cells (w h : nat) (step : option (list Z) -> nat * nat -> option (list Z))
  (v : nat * nat -> Z) :
  (∀ flat c, c ∈ cells w h ->
             step (Some flat) c = Some (<[(c.1 * w + c.2)%nat := v c]> flat)) ->
  ∃ flat, foldl step (Some (replicate (w * h) 0%Z)) (cells w h) = Some flat ∧
          length flat = (w * h)%nat ∧
          ∀ y x, (y < h)%nat -> (x < w)%nat ->
                 flat !! (y * w + x)%nat = Some (v (y, x)).
Proof.
  intros Hstep.
  destruct (foldl_writes step (fun c => (c.1 * w + c.2)%nat) v (cells w h)
              (replicate (w * h) 0%Z) Hstep)
    as (flat & Hrun & Hlen & Hin & _).
  rewrite length_replicate in Hlen.
  exists flat. split_and!; [done..|]. intros y x Hy Hx.
  apply (Hin (y, x)).
  - by apply elem_of_cells.
  - rewrite length_replicate. cbn. nia.
  - intros [y' x'] Hc Heq. apply elem_of_cells in Hc as [_ Hx'].
    by apply (cell_index_inj w).
  - apply NoDup_cells.
Qed.

Lemma grid_cell {A : Type} (w h : nat) (rows : list (list A)) (y x : nat) :
  gridOf w h rows -> (y < h)%nat -> (x < w)%nat ->
  ∃ c, rows !! y ≫= (fun row => row !! x) = Some c.
Proof.
  intros [Hh Hw] Hy Hx.
  destruct (lookup_lt_is_Some_2 rows y) as [row Hrow]; [lia|].
  rewrite Hrow. cbn.
  apply (Forall_lookup_1 _ _ _ _ Hw) in Hrow as Hlen.
  apply lookup_lt_is_Some_2. lia.
Qed.

(** The flat list whose index [y]*[w]+[x] holds the cell ([y],[x]) of a
    grid is the grid row after row. *)
Lemma flat_is_concat (w h : nat) (rows : list (list Z)) (flat : list Z) :
  gridOf w h rows ->
  length flat = (w * h)%nat ->
  (∀ y x, (y < h)%nat -> (x < w)%nat ->
          flat !! (y * w + x)%nat = rows !! y ≫= fun row => row !! x) ->
  flat = concat rows.
Proof.
  intros [Hh Hw] Hlen Hcells.
  apply list_eq_same_length with (w * h)%nat; [|done|].
  { rewrite (length_concat_grid rows w) by done. by rewrite Hh. }
  intros k a b Hk Ha Hb.
  assert (0 < w)%nat as Hpos by (destruct w; lia).
  assert (k = (k / w) * w + k mod w)%nat as Hsplit.
  { rewrite (Nat.div_mod_eq k w) at 1. lia. }
  assert (k mod w < w)%nat as Hx by (apply Nat.mod_upper_bound; lia).
  assert (k / w < h)%nat as Hy.
  { apply Nat.Div0.div_lt_upper_bound. lia. }
  rewrite Hsplit in Ha, Hb.
  rewrite Hcells in Ha by done.
  rewrite (lookup_concat_grid rows w) in Hb by done. congruence.
Qed.

Lemma unflatten_rows {A : Type} (w h : nat) (rows : list (list A))
  (cell : nat -> nat -> A) :
  gridOf w h rows ->
  (∀ y x c, rows !! y ≫= (fun row => row !! x) = Some c -> cell y x = c) ->
  map (fun y => map (cell y) (seq 0 w)) (seq 0 h) = rows.
Proof.
  intros [Hh Hw] Hcell. apply list_eq. intros y.
  rewrite list_lookup_fmap.
  destruct (decide (y < h)%nat) as [Hy|Hy].
  - rewrite lookup_seq_lt by done. cbn.
    destruct (lookup_lt_is_Some_2 rows y) as [row Hrow]; [lia|].
    rewrite Hrow. f_equal.
    apply (Forall_lookup_1 _ _ _ _ Hw) in Hrow as Hlen.
    apply list_eq. intros x. rewrite list_lookup_fmap.
    destruct (decide (x < w)%nat) as [Hx|Hx].
    + rewrite lookup_seq_lt by done. cbn.
      destruct (lookup_lt_is_Some_2 row x) as [c Hc]; [lia|].
      rewrite Hc. f_equal. apply Hcell. by rewrite Hrow.
    + rewrite lookup_seq_ge by lia. cbn. symmetry.
      apply lookup_ge_None_2. lia.
  - rewrite lookup_seq_ge by lia. cbn. symmetry.
    apply lookup_ge_None_2. lia.
Qed.

Lemma grid_types (w h : nat) (tiles : list (list Tile)) :
  gridOf w h tiles -> gridOf w h (map (map Type_) tiles).
Proof.
  intros [Hh Hw]. split; [by rewrite length_map|].
  apply Forall_fmap. eapply Forall_impl; [exact Hw|].
  intros row Hrow. cbn. by rewrite length_map.
Qed.

Lemma lookup_types (tiles : list (list Tile)) (y x : nat) :
  map (map Type_) tiles !! y ≫= (fun row => row !! x)
  = Type_ <$> (tiles !! y ≫= fun row => row !! x).
Proof.
  change (map (map Type_) tiles) with (map Type_ <$> tiles).
  rewrite list_lookup_fmap. destruct (tiles !! y) as [row|]; [|done].
  cbn. change (map Type_ row) with (Type_ <$> row).
  by rewrite list_lookup_fmap.
Qed.

(** The map travels to the client as a flat list and comes back as it
    was.  [FlattenTiles] of a grid of [h] > 0 rows of [w] tiles returns,
    without a panic, the tile types row after row, and [UnflattenTiles]
    rebuilds the grid from them and its dimensions; likewise
    [FlattenObjects] and [UnflattenObjects] for the object layer. *)
Theorem flatten_round_trip (w h : nat) :
  (∀ tiles,
     gridOf w h tiles -> (0 < h)%nat ->
     FlattenTiles tiles = Some (concat (map (map Type_) tiles)) ∧
     UnflattenTiles (concat (map (map Type_) tiles)) (Z.of_nat w) (Z.of_nat h)
     = Some tiles) ∧
  (∀ objects,
     gridOf w h objects -> (0 < h)%nat ->
     FlattenObjects objects = Some (concat objects) ∧
     UnflattenObjects (concat objects) (Z.of_nat w) (Z.of_nat h)
     = Some objects).
Proof.
  split.
  - intros tiles Hgrid Hpos. pose proof Hgrid as [Hh Hw]. split.
    + unfold FlattenTiles. destruct tiles as [|row0 rest] eqn:Htiles;
        [cbn in Hh; lia|]. rewrite <- Htiles in *.
      assert (length row0 = w) as ->.
      { rewrite Htiles in Hw. by apply Forall_cons in Hw as [? _]. }
      rewrite Hh.
      rewrite (foldl_cells
                 (fun acc y x =>
                    match acc with
                    | None => None
                    | Some flat =>
                        match tiles !! y ≫= fun row => row !! x with
                        | Some t => Some (<[(y * w + x)%nat := Type_ t]> flat)
                        | None => None
                        end
                    end)).
      destruct (flatten_cells w h
                  (fun acc c =>
                     match acc with
                     | None => None
                     | Some flat =>
                         match tiles !! c.1 ≫= fun row => row !! c.2 with
                         | Some t =>
                             Some (<[(c.1 * w + c.2)%nat := Type_ t]> flat)
                         | None => None
                         end
                     end)
                  (fun c => default 0%Z
                              (Type_ <$> (tiles !! c.1 ≫= fun row => row !! c.2))))
        as (flat & -> & Hlen & Hcells).
      { intros flat [y x] Hc. apply elem_of_cells in Hc as [Hy Hx]. cbn.
        destruct (grid_cell w h tiles y x Hgrid Hy Hx) as [t ->]. done. }
      f_equal. apply (flat_is_concat w h); [by apply grid_types|done|].
      intros y x Hy Hx. rewrite Hcells, lookup_types by done. cbn.
      by destruct (grid_cell w h tiles y x Hgrid Hy Hx) as [t ->].
    + unfold UnflattenTiles.
      assert ((Z.of_nat h <? 0)%Z = false) as -> by (apply Z.ltb_ge; lia).
      assert ((Z.of_nat w <? 0)%Z = false) as -> by (apply Z.ltb_ge; lia).
      rewrite andb_false_r, !Nat2Z.id. f_equal.
      apply (unflatten_rows w h); [done|].
      intros y x t Ht.
      rewrite (lookup_concat_grid _ w).
      * rewrite lookup_types, Ht. by destruct t.
      * by apply (grid_types w h tiles Hgrid).
      * destruct (tiles !! y) as [row|] eqn:Hrow; [|done]. cbn in Ht.
        apply (Forall_lookup_1 _ _ _ _ Hw) in Hrow as <-.
        by apply lookup_lt_Some in Ht.
  - intros objects Hgrid Hpos. pose proof Hgrid as [Hh Hw]. split.
    + unfold FlattenObjects. destruct objects as [|row0 rest] eqn:Hobjects;
        [cbn in Hh; lia|]. rewrite <- Hobjects in *.
      assert (length row0 = w) as ->.
      { rewrite Hobjects in Hw. by apply Forall_cons in Hw as [? _]. }
      rewrite Hh.
      rewrite (foldl_cells
                 (fun acc y x =>
                    match acc with
                    | None => None
                    | Some flat =>
                        match objects !! y ≫= fun row => row !! x with
                        | Some o => Some (<[(y * w + x)%nat := o]> flat)
                        | None => None
                        end
                    end)).
      destruct (flatten_cells w h
                  (fun acc c =>
                     match acc with
                     | None => None
                     | Some flat =>
                         match objects !! c.1 ≫= fun row => row !! c.2 with
                         | Some o => Some (<[(c.1 * w + c.2)%nat := o]> flat)
                         | None => None
                         end
                     end)
                  (fun c => default 0%Z
                              (objects !! c.1 ≫= fun row => row !! c.2)))
        as (flat & -> & Hlen & Hcells).
      { intros flat [y x] Hc. apply elem_of_cells in Hc as [Hy Hx]. cbn.
        destruct (grid_cell w h objects y x Hgrid Hy Hx) as [o ->]. done. }
      f_equal. apply (flat_is_concat w h); [done..|].
      intros y x Hy Hx. rewrite Hcells by done. cbn.
      by destruct (grid_cell w h objects y x Hgrid Hy Hx) as [o ->].
    + unfold UnflattenObjects.
      assert ((Z.of_nat h <? 0)%Z = false) as -> by (apply Z.ltb_ge; lia).
      assert ((Z.of_nat w <? 0)%Z = false) as -> by (apply Z.ltb_ge; lia).
      rewrite andb_false_r, !Nat2Z.id. f_equal.
      apply (unflatten_rows w h); [done|].
      intros y x o Ho.
      rewrite (lookup_concat_grid _ w), Ho; [done..|].
      destruct (objects !! y) as [row|] eqn:Hrow; [|done]. cbn in Ho.
      apply (Forall_lookup_1 _ _ _ _ Hw) in Hrow as <-.
      by apply lookup_lt_Some in Ho.
Qed.

End FlattenProps.

Section FlattenExamples.
Import world.

(** The map with the pond goes to the client and comes back. *)
Lemma flatten_round_trip_witness :
  FlattenTiles (Tiles wallMap) ≫= (fun flat => UnflattenTiles flat 4 3)
  = Some (Tiles wallMap).
Proof.
  destruct (proj1 (flatten_round_trip 4 3) (Tiles wallMap)) as [Hflat Hback].
  - split; [reflexivity|].
    repeat (apply Forall_cons_2; [reflexivity|]). apply Forall_nil_2.
  - lia.
  - rewrite Hflat. exact Hback.
Defined.

End FlattenExamples.
